(** * litetracker-mcp: the poll-sync-cache engine

  A shallow embedding of the Go sources of the engine (the session client
  of [internal/api], the store of [internal/db], the sync pass of
  [internal/sync] and the poll loop of [main.go]) together with the
  properties its specification states about them.

  Conventions.
  - A Go [string] is a sequence of bytes: [string] of the Standard Library.
  - A Go [int] is a [Z]; the engine does no arithmetic on identifiers.  The
    [INTEGER] columns of the store hold 32 bits: a write of a value outside
    that range fails.
  - A Go [error] is the text of [err.Error()]; [fmt.Errorf] with [%w]
    concatenates texts.
  - Calls that leave the process (HTTP, the clock) are oracles over an
    abstract world that is threaded through the code.  *)

From Stdlib Require Import ZArith Ascii String List Lia Bool DecimalString.
From stdpp Require Import gmap strings list.

Local Open Scope string_scope.
Local Open Scope Z_scope.

(** ** Results and errors *)

Inductive Result (A : Type) : Type :=
| Ok (a : A)
| Err (msg : string).
Arguments Ok {A} a.
Arguments Err {A} msg.

(** ** Byte strings and the library calls made on them *)

Module GoStr.

(** [s[i]]; the callers below only index within bounds. *)
Definition byteAt (s : string) (i : nat) : ascii :=
  match String.get i s with
  | Some a => a
  | None => Ascii.zero
  end.

Definition isUpper (a : ascii) : bool :=
  ((65 <=? N_of_ascii a) && (N_of_ascii a <=? 90))%N.

(** [if a >= 'A' && a <= 'Z' { a += 32 }] on a byte. *)
Definition foldByte (a : ascii) : ascii :=
  if isUpper a then ascii_of_N ((N_of_ascii a + 32) mod 256) else a.

Definition isDigit (a : ascii) : bool :=
  ((48 <=? N_of_ascii a) && (N_of_ascii a <=? 57))%N.

Definition isLower (a : ascii) : bool :=
  ((97 <=? N_of_ascii a) && (N_of_ascii a <=? 122))%N.

(** RE2's [\w]: [0-9A-Za-z_]. *)
Definition isWord (a : ascii) : bool :=
  isDigit a || isUpper a || isLower a || (N_of_ascii a =? 95)%N.

(** RE2's [\s]: tab, newline, form feed, carriage return, space. *)
Definition isSpace (a : ascii) : bool :=
  let n := N_of_ascii a in
  ((n =? 9) || (n =? 10) || (n =? 12) || (n =? 13) || (n =? 32))%N.

Definition digitVal (a : ascii) : Z := Z.of_N (N_of_ascii a) - 48.

Fixpoint allb (p : ascii -> bool) (s : string) : bool :=
  match s with
  | EmptyString => true
  | String a s' => p a && allb p s'
  end.

(** [strings.HasPrefix(s, p)] *)
Fixpoint HasPrefix (s p : string) : bool :=
  match p, s with
  | EmptyString, _ => true
  | String b p', String a s' => Ascii.eqb a b && HasPrefix s' p'
  | String _ _, EmptyString => false
  end.

(** [strings.Contains(s, substr)] *)
Fixpoint Contains (s substr : string) : bool :=
  HasPrefix s substr ||
  match s with
  | EmptyString => false
  | String _ s' => Contains s' substr
  end.

(** [strings.ReplaceAll(s, old, new)] for a non-empty [old]: the
    occurrences are replaced left to right without overlap. *)
Fixpoint replaceFrom (fuel : nat) (s old new : string) : string :=
  match fuel with
  | O => s
  | S fuel' =>
      match s with
      | EmptyString => EmptyString
      | String a s' =>
          if HasPrefix s old
          then new +:+ replaceFrom fuel' (String.substring (String.length old)
                                            (String.length s - String.length old) s)%nat old new
          else String a (replaceFrom fuel' s' old new)
      end
  end.

Definition ReplaceAll (s old new : string) : string :=
  replaceFrom (String.length s) s old new.

(** [strconv.Itoa] *)
Definition Itoa (z : Z) : string := NilZero.string_of_int (Z.to_int z).

(** The value of a run of decimal digits, most significant first. *)
Fixpoint digitsVal (acc : Z) (s : string) : Z :=
  match s with
  | EmptyString => acc
  | String a s' => digitsVal (10 * acc + digitVal a) s'
  end.

(** [strconv.Atoi]: an optional sign, then one or more decimal digits,
    within the range of a 64-bit [int]. *)
Definition Atoi (s : string) : option Z :=
  let '(neg, ds) :=
    match s with
    | String "-" r => (true, r)
    | String "+" r => (false, r)
    | _ => (false, s)
    end in
  match ds with
  | EmptyString => None
  | _ =>
      if allb isDigit ds then
        let v := if neg then - digitsVal 0 ds else digitsVal 0 ds in
        if (- 2 ^ 63 <=? v) && (v <=? 2 ^ 63 - 1) then Some v else None
      else None
  end.

(** [strings.Join(elems, sep)] *)
Fixpoint Join (elems : list string) (sep : string) : string :=
  match elems with
  | [] => ""
  | [e] => e
  | e :: rest => e +:+ sep +:+ Join rest sep
  end.

(** The padding [fmt] applies for a width with the [0] flag: zeros on the
    left up to [w] characters. *)
Fixpoint zeros (n : nat) : string :=
  match n with
  | O => EmptyString
  | S n' => String "0" (zeros n')
  end.

Definition padZero (w : nat) (s : string) : string :=
  zeros (w - String.length s) +:+ s.

(** [r] is empty or starts with a byte outside the class [p]. *)
Definition startsOutside (p : ascii -> bool) (r : string) : Prop :=
  match r with
  | EmptyString => True
  | String a _ => p a = false
  end.

Definition notSpace (a : ascii) : bool := negb (Ascii.eqb a " ").

End GoStr.

(** ** Library functions taken as given

  The engine calls into the Go library and into DuckDB for a few functions
  whose definition is not part of the repository.  They are the fields of
  [GoLib]; properties the proofs need of them are stated as hypotheses of
  the theorems that use them. *)

Class GoLib := {
(** [strings.ToLower] *)
strings_ToLower : string -> string;
(** [strings.TrimSpace] *)
strings_TrimSpace : string -> string;
(** a decoded [map[string]any], and the text [json.Marshal] gives for it
    (the empty text if it fails: the caller discards the error) *)
NewValues : Type;
json_Marshal : NewValues -> string;
(** [json.MarshalIndent] and [json.Unmarshal] at a struct whose only
    field is [lastPoll] *)
json_MarshalIndent_lastPoll : string -> string;
json_Unmarshal_lastPoll : string -> option string;
(** DuckDB's [TIMESTAMP] values and [TRY_CAST(? AS TIMESTAMP)] on text *)
Timestamp : Type;
TRY_CAST : string -> option Timestamp;
(** [csrfRegex.FindSubmatch]: the first group, when the page matches *)
csrf_FindSubmatch : string -> option string;
(** the error of [http.NewRequest(method, url, body)], if any *)
http_NewRequest : string -> string -> option string;
}.

(** ** internal/config *)

Module config.

Record Config := {
  Token : string;
  BaseURL : string;
  WebURL : string;
  Username : string;
  Email : string;
  Password : string;
  ProjectIDs : list Z;
  UserID : Z;
  PollIntervalMs : Z;
  DataDir : string;
  ProjectDir : string;
}.

(** [strings.Split(s, ",")] *)
Fixpoint splitComma (cur : string) (s : string) : list string :=
  match s with
  | EmptyString => [cur]
  | String a s' =>
      if Ascii.eqb a ","%char then cur :: splitComma "" s'
      else splitComma (cur +:+ String a "") s'
  end.

Definition envOrDefault (getenv : string -> string) (key def : string) : string :=
  if String.eqb (getenv key) "" then def else getenv key.

Definition envInt (getenv : string -> string) (key : string) : Z :=
  if String.eqb (getenv key) "" then 0
  else match GoStr.Atoi (getenv key) with Some n => n | None => 0 end.

Definition envIntOrDefault (getenv : string -> string) (key : string) (def : Z) : Z :=
  if String.eqb (getenv key) "" then def
  else match GoStr.Atoi (getenv key) with Some n => n | None => def end.

(** The loop of [Init] over the comma-separated project ids. *)
Fixpoint parseProjectIDs `{GoLib} (parts : list string) : list Z :=
  match parts with
  | [] => []
  | s :: rest =>
      let s := strings_TrimSpace s in
      if String.eqb s "" then parseProjectIDs rest
      else match GoStr.Atoi s with
           | None => parseProjectIDs rest
           | Some id => id :: parseProjectIDs rest
           end
  end.

(** [Init], from the process environment as it is once the [.env] files
    have been merged into it.  The data directory is set later, by
    [InitDataDir]. *)
Definition Init `{GoLib} (getenv : string -> string) : Result Config :=
  let token := getenv "LITETRACKER_TOKEN" in
  if String.eqb token "" || String.eqb token "your_api_token_here" then
    Err "LITETRACKER_TOKEN is required. Set it via environment variable or .env file"
  else
    Ok {| Token := token;
          BaseURL := envOrDefault getenv "LITETRACKER_BASE_URL" "https://app.litetracker.com/services/v5";
          WebURL := envOrDefault getenv "LITETRACKER_WEB_URL" "https://app.litetracker.com";
          Username := getenv "LITETRACKER_USERNAME";
          Email := getenv "LITETRACKER_EMAIL";
          Password := getenv "LITETRACKER_PASSWORD";
          ProjectIDs := parseProjectIDs (splitComma "" (getenv "LITETRACKER_PROJECT_IDS"));
          UserID := envInt getenv "LITETRACKER_USER_ID";
          PollIntervalMs := envIntOrDefault getenv "POLL_INTERVAL_MS" 300000;
          DataDir := "";
          ProjectDir := "" |}.

(** [filepath.Join(dir, name)] for a directory path that is already clean
    and a single file name. *)
Definition Join (dir name : string) : string :=
  if String.eqb dir "" then name else dir +:+ "/" +:+ name.

End config.

(** ** internal/api: the data types *)

Module api.
Section Types.
Context `{L : GoLib}.

Record Label := {
  Label_ID : Z;
  Label_Name : string;
  Label_Kind : string;
}.

Record Person := {
  Person_ID : Z;
  Person_Name : string;
  Person_Initials : string;
  Person_Kind : string;
}.

Record StoryOwner := {
  StoryOwner_ID : Z;
  StoryOwner_UserID : Z;
  StoryOwner_Name : string;
  StoryOwner_Initials : string;
}.

Record Story := {
  Story_ID : Z;
  Story_Title : string;
  Story_Description : string;
  Story_StoryType : string;
  Story_CurrentState : string;
  Story_Estimate : option Z;
  Story_StoryPriority : string;
  Story_Labels : list Label;
  Story_OwnerIDs : list Z;
  Story_Owners : list StoryOwner;
  Story_RequestedByID : option Z;
  Story_CreatedAt : string;
  Story_UpdatedAt : string;
  Story_URL : string;
  Story_ProjectID : option Z;
}.

Record Comment := {
  Comment_ID : Z;
  Comment_Text : string;
  Comment_PersonID : Z;
  Comment_Person : option Person;
  Comment_CreatedAt : string;
  Comment_UpdatedAt : string;
}.

(** [NewValues] is [None] for a nil map. *)
Record ActivityChange := {
  Change_Kind : string;
  Change_ID : Z;
  Change_ChangeType : string;
  Change_NewValues : option NewValues;
}.

Record ActivityResource := {
  Resource_Kind : string;
  Resource_ID : Z;
  Resource_Name : string;
  Resource_StoryType : string;
  Resource_URL : string;
}.

Record Activity := {
  Activity_Kind : string;
  Activity_GUID : string;
  Activity_Message : string;
  Activity_PerformedBy : Person;
  Activity_OccurredAt : string;
  Activity_Changes : list ActivityChange;
  Activity_PrimaryResources : list ActivityResource;
}.

End Types.
End api.

(** ** The world outside the process

  The read client of [internal/api] ([GetProjectActivity], [ListStories],
  [GetStory], [GetStoryComments]) is a thin layer over HTTP: what it
  returns is decided by the remote service.  Each call is an oracle that
  answers and moves the world on; [webclient_Do] is [wc.client.Do] of the
  session client, cookie jar included. *)

Module remote.
Section Remote.
Context `{L : GoLib}.

Record ListStoriesOpts := {
  Opts_Filter : string;
  Opts_Query : Z;
  Opts_Owners : Z;
  Opts_SectionType : string;
  Opts_OwnedBy : Z;
  Opts_State : string;
  Opts_Limit : Z;
}.

(** The body of a request of the session client, before it is encoded. *)
Inductive Body :=
| NoBody
| LoginForm (authenticity_token login password remember_me : string)
| CommentForm (content user_id commentable_type commentable_id : string)
| LabelJSON (name : string) (project_id : Z)
| OwnerIdsJSON (owner_ids : list Z).

Record Request := {
  Req_Method : string;
  Req_URL : string;
  Req_Body : Body;
}.

Record Response := {
  Resp_StatusCode : Z;
  Resp_Body : string;
}.

Class Remote := {
  World : Type;
  (** [time.Now().UTC().Format(time.RFC3339)] *)
  time_Now : World -> string * World;
  GetProjectActivity : Z -> string -> World -> Result (list api.Activity) * World;
  ListStories : Z -> ListStoriesOpts -> World -> Result (list api.Story) * World;
  GetStory : Z -> Z -> World -> Result api.Story * World;
  GetStoryComments : Z -> Z -> World -> Result (list api.Comment) * World;
  webclient_Do : Request -> World -> Result Response * World;
(** [json.Unmarshal] at the three response shapes of the session client:
  the [id], [content], [created-at] and [user-id] of a comment, the [id]
  and [name] of a label, and the [owners] of a story (left as decoded
  when the body is malformed: that error is discarded). *)
json_Unmarshal_comment : string -> option (string * string * string * Z);
json_Unmarshal_label : string -> option (string * string);
json_Unmarshal_owners : string -> list api.StoryOwner;
}.

End Remote.
End remote.

(** ** The file system *)

Module os.

(** Paths to contents. *)
Abbreviation FS := (gmap string string).

(** How far a write gets: it completes, or it fails before the file is
    opened, or it fails once the file has been truncated and [k] bytes
    written. *)
Inductive WriteOutcome :=
| WriteDone
| WriteNotOpened
| WriteCut (k : nat).

(** [os.WriteFile(path, data, perm)] *)
Definition WriteFile (o : WriteOutcome) (path data : string) (fs : FS) : option string * FS :=
  match o with
  | WriteDone => (None, <[path := data]> fs)
  | WriteNotOpened => (Some ("open " +:+ path), fs)
  | WriteCut k => (Some ("write " +:+ path), <[path := String.substring 0 k data]> fs)
  end.

(** [os.ReadFile(path)]; [fault] is a failure of the read itself. *)
Definition ReadFile (fault : bool) (path : string) (fs : FS) : Result string :=
  if fault then Err ("read " +:+ path)
  else match fs !! path with
       | Some data => Ok data
       | None => Err ("open " +:+ path +:+ ": no such file or directory")
       end.

(** [os.Remove(path)]; every caller discards its error. *)
Definition Remove (done : bool) (path : string) (fs : FS) : FS :=
  if done then delete path fs else fs.

(** [os.Rename(old, new)]: all or nothing. *)
Definition Rename (fault : bool) (old new : string) (fs : FS) : option string * FS :=
  if fault then (Some ("rename " +:+ old +:+ " " +:+ new), fs)
  else match fs !! old with
       | Some data => (None, <[new := data]> (delete old fs))
       | None => (Some ("rename " +:+ old +:+ " " +:+ new +:+ ": no such file or directory"), fs)
       end.

End os.

(** ** main.go: the poll loop *)

Module main.
Section Poll.
Context `{L : GoLib} `{R : !remote.Remote}.
Import remote.

Record pollState := { LastPoll : string }.

Definition pollStatePath (cfg : config.Config) : string :=
  config.Join (config.DataDir cfg) "poll-state.json".

(** [loadPollState]: the clock is read only when the file cannot be read or
    decoded. *)
Definition loadPollState (cfg : config.Config) (fault : bool) (fs : os.FS) (w : World)
  : pollState * World :=
  match os.ReadFile fault (pollStatePath cfg) fs with
  | Err _ => let '(now, w') := time_Now w in ({| LastPoll := now |}, w')
  | Ok data =>
      match json_Unmarshal_lastPoll data with
      | None => let '(now, w') := time_Now w in ({| LastPoll := now |}, w')
      | Some lp => ({| LastPoll := lp |}, w)
      end
  end.

(** [savePollState]; [o] is how the write of the state file goes.  The error
    of the write is discarded, so only the file system is returned. *)
Definition savePollState (cfg : config.Config) (o : os.WriteOutcome) (s : pollState) (fs : os.FS)
  : os.FS :=
  let data := json_MarshalIndent_lastPoll (LastPoll s) in
  snd (os.WriteFile o (pollStatePath cfg) data fs).

(** The inner loop of [containsIgnoreCase] at offset [i], from [j], with
    [n] bytes of [substr] left to compare. *)
Fixpoint matchFrom (s substr : string) (i j n : nat) : bool :=
  match n with
  | O => true
  | S n' =>
      let a := GoStr.foldByte (GoStr.byteAt s (i + j)) in
      let b := GoStr.foldByte (GoStr.byteAt substr j) in
      if Ascii.eqb a b then matchFrom s substr i (S j) n' else false
  end.

(** The outer loop, from offset [i], with [n] offsets left to try. *)
Fixpoint scanFrom (s substr : string) (i n : nat) : bool :=
  match n with
  | O => false
  | S n' =>
      if matchFrom s substr i 0 (String.length substr) then true
      else scanFrom s substr (S i) n'
  end.

Definition containsIgnoreCase (s substr : string) : bool :=
  let sl := String.length substr in
  if (sl =? 0)%nat then true
  else if (String.length s <? sl)%nat then false
  else scanFrom s substr 0 (String.length s - sl + 1).

(** What the process does that can be seen from outside. *)
Inductive Event :=
| FetchActivity (projectID : Z) (occurredAfter : string)
| Notify (title message : string).

(** The first half of the loop body: the two text searches. *)
Definition mentionsMe (cfg : config.Config) (activity : api.Activity) : bool :=
  let mentionsMe :=
    if String.eqb (api.Activity_Message activity) "" then false
    else containsIgnoreCase (api.Activity_Message activity) (config.Username cfg) in
  if negb mentionsMe then
    existsb (fun c =>
               match api.Change_NewValues c with
               | Some v => containsIgnoreCase (json_Marshal v) (config.Username cfg)
               | None => false
               end)
            (api.Activity_Changes activity)
  else true.

Definition isCommentOnMyStory (activity : api.Activity) : bool :=
  String.eqb (api.Activity_Kind activity) "comment_create_activity".

Definition notification (activity : api.Activity) : Event :=
  let title :=
    match api.Activity_PrimaryResources activity with
    | r :: _ => "[" +:+ api.Resource_Name r +:+ "]"
    | [] => "LiteTracker"
    end in
  let performer :=
    if String.eqb (api.Person_Name (api.Activity_PerformedBy activity)) "" then "Someone"
    else api.Person_Name (api.Activity_PerformedBy activity) in
  Notify title (performer +:+ ": " +:+ api.Activity_Message activity).

(** The body of the loop over the activities of one project. *)
Definition pollActivity (cfg : config.Config) (activity : api.Activity) : list Event :=
  if mentionsMe cfg activity || isCommentOnMyStory activity
  then [notification activity]
  else [].

(** The loop over [config.C.ProjectIDs]. *)
Fixpoint pollProjects (cfg : config.Config) (since : string) (pids : list Z) (w : World)
  : list Event * World :=
  match pids with
  | [] => ([], w)
  | pid :: rest =>
      let '(r, w1) := GetProjectActivity pid since w in
      let evs :=
        match r with
        | Err _ => []
        | Ok activities => flat_map (pollActivity cfg) activities
        end in
      let '(evs', w2) := pollProjects cfg since rest w1 in
      (FetchActivity pid since :: evs ++ evs', w2)
  end.

(** What one call of [poll] leaves: the state it wrote through its pointer,
    the file system, the events in order, and the world. *)
Record Cycle := {
  after : pollState;
  disk : os.FS;
  events : list Event;
  world : World;
}.

(** [poll(&state)], with [o] the outcome of the write of the state file. *)
Definition poll (cfg : config.Config) (o : os.WriteOutcome)
           (state : pollState) (fs : os.FS) (w : World) : Cycle :=
  let since := LastPoll state in
  let '(now, w0) := time_Now w in
  let '(evs, w1) := pollProjects cfg since (config.ProjectIDs cfg) w0 in
  let state' := {| LastPoll := now |} in
  {| after := state';
     disk := savePollState cfg o state' fs;
     events := evs;
     world := w1 |}.

End Poll.
End main.

(** ** internal/db: the local store *)

Module db.
Section Store.
Context `{L : GoLib}.

(** *** ParseApiDate

    The pattern
    [^(\d{1,2})\s+(\w{3})\s+(\d{4}),\s+(\d{1,2}):(\d{2})(AM|PM)$]
    is matched piece by piece, left to right.  Every piece is followed by one
    that starts in a disjoint character class, so the greedy choice is the
    only one and no backtracking is needed. *)

(** The longest prefix of [s] of at most [n] bytes that all satisfy [p], and
    what follows it. *)
Fixpoint spanUpTo (p : ascii -> bool) (n : nat) (s : string) : string * string :=
  match n, s with
  | S n', String a s' =>
      if p a then let '(x, r) := spanUpTo p n' s' in (String a x, r)
      else (EmptyString, s)
  | _, _ => (EmptyString, s)
  end.

(** [\d{1,2}] *)
Definition reDigits12 (s : string) : option (string * string) :=
  let '(x, r) := spanUpTo GoStr.isDigit 2 s in
  if (String.length x =? 0)%nat then None else Some (x, r).

(** [p{n}]: exactly [n] bytes satisfying [p] *)
Definition reExactly (p : ascii -> bool) (n : nat) (s : string) : option (string * string) :=
  let '(x, r) := spanUpTo p n s in
  if (String.length x =? n)%nat then Some (x, r) else None.

(** [\s+] *)
Definition reSpaces (s : string) : option string :=
  let '(x, r) := spanUpTo GoStr.isSpace (String.length s) s in
  if (String.length x =? 0)%nat then None else Some r.

(** a literal *)
Definition reLit (lit : string) (s : string) : option string :=
  if GoStr.HasPrefix s lit
  then Some (String.substring (String.length lit) (String.length s - String.length lit) s)
  else None.

(** [re.FindStringSubmatch(dateStr)]: the six groups. *)
Definition dateSubmatch (dateStr : string)
  : option (string * string * string * string * string * string) :=
  match reDigits12 dateStr with None => None | Some (day, r) =>
  match reSpaces r with None => None | Some r =>
  match reExactly GoStr.isWord 3 r with None => None | Some (mon, r) =>
  match reSpaces r with None => None | Some r =>
  match reExactly GoStr.isDigit 4 r with None => None | Some (year, r) =>
  match reLit "," r with None => None | Some r =>
  match reSpaces r with None => None | Some r =>
  match reDigits12 r with None => None | Some (hourStr, r) =>
  match reLit ":" r with None => None | Some r =>
  match reExactly GoStr.isDigit 2 r with None => None | Some (min, r) =>
  if String.eqb r "AM" then Some (day, mon, year, hourStr, min, "AM")
  else if String.eqb r "PM" then Some (day, mon, year, hourStr, min, "PM")
  else None
  end end end end end end end end end end.

Definition months : list (string * string) :=
  [("Jan", "01"); ("Feb", "02"); ("Mar", "03"); ("Apr", "04"); ("May", "05"); ("Jun", "06");
   ("Jul", "07"); ("Aug", "08"); ("Sep", "09"); ("Oct", "10"); ("Nov", "11"); ("Dec", "12")].

(** [months[mon]] *)
Fixpoint lookupMonth (tbl : list (string * string)) (mon : string) : option string :=
  match tbl with
  | [] => None
  | (k, v) :: rest => if String.eqb k mon then Some v else lookupMonth rest mon
  end.

(** The two adjustments of the hour. *)
Definition hour24 (ampm : string) (hour : Z) : Z :=
  let hour := if String.eqb ampm "PM" && negb (hour =? 12) then hour + 12 else hour in
  if String.eqb ampm "AM" && (hour =? 12) then 0 else hour.

(** [strings.ToUpper] on ASCII text; the group it is applied to is [AM] or
    [PM]. *)
Fixpoint upperASCII (s : string) : string :=
  match s with
  | EmptyString => EmptyString
  | String a s' =>
      String (if GoStr.isLower a then ascii_of_N (N_of_ascii a - 32) else a) (upperASCII s')
  end.

(** [fmt.Sprintf("%s-%s-%02s T%02d:%s:00.000Z", year, monthNum, day, hour, min)] *)
Definition sprintfDate (year monthNum day : string) (hour : Z) (min : string) : string :=
  year +:+ "-" +:+ monthNum +:+ "-" +:+ GoStr.padZero 2 day +:+ " T"
       +:+ GoStr.padZero 2 (GoStr.Itoa hour) +:+ ":" +:+ min +:+ ":00.000Z".

Definition ParseApiDate (dateStr : string) : option string :=
  if String.eqb dateStr "" then None
  else
    match dateSubmatch dateStr with
    | None => None
    | Some (day, mon, year, hourStr, min, m6) =>
        let ampm := upperASCII m6 in
        match lookupMonth months mon with
        | None => None
        | Some monthNum =>
            let hour := match GoStr.Atoi hourStr with Some h => h | None => 0 end in
            let hour := hour24 ampm hour in
            let result := sprintfDate year monthNum day hour min in
            Some (GoStr.ReplaceAll result " T" "T")
        end
    end.

(** *** The tables *)

Record stories := {
  stories_id : Z;
  stories_project_id : Z;
  stories_title : string;
  stories_description : option string;
  stories_story_type : option string;
  stories_current_state : option string;
  stories_estimate : option Z;
  stories_priority : option string;
  stories_url : option string;
  stories_requested_by_id : option Z;
  stories_owner_names : option string;
  stories_label_names : option string;
  stories_is_mine : bool;
  stories_mentions_me : bool;
  stories_created_at : option Timestamp;
  stories_updated_at : option Timestamp;
  stories_synced_at : Timestamp;
}.

Record comments := {
  comments_id : Z;
  comments_story_id : Z;
  comments_project_id : Z;
  comments_text : option string;
  comments_person_id : option Z;
  comments_person_name : option string;
  comments_mentions_me : bool;
  comments_created_at : option Timestamp;
  comments_synced_at : Timestamp;
}.

Record StoryRow := {
  StoryRow_ID : Z;
  StoryRow_ProjectID : Z;
  StoryRow_Title : string;
  StoryRow_Description : option string;
  StoryRow_StoryType : option string;
  StoryRow_CurrentState : option string;
  StoryRow_Estimate : option Z;
  StoryRow_Priority : option string;
  StoryRow_URL : option string;
  StoryRow_RequestedByID : option Z;
  StoryRow_OwnerNames : option string;
  StoryRow_LabelNames : option string;
  StoryRow_IsMine : bool;
  StoryRow_MentionsMe : bool;
  StoryRow_CreatedAt : string;
  StoryRow_UpdatedAt : string;
}.

Record CommentRow := {
  CommentRow_ID : Z;
  CommentRow_StoryID : Z;
  CommentRow_ProjectID : Z;
  CommentRow_Text : option string;
  CommentRow_PersonID : option Z;
  CommentRow_PersonName : option string;
  CommentRow_MentionsMe : bool;
  CommentRow_CreatedAt : string;
}.

(** [TRY_CAST(? AS TIMESTAMP)] at [ptrOrNil(ParseApiDate(...))]: a nil
    pointer is bound as NULL and NULL casts to NULL. *)
Definition castApiDate (dateStr : string) : option Timestamp :=
  match ParseApiDate dateStr with
  | None => None
  | Some iso => TRY_CAST iso
  end.

(** An [INTEGER] column holds 32 bits, a Go [int] 64: a parameter outside
    the range of the column makes the statement fail. *)
Definition isInt32 (n : Z) : bool := (-2147483648 <=? n) && (n <=? 2147483647).

Definition conversionError (n : Z) : string :=
  "Conversion Error: Type INT64 with value " +:+ GoStr.Itoa n
    +:+ " can't be cast because the value is out of range for the destination type INT32".

(** The first of the parameters bound to [INTEGER] columns that does not
    fit; a nil pointer is bound as NULL. *)
Fixpoint firstOverflow (params : list (option Z)) : option Z :=
  match params with
  | [] => None
  | None :: rest => firstOverflow rest
  | Some n :: rest => if isInt32 n then firstOverflow rest else Some n
  end.

(** The row of the [VALUES] clause, which [excluded] names in the conflict
    clause.  The statement fails when a parameter does not fit its
    [INTEGER] column, and, [synced_at] being declared [NOT NULL], when the
    clock text does not cast. *)
Definition excludedStory (now : string) (s : StoryRow) : Result stories :=
  match firstOverflow [Some (StoryRow_ID s); Some (StoryRow_ProjectID s);
                       StoryRow_Estimate s; StoryRow_RequestedByID s] with
  | Some n => Err (conversionError n)
  | None =>
  match TRY_CAST now with
  | None => Err "Constraint Error: NOT NULL constraint failed: stories.synced_at"
  | Some synced =>
      Ok {| stories_id := StoryRow_ID s;
            stories_project_id := StoryRow_ProjectID s;
            stories_title := StoryRow_Title s;
            stories_description := StoryRow_Description s;
            stories_story_type := StoryRow_StoryType s;
            stories_current_state := StoryRow_CurrentState s;
            stories_estimate := StoryRow_Estimate s;
            stories_priority := StoryRow_Priority s;
            stories_url := StoryRow_URL s;
            stories_requested_by_id := StoryRow_RequestedByID s;
            stories_owner_names := StoryRow_OwnerNames s;
            stories_label_names := StoryRow_LabelNames s;
            stories_is_mine := StoryRow_IsMine s;
            stories_mentions_me := StoryRow_MentionsMe s;
            stories_created_at := castApiDate (StoryRow_CreatedAt s);
            stories_updated_at := castApiDate (StoryRow_UpdatedAt s);
            stories_synced_at := synced |}
  end
  end.

(** [ON CONFLICT(id) DO UPDATE SET ...] of [UpsertStory]: the columns the
    clause lists are assigned, the others keep the value of the stored
    row. *)
Definition storyConflict (old excluded : stories) : stories :=
  {| stories_id := stories_id old;
     stories_project_id := stories_project_id old;
     stories_title := stories_title excluded;
     stories_description := stories_description excluded;
     stories_story_type := stories_story_type excluded;
     stories_current_state := stories_current_state excluded;
     stories_estimate := stories_estimate excluded;
     stories_priority := stories_priority excluded;
     stories_url := stories_url excluded;
     stories_requested_by_id := stories_requested_by_id excluded;
     stories_owner_names := stories_owner_names excluded;
     stories_label_names := stories_label_names excluded;
     stories_is_mine := stories_is_mine excluded;
     stories_mentions_me :=
       if stories_mentions_me excluded then true else stories_mentions_me old;
     stories_created_at := stories_created_at excluded;
     stories_updated_at := stories_updated_at excluded;
     stories_synced_at := stories_synced_at excluded |}.

(** [INSERT ... ON CONFLICT(id) DO UPDATE] on a table kept as the list of its
    rows. *)
Definition upsert {R : Type} (key : R -> Z) (conflict : R -> R -> R) (excluded : R)
           (tbl : list R) : list R :=
  if existsb (fun r => key r =? key excluded) tbl
  then map (fun r => if key r =? key excluded then conflict r excluded else r) tbl
  else tbl ++ [excluded].

(** [UpsertStory], with the clock text its first line reads. *)
Definition UpsertStory (now : string) (s : StoryRow) (tbl : list stories)
  : option string * list stories :=
  match excludedStory now s with
  | Err e => (Some e, tbl)
  | Ok excluded => (None, upsert stories_id storyConflict excluded tbl)
  end.

Definition excludedComment (now : string) (c : CommentRow) : Result comments :=
  match firstOverflow [Some (CommentRow_ID c); Some (CommentRow_StoryID c);
                       Some (CommentRow_ProjectID c); CommentRow_PersonID c] with
  | Some n => Err (conversionError n)
  | None =>
  match TRY_CAST now with
  | None => Err "Constraint Error: NOT NULL constraint failed: comments.synced_at"
  | Some synced =>
      Ok {| comments_id := CommentRow_ID c;
            comments_story_id := CommentRow_StoryID c;
            comments_project_id := CommentRow_ProjectID c;
            comments_text := CommentRow_Text c;
            comments_person_id := CommentRow_PersonID c;
            comments_person_name := CommentRow_PersonName c;
            comments_mentions_me := CommentRow_MentionsMe c;
            comments_created_at := castApiDate (CommentRow_CreatedAt c);
            comments_synced_at := synced |}
  end
  end.

(** The conflict clause of [UpsertComment]. *)
Definition commentConflict (old excluded : comments) : comments :=
  {| comments_id := comments_id old;
     comments_story_id := comments_story_id old;
     comments_project_id := comments_project_id old;
     comments_text := comments_text excluded;
     comments_person_id := comments_person_id excluded;
     comments_person_name := comments_person_name excluded;
     comments_mentions_me :=
       if comments_mentions_me excluded then true else comments_mentions_me old;
     comments_created_at := comments_created_at old;
     comments_synced_at := comments_synced_at excluded |}.

Definition UpsertComment (now : string) (c : CommentRow) (tbl : list comments)
  : option string * list comments :=
  match excludedComment now c with
  | Err e => (Some e, tbl)
  | Ok excluded => (None, upsert comments_id commentConflict excluded tbl)
  end.

(** [UPDATE stories SET mentions_me = true WHERE id = ?] *)
Definition MarkStoryMentionsMe (storyID : Z) (tbl : list stories)
  : option string * list stories :=
  (None,
   map (fun r =>
          if stories_id r =? storyID then
            {| stories_id := stories_id r;
               stories_project_id := stories_project_id r;
               stories_title := stories_title r;
               stories_description := stories_description r;
               stories_story_type := stories_story_type r;
               stories_current_state := stories_current_state r;
               stories_estimate := stories_estimate r;
               stories_priority := stories_priority r;
               stories_url := stories_url r;
               stories_requested_by_id := stories_requested_by_id r;
               stories_owner_names := stories_owner_names r;
               stories_label_names := stories_label_names r;
               stories_is_mine := stories_is_mine r;
               stories_mentions_me := true;
               stories_created_at := stories_created_at r;
               stories_updated_at := stories_updated_at r;
               stories_synced_at := stories_synced_at r |}
          else r) tbl).

End Store.
End db.

(** *** CreateSnapshot *)

Module snapshot.

Definition dbPath (cfg : config.Config) : string :=
  config.Join (config.DataDir cfg) "litetracker.duckdb".

Definition snapPath (cfg : config.Config) : string :=
  config.Join (config.DataDir cfg) "litetracker-snapshot.duckdb".

Definition tmpPath (cfg : config.Config) : string := snapPath cfg +:+ ".tmp".

(** What the file system and the database engine do during one call: whether
    each [os.Remove] removes, the error of [CHECKPOINT] (if any) and the
    contents of the database file after it, and how the read, the write and
    the rename go. *)
Record Run := {
  stale_removed : bool;
  checkpoint_error : option string;
  checkpointed : string;
  read_fault : bool;
  write : os.WriteOutcome;
  rename_fault : bool;
  cleanup_removed : bool;
}.

(** [conn.Exec("CHECKPOINT")] *)
Definition Checkpoint (cfg : config.Config) (run : Run) (fs : os.FS) : option string * os.FS :=
  (checkpoint_error run, <[dbPath cfg := checkpointed run]> fs).

Definition CreateSnapshot (cfg : config.Config) (run : Run) (fs : os.FS) : option string * os.FS :=
  let fs := os.Remove (stale_removed run) (tmpPath cfg) fs in
  match Checkpoint cfg run fs with
  | (Some e, fs) => (Some ("checkpoint: " +:+ e), fs)
  | (None, fs) =>
      match os.ReadFile (read_fault run) (dbPath cfg) fs with
      | Err e => (Some ("read db: " +:+ e), fs)
      | Ok data =>
          match os.WriteFile (write run) (tmpPath cfg) data fs with
          | (Some e, fs) =>
              (Some ("write tmp: " +:+ e), os.Remove (cleanup_removed run) (tmpPath cfg) fs)
          | (None, fs) =>
              match os.Rename (rename_fault run) (tmpPath cfg) (snapPath cfg) fs with
              | (Some e, fs) =>
                  (Some ("rename: " +:+ e), os.Remove (cleanup_removed run) (tmpPath cfg) fs)
              | (None, fs) => (None, fs)
              end
          end
      end
  end.

(** The states of the file a write goes through: truncated, then longer and
    longer prefixes of the data. *)
Definition writeProgress (o : os.WriteOutcome) (path data : string) (fs : os.FS) : list os.FS :=
  match o with
  | os.WriteNotOpened => []
  | os.WriteDone =>
      map (fun k => <[path := String.substring 0 k data]> fs) (seq 0 (S (String.length data)))
  | os.WriteCut k =>
      map (fun k' => <[path := String.substring 0 k' data]> fs) (seq 0 (S k))
  end.

(** Every state of the file system during a call of [CreateSnapshot], in
    order.  A call that is interrupted leaves the file system in one of
    them. *)
Definition states (cfg : config.Config) (run : Run) (fs : os.FS) : list os.FS :=
  let fs1 := os.Remove (stale_removed run) (tmpPath cfg) fs in
  let fs2 := snd (Checkpoint cfg run fs1) in
  ([fs; fs1; fs2] ++
  match checkpoint_error run with
  | Some _ => []
  | None =>
      match os.ReadFile (read_fault run) (dbPath cfg) fs2 with
      | Err _ => []
      | Ok data =>
          writeProgress (write run) (tmpPath cfg) data fs2 ++
          match os.WriteFile (write run) (tmpPath cfg) data fs2 with
          | (Some _, fs3) => [os.Remove (cleanup_removed run) (tmpPath cfg) fs3]
          | (None, fs3) =>
              match os.Rename (rename_fault run) (tmpPath cfg) (snapPath cfg) fs3 with
              | (Some _, fs4) => [os.Remove (cleanup_removed run) (tmpPath cfg) fs4]
              | (None, fs4) => [fs4]
              end
          end
      end
  end)%list.

End snapshot.

(** ** internal/sync *)

Module sync.
Section Sync.
Context `{L : GoLib} `{R : !remote.Remote}.
Import remote.

Definition fetchAllStories (projectID : Z) (state : string) (w : World)
  : list api.Story * World :=
  let opts := {| Opts_Filter := ""; Opts_Query := 0; Opts_Owners := 0; Opts_SectionType := "";
                 Opts_OwnedBy := 0; Opts_State := state; Opts_Limit := 200 |} in
  match ListStories projectID opts w with
  | (Err _, w') => ([], w')
  | (Ok stories, w') => (stories, w')
  end.

Definition isMyStory (cfg : config.Config) (story : api.Story) : bool :=
  existsb (fun o => api.StoryOwner_UserID o =? config.UserID cfg) (api.Story_Owners story).

Definition mentionsUser (cfg : config.Config) (text : string) : bool :=
  if String.eqb text "" then false
  else
    let lower := strings_ToLower text in
    let username := strings_ToLower (config.Username cfg) in
    GoStr.Contains lower username || GoStr.Contains lower ("@" +:+ username).

Record syncStats := {
  Stories : Z;
  Mine : Z;
  Comments : Z;
}.

(** The two tables of the store. *)
Record Store := {
  Store_stories : list db.stories;
  Store_comments : list db.comments;
}.

Definition states : list string :=
  ["started"; "unstarted"; "delivered"; "accepted"; "rejected"].

(** The first loop: one fetch per state, appended in order. *)
Fixpoint fetchStates (projectID : Z) (sts : list string) (w : World) : list api.Story * World :=
  match sts with
  | [] => ([], w)
  | state :: rest =>
      let '(fetched, w1) := fetchAllStories projectID state w in
      let '(more, w2) := fetchStates projectID rest w1 in
      ((fetched ++ more)%list, w2)
  end.

(** The second loop: [myStoryIDs]. *)
Definition collectMine (cfg : config.Config) (allStories : list api.Story) : gmap Z bool :=
  fold_left (fun m s => if isMyStory cfg s then <[api.Story_ID s := true]> m else m)
            allStories ∅.

(** [myStoryIDs[id]]: the zero value for a missing key. *)
Definition lookupMine (myStoryIDs : gmap Z bool) (id : Z) : bool :=
  match myStoryIDs !! id with
  | Some b => b
  | None => false
  end.

Definition optString (s : string) : option string :=
  if String.eqb s "" then None else Some s.

Definition joined (names : list string) : option string :=
  match names with
  | [] => None
  | _ => Some (GoStr.Join names ", ")
  end.

Definition storyRow (projectID : Z) (isMine : bool) (s : api.Story) : db.StoryRow :=
  {| db.StoryRow_ID := api.Story_ID s;
     db.StoryRow_ProjectID := projectID;
     db.StoryRow_Title := api.Story_Title s;
     db.StoryRow_Description := optString (api.Story_Description s);
     db.StoryRow_StoryType := optString (api.Story_StoryType s);
     db.StoryRow_CurrentState := optString (api.Story_CurrentState s);
     db.StoryRow_Estimate := api.Story_Estimate s;
     db.StoryRow_Priority := optString (api.Story_StoryPriority s);
     db.StoryRow_URL := optString (api.Story_URL s);
     db.StoryRow_RequestedByID := api.Story_RequestedByID s;
     db.StoryRow_OwnerNames := joined (map api.StoryOwner_Name (api.Story_Owners s));
     db.StoryRow_LabelNames := joined (map api.Label_Name (api.Story_Labels s));
     db.StoryRow_IsMine := isMine;
     db.StoryRow_MentionsMe := false;
     db.StoryRow_CreatedAt := api.Story_CreatedAt s;
     db.StoryRow_UpdatedAt := api.Story_UpdatedAt s |}.

(** The third loop: upsert every story; [n] counts the upserts that went
    through. *)
Fixpoint upsertStories (projectID : Z) (myStoryIDs : gmap Z bool) (allStories : list api.Story)
         (n : Z) (tbl : list db.stories) (w : World) : Z * list db.stories * World :=
  match allStories with
  | [] => (n, tbl, w)
  | s :: rest =>
      let row := storyRow projectID (lookupMine myStoryIDs (api.Story_ID s)) s in
      let '(now, w1) := time_Now w in
      match db.UpsertStory now row tbl with
      | (Some _, tbl1) => upsertStories projectID myStoryIDs rest n tbl1 w1
      | (None, tbl1) => upsertStories projectID myStoryIDs rest (n + 1) tbl1 w1
      end
  end.

Definition commentRow (cfg : config.Config) (projectID storyID : Z) (c : api.Comment)
  : db.CommentRow :=
  {| db.CommentRow_ID := api.Comment_ID c;
     db.CommentRow_StoryID := storyID;
     db.CommentRow_ProjectID := projectID;
     db.CommentRow_Text := optString (api.Comment_Text c);
     db.CommentRow_PersonID :=
       if api.Comment_PersonID c =? 0 then None else Some (api.Comment_PersonID c);
     db.CommentRow_PersonName :=
       match api.Comment_Person c with
       | Some p => optString (api.Person_Name p)
       | None => None
       end;
     db.CommentRow_MentionsMe := mentionsUser cfg (api.Comment_Text c);
     db.CommentRow_CreatedAt := api.Comment_CreatedAt c |}.

(** The inner loop over the comments of one story. *)
Fixpoint syncComments (cfg : config.Config) (projectID storyID : Z) (cs : list api.Comment)
         (n : Z) (st : Store) (w : World) : Z * Store * World :=
  match cs with
  | [] => (n, st, w)
  | c :: rest =>
      let mentions := mentionsUser cfg (api.Comment_Text c) in
      let row := commentRow cfg projectID storyID c in
      let '(now, w1) := time_Now w in
      match db.UpsertComment now row (Store_comments st) with
      | (Some _, tbl) =>
          syncComments cfg projectID storyID rest n
                       {| Store_stories := Store_stories st; Store_comments := tbl |} w1
      | (None, tbl) =>
          let st1 :=
            if mentions
            then {| Store_stories := snd (db.MarkStoryMentionsMe storyID (Store_stories st));
                    Store_comments := tbl |}
            else {| Store_stories := Store_stories st; Store_comments := tbl |} in
          syncComments cfg projectID storyID rest (n + 1) st1 w1
      end
  end.

(** The fourth loop: the comments of every story. *)
Fixpoint syncStoryComments (cfg : config.Config) (projectID : Z) (allStories : list api.Story)
         (n : Z) (st : Store) (w : World) : Z * Store * World :=
  match allStories with
  | [] => (n, st, w)
  | s :: rest =>
      match GetStoryComments projectID (api.Story_ID s) w with
      | (Err _, w1) => syncStoryComments cfg projectID rest n st w1
      | (Ok cs, w1) =>
          let '(n1, st1, w2) := syncComments cfg projectID (api.Story_ID s) cs n st w1 in
          syncStoryComments cfg projectID rest n1 st1 w2
      end
  end.

(** [syncProject(projectID)] on the store [st]. *)
Definition syncProject (cfg : config.Config) (projectID : Z) (st : Store) (w : World)
  : syncStats * Store * World :=
  let '(allStories, w1) := fetchStates projectID states w in
  let myStoryIDs := collectMine cfg allStories in
  let '(nStories, tbl, w2) := upsertStories projectID myStoryIDs allStories 0 (Store_stories st) w1 in
  let st1 := {| Store_stories := tbl; Store_comments := Store_comments st |} in
  let '(nComments, st2, w3) := syncStoryComments cfg projectID allStories 0 st1 w2 in
  ({| Stories := nStories; Mine := Z.of_nat (size myStoryIDs); Comments := nComments |}, st2, w3).

End Sync.
End sync.

(** ** internal/api: the session client *)

Module webclient.
Section Web.
Context `{L : GoLib} `{R : !remote.Remote}.
Import remote.

(** The session state.  [sent] is not a field of the Go struct: it records,
    in order, the requests handed to [wc.client.Do], so that what a call
    sends can be stated. *)
Record WebClient := {
  loggedIn : bool;
  sent : list Request;
}.

Definition setLoggedIn (b : bool) (wc : WebClient) : WebClient :=
  {| loggedIn := b; sent := sent wc |}.

(** [wc.client.Do(req)] *)
Definition Do (req : Request) (wc : WebClient) (w : World)
  : Result Response * WebClient * World :=
  let '(r, w') := webclient_Do req w in
  (r, {| loggedIn := loggedIn wc; sent := (sent wc ++ [req])%list |}, w').

(** [wc.client.Get(url)] *)
Definition Get (url : string) (wc : WebClient) (w : World)
  : Result Response * WebClient * World :=
  match http_NewRequest "GET" url with
  | Some e => (Err e, wc, w)
  | None => Do {| Req_Method := "GET"; Req_URL := url; Req_Body := NoBody |} wc w
  end.

Definition ensureLoggedIn (cfg : config.Config) (wc : WebClient) (w : World)
  : option string * WebClient * World :=
  if loggedIn wc then (None, wc, w)
  else if String.eqb (config.Email cfg) "" || String.eqb (config.Password cfg) "" then
    (Some "LITETRACKER_EMAIL and LITETRACKER_PASSWORD must be set in ~/litetracker-go/.env for posting comments (LiteTracker API does not support comment creation)",
     wc, w)
  else
    let loginURL := config.WebURL cfg +:+ "/login" in
    match Get loginURL wc w with
    | (Err e, wc1, w1) => (Some ("fetch login page: " +:+ e), wc1, w1)
    | (Ok resp, wc1, w1) =>
        match csrf_FindSubmatch (Resp_Body resp) with
        | None => (Some "could not find CSRF token on login page", wc1, w1)
        | Some csrfToken =>
            match http_NewRequest "POST" loginURL with
            | Some e => (Some ("build login request: " +:+ e), wc1, w1)
            | None =>
                let req := {| Req_Method := "POST"; Req_URL := loginURL;
                              Req_Body := LoginForm csrfToken (config.Email cfg)
                                                    (config.Password cfg) "1" |} in
                match Do req wc1 w1 with
                | (Err e, wc2, w2) => (Some ("login request: " +:+ e), wc2, w2)
                | (Ok resp, wc2, w2) =>
                    if (Resp_StatusCode resp =? 422) || (Resp_StatusCode resp =? 401) then
                      (Some ("login failed (status " +:+ GoStr.Itoa (Resp_StatusCode resp)
                               +:+ "): check LITETRACKER_EMAIL and LITETRACKER_PASSWORD in ~/litetracker-go/.env"),
                       wc2, w2)
                    else (None, setLoggedIn true wc2, w2)
                end
            end
        end
    end.

Definition zeroComment : api.Comment :=
  {| api.Comment_ID := 0; api.Comment_Text := ""; api.Comment_PersonID := 0;
     api.Comment_Person := None; api.Comment_CreatedAt := ""; api.Comment_UpdatedAt := "" |}.

Definition atoiOrZero (s : string) : Z :=
  match GoStr.Atoi s with Some n => n | None => 0 end.

Definition postComment (cfg : config.Config) (storyID : Z) (text : string)
           (wc : WebClient) (w : World) : Result api.Comment * WebClient * World :=
  let commentURL := config.WebURL cfg +:+ "/api/v1/stories/" +:+ GoStr.Itoa storyID +:+ "/comments" in
  match http_NewRequest "POST" commentURL with
  | Some e => (Err ("build comment request: " +:+ e), wc, w)
  | None =>
      let req := {| Req_Method := "POST"; Req_URL := commentURL;
                    Req_Body := CommentForm text (GoStr.Itoa (config.UserID cfg)) "Story"
                                            (GoStr.Itoa storyID) |} in
      match Do req wc w with
      | (Err e, wc1, w1) => (Err ("post comment: " +:+ e), wc1, w1)
      | (Ok resp, wc1, w1) =>
          if Resp_StatusCode resp >=? 400 then
            (Err ("post comment failed (status " +:+ GoStr.Itoa (Resp_StatusCode resp) +:+ "): "
                    +:+ Resp_Body resp), wc1, w1)
          else
            match json_Unmarshal_comment (Resp_Body resp) with
            | None =>
                (Ok {| api.Comment_ID := 0; api.Comment_Text := text; api.Comment_PersonID := 0;
                       api.Comment_Person := None; api.Comment_CreatedAt := "";
                       api.Comment_UpdatedAt := "" |}, wc1, w1)
            | Some (id, content, createdAt, userID) =>
                (Ok {| api.Comment_ID := atoiOrZero id; api.Comment_Text := content;
                       api.Comment_PersonID := userID; api.Comment_Person := None;
                       api.Comment_CreatedAt := createdAt; api.Comment_UpdatedAt := "" |},
                 wc1, w1)
            end
      end
  end.

Definition addLabel (cfg : config.Config) (storyID projectID : Z) (name : string)
           (wc : WebClient) (w : World) : Result api.Label * WebClient * World :=
  let labelURL := config.WebURL cfg +:+ "/api/v1/stories/" +:+ GoStr.Itoa storyID +:+ "/labels" in
  match http_NewRequest "POST" labelURL with
  | Some e => (Err ("build label request: " +:+ e), wc, w)
  | None =>
      let req := {| Req_Method := "POST"; Req_URL := labelURL;
                    Req_Body := LabelJSON name projectID |} in
      match Do req wc w with
      | (Err e, wc1, w1) => (Err ("add label: " +:+ e), wc1, w1)
      | (Ok resp, wc1, w1) =>
          if Resp_StatusCode resp >=? 400 then
            (Err ("add label failed (status " +:+ GoStr.Itoa (Resp_StatusCode resp) +:+ "): "
                    +:+ Resp_Body resp), wc1, w1)
          else
            match json_Unmarshal_label (Resp_Body resp) with
            | None =>
                (Ok {| api.Label_ID := 0; api.Label_Name := name; api.Label_Kind := "" |}, wc1, w1)
            | Some (id, labelName) =>
                (Ok {| api.Label_ID := atoiOrZero id; api.Label_Name := labelName;
                       api.Label_Kind := "" |}, wc1, w1)
            end
      end
  end.

(** The loop of [addOwner] over [story.Owners]: [None] when [ownerID] is met,
    the user ids collected otherwise. *)
Fixpoint collectOwnerIDs (owners : list api.StoryOwner) (ownerID : Z) (ids : list Z)
  : option (list Z) :=
  match owners with
  | [] => Some ids
  | o :: rest =>
      if api.StoryOwner_UserID o =? ownerID then None
      else collectOwnerIDs rest ownerID (ids ++ [api.StoryOwner_UserID o])%list
  end.

Definition addOwner (cfg : config.Config) (storyID projectID ownerID : Z)
           (wc : WebClient) (w : World) : Result (list api.StoryOwner) * WebClient * World :=
  match GetStory projectID storyID w with
  | (Err e, w1) => (Err ("fetch story owners: " +:+ e), wc, w1)
  | (Ok story, w1) =>
      match collectOwnerIDs (api.Story_Owners story) ownerID [] with
      | None => (Ok (api.Story_Owners story), wc, w1)
      | Some ids =>
          let ids := (ids ++ [ownerID])%list in
          let storyURL := config.WebURL cfg +:+ "/api/v1/stories/" +:+ GoStr.Itoa storyID in
          match http_NewRequest "PUT" storyURL with
          | Some e => (Err ("build owner request: " +:+ e), wc, w1)
          | None =>
              let req := {| Req_Method := "PUT"; Req_URL := storyURL;
                            Req_Body := OwnerIdsJSON ids |} in
              match Do req wc w1 with
              | (Err e, wc1, w2) => (Err ("add owner: " +:+ e), wc1, w2)
              | (Ok resp, wc1, w2) =>
                  if Resp_StatusCode resp >=? 400 then
                    (Err ("add owner failed (status " +:+ GoStr.Itoa (Resp_StatusCode resp)
                            +:+ "): " +:+ Resp_Body resp), wc1, w2)
                  else (Ok (json_Unmarshal_owners (Resp_Body resp)), wc1, w2)
              end
          end
      end
  end.

(** [strings.Contains(err.Error(), "401") || strings.Contains(err.Error(), "sign in")] *)
Definition sessionExpired (e : string) : bool :=
  GoStr.Contains e "401" || GoStr.Contains e "sign in".

(** The body the three exported write calls share, word for word, around
    the operation they wrap. *)
Definition withSession {A : Type} (cfg : config.Config)
           (op : WebClient -> World -> Result A * WebClient * World)
           (wc : WebClient) (w : World) : Result A * WebClient * World :=
  match ensureLoggedIn cfg wc w with
  | (Some e, wc1, w1) => (Err e, wc1, w1)
  | (None, wc1, w1) =>
      match op wc1 w1 with
      | (Err e, wc2, w2) =>
          if sessionExpired e then
            let wc3 := setLoggedIn false wc2 in
            match ensureLoggedIn cfg wc3 w2 with
            | (Some e', wc4, w3) => (Err e', wc4, w3)
            | (None, wc4, w3) => op wc4 w3
            end
          else (Err e, wc2, w2)
      | (Ok a, wc2, w2) => (Ok a, wc2, w2)
      end
  end.

Definition WebAddLabel (cfg : config.Config) (projectID storyID : Z) (name : string) :=
  withSession cfg (addLabel cfg storyID projectID name).

Definition WebAddOwner (cfg : config.Config) (projectID storyID ownerID : Z) :=
  withSession cfg (addOwner cfg storyID projectID ownerID).

Definition WebPostComment (cfg : config.Config) (projectID storyID : Z) (text : string) :=
  withSession cfg (postComment cfg storyID text).

End Web.
End webclient.


(** *** Vocabulary for the properties of the poll loop *)

Module pollspec.
Section PollSpec.
Context `{L : GoLib} `{R : !remote.Remote}.
Import remote main.

(** [u] occurs in [s] at offset [i], up to the case of ASCII letters. *)
Definition occursAt (s u : string) (i : nat) : Prop :=
  (i + String.length u <= String.length s)%nat /\
  forall k, (k < String.length u)%nat ->
            GoStr.foldByte (GoStr.byteAt s (i + k)) = GoStr.foldByte (GoStr.byteAt u k).

(** [s] contains [u] as a case-insensitive substring. *)
Definition containsFold (s u : string) : Prop := exists i, occursAt s u i.

(** Some change of the activity has new values whose JSON text contains the
    user name. *)
Definition changeMentions (cfg : config.Config) (a : api.Activity) : Prop :=
  exists c v, In c (api.Activity_Changes a) /\ api.Change_NewValues c = Some v /\
              containsFold (json_Marshal v) (config.Username cfg).

(** The relevance predicate in the words of the specification. *)
Definition relevantAsStated (cfg : config.Config) (a : api.Activity) : Prop :=
  containsFold (api.Activity_Message a) (config.Username cfg) \/
  changeMentions cfg a \/
  api.Activity_Kind a = "comment_create_activity".

(** The relevance predicate with the guard of the loop body on the message. *)
Definition relevant (cfg : config.Config) (a : api.Activity) : Prop :=
  (api.Activity_Message a <> "" /\
   containsFold (api.Activity_Message a) (config.Username cfg)) \/
  changeMentions cfg a \/
  api.Activity_Kind a = "comment_create_activity".

(** The activities a cycle processes: those of the projects whose fetch
    succeeds, in order. *)
Fixpoint processed (since : string) (pids : list Z) (w : World) : list api.Activity :=
  match pids with
  | [] => []
  | pid :: rest =>
      let '(r, w1) := GetProjectActivity pid since w in
      (match r with Ok activities => activities | Err _ => [] end ++ processed since rest w1)%list
  end.

(** The notifications among the events of a cycle. *)
Definition notifications (evs : list Event) : list Event :=
  List.filter (fun e => match e with Notify _ _ => true | FetchActivity _ _ => false end) evs.

(** The activity fetches among the events of a cycle: project and cursor. *)
Fixpoint fetches (evs : list Event) : list (Z * string) :=
  match evs with
  | [] => []
  | FetchActivity pid since :: rest => (pid, since) :: fetches rest
  | Notify _ _ :: rest => fetches rest
  end.

End PollSpec.
End pollspec.

(** *** Vocabulary for the properties of the store *)

Module dbspec.
Section DbSpec.
Context `{L : GoLib}.
Import db.

(** A call that changes the [stories] table. *)
Inductive StoryCall :=
| CallUpsertStory (now : string) (s : StoryRow)
| CallMarkStoryMentionsMe (storyID : Z).

Definition call (c : StoryCall) (tbl : list stories) : list stories :=
  match c with
  | CallUpsertStory now s => snd (UpsertStory now s tbl)
  | CallMarkStoryMentionsMe storyID => snd (MarkStoryMentionsMe storyID tbl)
  end.

(** A sequence of calls, first to last. *)
Definition calls (cs : list StoryCall) (tbl : list stories) : list stories :=
  fold_left (fun t c => call c t) cs tbl.

(** [SELECT mentions_me FROM stories WHERE id = ?] *)
Definition storyFlag (id : Z) (tbl : list stories) : option bool :=
  match List.find (fun r => stories_id r =? id) tbl with
  | Some r => Some (stories_mentions_me r)
  | None => None
  end.

Definition commentFlag (id : Z) (tbl : list comments) : option bool :=
  match List.find (fun r => comments_id r =? id) tbl with
  | Some r => Some (comments_mentions_me r)
  | None => None
  end.

(** [SELECT * FROM t WHERE id = ?] *)
Definition rowsWith {R : Type} (key : R -> Z) (id : Z) (tbl : list R) : list R :=
  List.filter (fun r => key r =? id) tbl.

(** The [PRIMARY KEY] constraint. *)
Definition primaryKey {R : Type} (key : R -> Z) (tbl : list R) : Prop :=
  List.NoDup (map key tbl).

(** The values of a 32-bit [INTEGER] column. *)
Definition fitsInt32 (n : Z) : Prop := - 2 ^ 31 <= n < 2 ^ 31.

(** A nil pointer goes to the column as NULL. *)
Definition optFits (o : option Z) : Prop :=
  match o with
  | Some n => fitsInt32 n
  | None => True
  end.

(** The integers of a payload fit the [INTEGER] columns they go to. *)
Definition storyFits (s : StoryRow) : Prop :=
  fitsInt32 (StoryRow_ID s) /\ fitsInt32 (StoryRow_ProjectID s) /\
  optFits (StoryRow_Estimate s) /\ optFits (StoryRow_RequestedByID s).

Definition commentFits (c : CommentRow) : Prop :=
  fitsInt32 (CommentRow_ID c) /\ fitsInt32 (CommentRow_StoryID c) /\
  fitsInt32 (CommentRow_ProjectID c) /\ optFits (CommentRow_PersonID c).

#[global] Instance fitsInt32_dec (n : Z) : Decision (fitsInt32 n).
Proof. unfold fitsInt32. apply _. Defined.

#[global] Instance optFits_dec (o : option Z) : Decision (optFits o).
Proof. destruct o; simpl; apply _. Defined.

#[global] Instance storyFits_dec (s : StoryRow) : Decision (storyFits s).
Proof. unfold storyFits. apply _. Defined.

#[global] Instance commentFits_dec (c : CommentRow) : Decision (commentFits c).
Proof. unfold commentFits. apply _. Defined.

(** The textual format of the dates of the service,
    [DD Mon YYYY, HH:MMAM/PM]: the shape the pattern of [ParseApiDate]
    describes, with its six groups. *)
Definition apiDateFormat (s day mon year hh mm ampm : string) : Prop :=
  exists ws1 ws2 ws3 : string,
    s = day +:+ ws1 +:+ mon +:+ ws2 +:+ year +:+ "," +:+ ws3 +:+ hh +:+ ":" +:+ mm +:+ ampm /\
    GoStr.allb GoStr.isDigit day = true /\ (1 <= String.length day <= 2)%nat /\
    GoStr.allb GoStr.isSpace ws1 = true /\ (1 <= String.length ws1)%nat /\
    GoStr.allb GoStr.isWord mon = true /\ String.length mon = 3%nat /\
    GoStr.allb GoStr.isSpace ws2 = true /\ (1 <= String.length ws2)%nat /\
    GoStr.allb GoStr.isDigit year = true /\ String.length year = 4%nat /\
    GoStr.allb GoStr.isSpace ws3 = true /\ (1 <= String.length ws3)%nat /\
    GoStr.allb GoStr.isDigit hh = true /\ (1 <= String.length hh <= 2)%nat /\
    GoStr.allb GoStr.isDigit mm = true /\ String.length mm = 2%nat /\
    (ampm = "AM" \/ ampm = "PM").










End DbSpec.
End dbspec.

(** *** Vocabulary for the properties of the sync pass *)

Module syncspec.
Section SyncSpec.
Context `{L : GoLib} `{R : !remote.Remote}.
Import remote sync.

(** Every clock text casts to a timestamp, so that no upsert is refused for
    its [synced_at]. *)
Definition clockCasts : Prop :=
  forall w : World, TRY_CAST (fst (time_Now w)) <> None.

(** The clock texts that [n] upserts in a row read. *)
Fixpoint clocks (n : nat) (w : World) : list string :=
  match n with
  | O => []
  | S n' => fst (time_Now w) :: clocks n' (snd (time_Now w))
  end.

(** The integers of a fetched story fit the columns of [stories]. *)
Definition fitting (projectID : Z) (s : api.Story) : bool :=
  bool_decide (dbspec.storyFits (storyRow projectID false s)).

(** The store accepts the write of a fetched story at a clock text. *)
Definition accepted (projectID : Z) (entry : api.Story * string) : bool :=
  fitting projectID (fst entry) && bool_decide (is_Some (TRY_CAST (snd entry))).

(** The remote reports comment [c] on story [storyID] whenever it is asked. *)
Definition commentOn (projectID storyID : Z) (c : api.Comment) : Prop :=
  forall w : World,
    exists cs w', GetStoryComments projectID storyID w = (Ok cs, w') /\ In c cs.

(** The text contains the user name as a case-insensitive substring, bare or
    after an [@]. *)
Definition namesUser (cfg : config.Config) (text : string) : Prop :=
  GoStr.Contains (strings_ToLower text) (strings_ToLower (config.Username cfg)) = true \/
  GoStr.Contains (strings_ToLower text) ("@" +:+ strings_ToLower (config.Username cfg)) = true.

(** From [st] to [st'] no row is lost and no flag that is set is reset. *)
Definition flagsKept (st st' : Store) : Prop :=
  (forall i, dbspec.storyFlag i (Store_stories st) = Some true ->
             dbspec.storyFlag i (Store_stories st') = Some true) /\
  (forall i, dbspec.storyFlag i (Store_stories st) <> None ->
             dbspec.storyFlag i (Store_stories st') <> None) /\
  (forall i, dbspec.commentFlag i (Store_comments st) = Some true ->
             dbspec.commentFlag i (Store_comments st') = Some true).

(** One turn of the comment loop, as a function of the store. *)
Definition commentStep (cfg : config.Config) (projectID storyID : Z) (c : api.Comment)
           (now : string) (st : Store) : Store :=
  match db.UpsertComment now (commentRow cfg projectID storyID c) (Store_comments st) with
  | (Some _, tbl) => {| Store_stories := Store_stories st; Store_comments := tbl |}
  | (None, tbl) =>
      if mentionsUser cfg (api.Comment_Text c)
      then {| Store_stories := snd (db.MarkStoryMentionsMe storyID (Store_stories st)); Store_comments := tbl |}
      else {| Store_stories := Store_stories st; Store_comments := tbl |}
  end.

End SyncSpec.
End syncspec.

(** *** Vocabulary for the properties of the session client *)

Module webspec.
Section WebSpec.
Context `{L : GoLib} `{R : !remote.Remote}.
Import remote webclient.

(** An operation that leaves the [loggedIn] flag as it finds it. *)
Definition keepsSession {A : Type}
           (op : WebClient -> World -> Result A * WebClient * World) : Prop :=
  forall wc w, loggedIn (snd (fst (op wc w))) = loggedIn wc.

(** The owner-replace request of [addOwner]. *)
Definition ownerReplace (cfg : config.Config) (storyID : Z) (ids : list Z) : Request :=
  {| Req_Method := "PUT";
     Req_URL := config.WebURL cfg +:+ "/api/v1/stories/" +:+ GoStr.Itoa storyID;
     Req_Body := OwnerIdsJSON ids |}.

End WebSpec.
End webspec.

(** ** A stand-in for the outside

    To evaluate the engine on concrete inputs the library functions and the
    remote service are given simple stand-ins: ASCII lower-casing, JSON values
    held as their text, timestamps held as the text that was cast, and a
    remote that answers from fixed tables and from a queue of HTTP replies. *)

Module standin.

Definition lowerASCII (s : string) : string :=
  string_of_list_ascii (map GoStr.foldByte (list_ascii_of_string s)).

Fixpoint trimLeft (s : string) : string :=
  match s with
  | String a s' => if GoStr.isSpace a then trimLeft s' else s
  | EmptyString => EmptyString
  end.

Definition reverse (s : string) : string :=
  string_of_list_ascii (rev (list_ascii_of_string s)).

Definition trimSpace (s : string) : string :=
  reverse (trimLeft (reverse (trimLeft s))).

Definition quote : string := String "034"%char "".

Definition lastPollPrefix : string := "{ " +:+ quote +:+ "lastPoll" +:+ quote +:+ ": " +:+ quote.

Definition lastPollSuffix : string := quote +:+ " }".

Definition marshalLastPoll (s : string) : string := lastPollPrefix +:+ s +:+ lastPollSuffix.

Definition unmarshalLastPoll (data : string) : option string :=
  if GoStr.HasPrefix data lastPollPrefix && GoStr.HasPrefix (reverse data) (reverse lastPollSuffix)
  then Some (String.substring (String.length lastPollPrefix)
                              (String.length data - String.length lastPollPrefix
                               - String.length lastPollSuffix) data)
  else None.

(** A text casts when it starts with a digit. *)
Definition tryCast (s : string) : option string :=
  match s with
  | String a _ => if GoStr.isDigit a then Some s else None
  | EmptyString => None
  end.

#[export] Instance lib : GoLib := {|
  strings_ToLower := lowerASCII;
  strings_TrimSpace := trimSpace;
  NewValues := string;
  json_Marshal := fun v => v;
  json_MarshalIndent_lastPoll := marshalLastPoll;
  json_Unmarshal_lastPoll := unmarshalLastPoll;
  Timestamp := string;
  TRY_CAST := tryCast;
  csrf_FindSubmatch := fun page => if GoStr.Contains page "csrf-token" then Some "token" else None;
  http_NewRequest := fun _ _ => None;
|}.

(** What the stand-in remote answers. *)
Record Script := {
  clock : string;
  activity : Z -> Result (list api.Activity);
  storiesIn : string -> Result (list api.Story);
  story : Z -> Result api.Story;
  commentsOf : Z -> Result (list api.Comment);
}.

(** The world of the stand-in is the queue of replies the web server still
    has to give. *)
Definition scripted (sc : Script) : remote.Remote := {|
  remote.World := list (Result remote.Response);
  remote.time_Now := fun w => (clock sc, w);
  remote.GetProjectActivity := fun pid _ w => (activity sc pid, w);
  remote.ListStories := fun _ opts w => (storiesIn sc (remote.Opts_State opts), w);
  remote.GetStory := fun _ storyID w => (story sc storyID, w);
  remote.GetStoryComments := fun _ storyID w => (commentsOf sc storyID, w);
  remote.webclient_Do := fun _ w =>
    match w with
    | r :: rest => (r, rest)
    | [] => (Err "connection refused", [])
    end;
  remote.json_Unmarshal_comment := fun _ => None;
  remote.json_Unmarshal_label := fun _ => None;
  remote.json_Unmarshal_owners := fun _ => [];
|}.

Definition cfg (username : string) : config.Config :=
  {| config.Token := "t"; config.BaseURL := "https://app.litetracker.com/services/v5";
     config.WebURL := "https://app.litetracker.com"; config.Username := username;
     config.Email := "alice@example.com"; config.Password := "secret";
     config.ProjectIDs := [1; 2; 3]; config.UserID := 7; config.PollIntervalMs := 300000;
     config.DataDir := "/data"; config.ProjectDir := "/data" |}.

Definition person (name : string) : api.Person :=
  {| api.Person_ID := 9; api.Person_Name := name; api.Person_Initials := "";
     api.Person_Kind := "person" |}.

Definition anActivity (kind message : string) : api.Activity :=
  {| api.Activity_Kind := kind; api.Activity_GUID := "g"; api.Activity_Message := message;
     api.Activity_PerformedBy := person "Bob"; api.Activity_OccurredAt := "";
     api.Activity_Changes := []; api.Activity_PrimaryResources := [] |}.

Definition owner (userID : Z) (name : string) : api.StoryOwner :=
  {| api.StoryOwner_ID := userID; api.StoryOwner_UserID := userID;
     api.StoryOwner_Name := name; api.StoryOwner_Initials := "" |}.

Definition aStory (id : Z) (state : string) (owners : list api.StoryOwner) : api.Story :=
  {| api.Story_ID := id; api.Story_Title := "story"; api.Story_Description := "";
     api.Story_StoryType := "feature"; api.Story_CurrentState := state;
     api.Story_Estimate := None; api.Story_StoryPriority := ""; api.Story_Labels := [];
     api.Story_OwnerIDs := []; api.Story_Owners := owners; api.Story_RequestedByID := None;
     api.Story_CreatedAt := "11 Feb 2026, 04:30AM"; api.Story_UpdatedAt := "12 Feb 2026, 4:05PM";
     api.Story_URL := ""; api.Story_ProjectID := None |}.

Definition aComment (id : Z) (text : string) : api.Comment :=
  {| api.Comment_ID := id; api.Comment_Text := text; api.Comment_PersonID := 9;
     api.Comment_Person := None; api.Comment_CreatedAt := "12 Feb 2026, 4:05PM";
     api.Comment_UpdatedAt := "" |}.

(** A project with story 1 started and owned by user 7, story 2 unstarted and
    owned by user 8, and one comment, number 50, on story 1. *)
Definition twoStories (commentText : string) : Script :=
  {| clock := "2026-02-13T10:00:00Z";
     activity := fun pid => if pid =? 2 then Err "LiteTracker API 500" else Ok [];
     storiesIn := fun state =>
       if String.eqb state "started" then Ok [aStory 1 "started" [owner 7 "Alice"]]
       else if String.eqb state "unstarted" then Ok [aStory 2 "unstarted" [owner 8 "Bob"]]
       else Ok [];
     story := fun id =>
       if id =? 1 then Ok (aStory 1 "started" [owner 7 "Alice"])
       else Err "LiteTracker API 404";
     commentsOf := fun id => if id =? 1 then Ok [aComment 50 commentText] else Ok [] |}.

(** Payloads and stored rows for the store. *)
Definition storyPayload (id projectID : Z) (title : string) (mentionsMe : bool) : db.StoryRow :=
  {| db.StoryRow_ID := id; db.StoryRow_ProjectID := projectID; db.StoryRow_Title := title;
     db.StoryRow_Description := None; db.StoryRow_StoryType := Some "feature";
     db.StoryRow_CurrentState := Some "started"; db.StoryRow_Estimate := Some 2;
     db.StoryRow_Priority := None; db.StoryRow_URL := None; db.StoryRow_RequestedByID := None;
     db.StoryRow_OwnerNames := Some "Alice"; db.StoryRow_LabelNames := None;
     db.StoryRow_IsMine := true; db.StoryRow_MentionsMe := mentionsMe;
     db.StoryRow_CreatedAt := "11 Feb 2026, 04:30AM";
     db.StoryRow_UpdatedAt := "12 Feb 2026, 4:05PM" |}.

Definition storedStory (id projectID : Z) (title : string) (mentionsMe : bool) : db.stories :=
  {| db.stories_id := id; db.stories_project_id := projectID; db.stories_title := title;
     db.stories_description := None; db.stories_story_type := Some "bug";
     db.stories_current_state := Some "unstarted"; db.stories_estimate := None;
     db.stories_priority := None; db.stories_url := None; db.stories_requested_by_id := None;
     db.stories_owner_names := None; db.stories_label_names := None;
     db.stories_is_mine := false; db.stories_mentions_me := mentionsMe;
     db.stories_created_at := Some "2026-02-01T09:00:00.000Z";
     db.stories_updated_at := Some "2026-02-02T09:00:00.000Z";
     db.stories_synced_at := "2026-02-03T10:00:00Z" |}.

Definition commentPayload (id storyID projectID : Z) (text : string) (mentionsMe : bool)
  : db.CommentRow :=
  {| db.CommentRow_ID := id; db.CommentRow_StoryID := storyID;
     db.CommentRow_ProjectID := projectID; db.CommentRow_Text := Some text;
     db.CommentRow_PersonID := Some 9; db.CommentRow_PersonName := Some "Bob";
     db.CommentRow_MentionsMe := mentionsMe;
     db.CommentRow_CreatedAt := "12 Feb 2026, 4:05PM" |}.

Definition storedComment (id storyID projectID : Z) (text : string) (mentionsMe : bool)
  : db.comments :=
  {| db.comments_id := id; db.comments_story_id := storyID;
     db.comments_project_id := projectID; db.comments_text := Some text;
     db.comments_person_id := None; db.comments_person_name := None;
     db.comments_mentions_me := mentionsMe;
     db.comments_created_at := Some "2026-02-01T09:00:00.000Z";
     db.comments_synced_at := "2026-02-03T10:00:00Z" |}.

(** A reply of the web server. *)
Definition reply (status : Z) (body : string) : Result remote.Response :=
  Ok {| remote.Resp_StatusCode := status; remote.Resp_Body := body |}.

End standin.

(** *** Vocabulary for the rows of the store *)

Module storespec.
Section StoreSpec.
Context `{L : GoLib}.
Import db.

(** [SELECT * FROM stories WHERE id = ?] *)
Definition storyAt (id : Z) (tbl : list stories) : option stories :=
  List.find (fun r => stories_id r =? id) tbl.

(** The stored row [r] carries the payload [s] in every column that the
    conflict clause of [UpsertStory] assigns from it. *)
Definition mirrors (s : StoryRow) (r : stories) : Prop :=
  stories_id r = StoryRow_ID s /\
  stories_title r = StoryRow_Title s /\
  stories_description r = StoryRow_Description s /\
  stories_story_type r = StoryRow_StoryType s /\
  stories_current_state r = StoryRow_CurrentState s /\
  stories_estimate r = StoryRow_Estimate s /\
  stories_priority r = StoryRow_Priority s /\
  stories_url r = StoryRow_URL s /\
  stories_requested_by_id r = StoryRow_RequestedByID s /\
  stories_owner_names r = StoryRow_OwnerNames s /\
  stories_label_names r = StoryRow_LabelNames s /\
  stories_is_mine r = StoryRow_IsMine s /\
  stories_created_at r = castApiDate (StoryRow_CreatedAt s) /\
  stories_updated_at r = castApiDate (StoryRow_UpdatedAt s).

(** [r'] is [r] in every column but [mentions_me]. *)
Definition sameButFlag (r r' : stories) : Prop :=
  stories_id r' = stories_id r /\
  stories_project_id r' = stories_project_id r /\
  stories_title r' = stories_title r /\
  stories_description r' = stories_description r /\
  stories_story_type r' = stories_story_type r /\
  stories_current_state r' = stories_current_state r /\
  stories_estimate r' = stories_estimate r /\
  stories_priority r' = stories_priority r /\
  stories_url r' = stories_url r /\
  stories_requested_by_id r' = stories_requested_by_id r /\
  stories_owner_names r' = stories_owner_names r /\
  stories_label_names r' = stories_label_names r /\
  stories_is_mine r' = stories_is_mine r /\
  stories_created_at r' = stories_created_at r /\
  stories_updated_at r' = stories_updated_at r /\
  stories_synced_at r' = stories_synced_at r.

(** What [MarkStoryMentionsMe storyID] makes of the row [r]. *)
Definition marked (storyID : Z) (r r' : stories) : Prop :=
  if stories_id r =? storyID
  then sameButFlag r r' /\ stories_mentions_me r' = true
  else r' = r.

(** Both tables of the store satisfy their primary key. *)
Definition keyed (st : sync.Store) : Prop :=
  dbspec.primaryKey stories_id (sync.Store_stories st) /\
  dbspec.primaryKey comments_id (sync.Store_comments st).

(** The entries of a fetched list that carry the id [i] and are owned by the
    configured user. *)
Definition ownedEntry (cfg : config.Config) (i : Z) (s : api.Story) : bool :=
  (api.Story_ID s =? i) && sync.isMyStory cfg s.

End StoreSpec.
End storespec.

(** *** Vocabulary for the requests of the session client *)

Module loginspec.
Section LoginSpec.
Context `{L : GoLib} `{R : !remote.Remote}.
Import remote webclient.

(** The two requests of the login exchange. *)
Definition loginGet (cfg : config.Config) : Request :=
  {| Req_Method := "GET"; Req_URL := config.WebURL cfg +:+ "/login"; Req_Body := NoBody |}.

Definition loginPost (cfg : config.Config) (csrfToken : string) : Request :=
  {| Req_Method := "POST"; Req_URL := config.WebURL cfg +:+ "/login";
     Req_Body := LoginForm csrfToken (config.Email cfg) (config.Password cfg) "1" |}.

(** The call [f] sends at most [k] requests, and takes none back. *)
Definition sendsAtMost {A : Type} (k : nat)
           (f : WebClient -> World -> A * WebClient * World) : Prop :=
  forall wc w, exists l : list Request,
      sent (snd (fst (f wc w))) = (sent wc ++ l)%list /\ (length l <= k)%nat.

(** A web server that answers every request with the status 401. *)
Definition answers401 : Prop :=
  forall (req : Request) (w : World),
  exists body w', webclient_Do req w = (Ok {| Resp_StatusCode := 401; Resp_Body := body |}, w').

End LoginSpec.
End loginspec.

(** ** internal/config: the environment and the [.env] files *)

Module environ.

(** The process environment: names to values. *)
Abbreviation Env := (gmap string string).

(** [os.LookupEnv(key)]; no variable has the empty name. *)
Definition LookupEnv (key : string) (env : Env) : option string :=
  if String.eqb key "" then None else env !! key.

(** [os.Getenv(key)] *)
Definition Getenv (env : Env) (key : string) : string :=
  match LookupEnv key env with
  | Some v => v
  | None => ""
  end.

Fixpoint hasByte (c : ascii) (s : string) : bool :=
  match s with
  | EmptyString => false
  | String a s' => Ascii.eqb a c || hasByte c s'
  end.

(** [os.Setenv(key, value)]: an empty name, a name with [=] or a NUL byte
    and a value with a NUL byte are refused. *)
Definition Setenv (key value : string) (env : Env) : option string * Env :=
  if String.eqb key "" || hasByte "=" key || hasByte "000" key || hasByte "000" value
  then (Some "setenv: invalid argument", env)
  else (None, <[key := value]> env).

(** [os.UserHomeDir()] on Unix: the value of [HOME]. *)
Definition UserHomeDir (env : Env) : Result string :=
  if String.eqb (Getenv env "HOME") "" then Err "$HOME is not defined"
  else Ok (Getenv env "HOME").

End environ.

Module dotenv.
Section DotEnv.
Context `{L : GoLib}.
Import environ.

(** [strings.Split(s, sep)] for a separator of one byte. *)
Fixpoint Split (sep : ascii) (cur : string) (s : string) : list string :=
  match s with
  | EmptyString => [cur]
  | String a s' =>
      if Ascii.eqb a sep then cur :: Split sep "" s'
      else Split sep (cur +:+ String a "") s'
  end.

(** [strings.Index(s, substr)] for a [substr] of one byte. *)
Fixpoint Index (s : string) (c : ascii) : Z :=
  match s with
  | EmptyString => -1
  | String a s' =>
      if Ascii.eqb a c then 0
      else let i := Index s' c in if i <? 0 then -1 else i + 1
  end.

(** The body of the loop of [loadEnvFile]. *)
Definition loadLine (line : string) (env : Env) : Env :=
  let line := strings_TrimSpace line in
  if String.eqb line "" || GoStr.HasPrefix line "#" then env
  else
    let idx := Index line "=" in
    if idx <? 1 then env
    else
      let key := strings_TrimSpace (String.substring 0 (Z.to_nat idx) line) in
      let value :=
        strings_TrimSpace (String.substring (Z.to_nat idx + 1)
                                            (String.length line - (Z.to_nat idx + 1)) line) in
      match LookupEnv key env with
      | Some _ => env
      | None => snd (Setenv key value env)
      end.

(** The loop of [loadEnvFile] over the lines of the file. *)
Definition loadLines (lines : list string) (env : Env) : Env :=
  fold_left (fun e line => loadLine line e) lines env.

(** [loadEnvFile(path)]; [fault] is a failure of the read. *)
Definition loadEnvFile (fault : bool) (path : string) (fs : os.FS) (env : Env) : Env :=
  match os.ReadFile fault path fs with
  | Err _ => env
  | Ok data => loadLines (Split "010" "" data) env
  end.

(** The first lines of [Init]: which [.env] files are read.  [faults] tells
    for which paths the read fails. *)
Definition loadEnvFiles (faults : string -> bool) (fs : os.FS) (env : Env) : Env :=
  let envFile := Getenv env "LITETRACKER_ENV_FILE" in
  if negb (String.eqb envFile "") then loadEnvFile (faults envFile) envFile fs env
  else
    let env1 := loadEnvFile (faults ".env") ".env" fs env in
    match UserHomeDir env1 with
    | Ok home =>
        let path := config.Join (config.Join home "litetracker-go") ".env" in
        loadEnvFile (faults path) path fs env1
    | Err _ => env1
    end.

(** [Init]: the files are merged into the environment, then the settings are
    read from it. *)
Definition Init (faults : string -> bool) (fs : os.FS) (env : Env) : Result config.Config * Env :=
  let env' := loadEnvFiles faults fs env in
  (config.Init (Getenv env'), env').

End DotEnv.
End dotenv.

(** *** Vocabulary for the properties of the [.env] files *)

Module envspec.
Section EnvSpec.
Context `{L : GoLib}.
Import environ.

(** The line, once trimmed, reads [a=b] with a name part [a] that is not
    empty, holds no [=] and does not start a comment; the name and the value
    it assigns are the trimmed parts. *)
Definition assigns (line key value : string) : Prop :=
  exists a b : string,
    strings_TrimSpace line = a +:+ "=" +:+ b /\
    a <> "" /\ hasByte "=" a = false /\ GoStr.HasPrefix a "#" = false /\
    strings_TrimSpace a = key /\ strings_TrimSpace b = value.

(** A name and a value that [os.Setenv] accepts. *)
Definition settable (key value : string) : Prop :=
  key <> "" /\ hasByte "=" key = false /\ hasByte "000" key = false /\
  hasByte "000" value = false.

End EnvSpec.
End envspec.

(** ** internal/db: the schema *)

Module schema.
Section Schema.
Context `{L : GoLib}.

Definition schemaVersion : Z := 2.

(** The catalog of the database file: the three tables with their rows,
    [None] for a table that does not exist. *)
Record Database := {
  tbl_schema_version : option (list Z);
  tbl_stories : option (list db.stories);
  tbl_comments : option (list db.comments);
}.

(** [SELECT version FROM schema_version LIMIT 1], and 0 when the query
    fails: there is no such table, or it has no row. *)
Definition getSchemaVersion (d : Database) : Z :=
  match tbl_schema_version d with
  | Some (v :: _) => v
  | _ => 0
  end.

(** The statements of [migrateSchema], as [conn.Exec] runs them: a
    statement fails when the catalog does not allow it. *)
Inductive Statement :=
| DropComments
| DropStories
| DropSchemaVersion
| CreateSchemaVersion
| InsertSchemaVersion (version : Z).

Definition Exec (stmt : Statement) (d : Database) : Result Database :=
  match stmt with
  | DropComments =>
      Ok {| tbl_schema_version := tbl_schema_version d; tbl_stories := tbl_stories d;
            tbl_comments := None |}
  | DropStories =>
      Ok {| tbl_schema_version := tbl_schema_version d; tbl_stories := None;
            tbl_comments := tbl_comments d |}
  | DropSchemaVersion =>
      Ok {| tbl_schema_version := None; tbl_stories := tbl_stories d;
            tbl_comments := tbl_comments d |}
  | CreateSchemaVersion =>
      match tbl_schema_version d with
      | Some _ => Err "Catalog Error: Table with name schema_version already exists!"
      | None =>
          Ok {| tbl_schema_version := Some []; tbl_stories := tbl_stories d;
                tbl_comments := tbl_comments d |}
      end
  | InsertSchemaVersion version =>
      match tbl_schema_version d with
      | None => Err "Catalog Error: Table with name schema_version does not exist!"
      | Some rows =>
          Ok {| tbl_schema_version := Some (rows ++ [version])%list;
                tbl_stories := tbl_stories d; tbl_comments := tbl_comments d |}
      end
  end.

Definition sqlText (stmt : Statement) : string :=
  match stmt with
  | DropComments => "DROP TABLE IF EXISTS comments"
  | DropStories => "DROP TABLE IF EXISTS stories"
  | DropSchemaVersion => "DROP TABLE IF EXISTS schema_version"
  | CreateSchemaVersion => "CREATE TABLE schema_version (version INTEGER NOT NULL)"
  | InsertSchemaVersion _ => "INSERT INTO schema_version VALUES (?)"
  end.

Definition quote : string := String "034" "".

(** The loop of [migrateSchema] over its statements: it stops at the first
    that fails, with the statement quoted in the error. *)
Fixpoint execAll (stmts : list Statement) (d : Database) : option string * Database :=
  match stmts with
  | [] => (None, d)
  | stmt :: rest =>
      match Exec stmt d with
      | Err e => (Some ("exec " +:+ quote +:+ sqlText stmt +:+ quote +:+ ": " +:+ e), d)
      | Ok d' => execAll rest d'
      end
  end.

Definition migrateSchema (d : Database) : option string * Database :=
  let currentVersion := getSchemaVersion d in
  if currentVersion >=? schemaVersion then (None, d)
  else
    match execAll [DropComments; DropStories; DropSchemaVersion; CreateSchemaVersion] d with
    | (Some e, d') => (Some e, d')
    | (None, d') =>
        match Exec (InsertSchemaVersion schemaVersion) d' with
        | Err e => (Some e, d')
        | Ok d'' => (None, d'')
        end
    end.

(** [CREATE TABLE IF NOT EXISTS] for [stories] and [comments]. *)
Definition createTables (d : Database) : option string * Database :=
  (None,
   {| tbl_schema_version := tbl_schema_version d;
      tbl_stories := Some (match tbl_stories d with Some rows => rows | None => [] end);
      tbl_comments := Some (match tbl_comments d with Some rows => rows | None => [] end) |}).

(** [CREATE INDEX IF NOT EXISTS] on columns of the two tables: the
    statements need both tables and change no row. *)
Definition createIndexes (d : Database) : option string * Database :=
  match tbl_stories d, tbl_comments d with
  | Some _, Some _ => (None, d)
  | None, _ => (Some "Catalog Error: Table with name stories does not exist!", d)
  | _, None => (Some "Catalog Error: Table with name comments does not exist!", d)
  end.

(** [CREATE OR REPLACE VIEW] over the two tables: as for the indexes. *)
Definition createViews (d : Database) : option string * Database :=
  match tbl_stories d, tbl_comments d with
  | Some _, Some _ => (None, d)
  | None, _ => (Some "Catalog Error: Table with name stories does not exist!", d)
  | _, None => (Some "Catalog Error: Table with name comments does not exist!", d)
  end.

(** [InitializeDatabase]; [open_error] is the error of [sql.Open], if any. *)
Definition InitializeDatabase (open_error : option string) (d : Database)
  : option string * Database :=
  match open_error with
  | Some e => (Some ("open duckdb: " +:+ e), d)
  | None =>
      match migrateSchema d with
      | (Some e, d1) => (Some ("migrate schema: " +:+ e), d1)
      | (None, d1) =>
          match createTables d1 with
          | (Some e, d2) => (Some ("create tables: " +:+ e), d2)
          | (None, d2) =>
              match createIndexes d2 with
              | (Some e, d3) => (Some ("create indexes: " +:+ e), d3)
              | (None, d3) =>
                  match createViews d3 with
                  | (Some e, d4) => (Some ("create views: " +:+ e), d4)
                  | (None, d4) => (None, d4)
                  end
              end
          end
      end
  end.

(** The two tables as the sync pass sees them. *)
Definition storeOf (d : Database) : sync.Store :=
  {| sync.Store_stories := match tbl_stories d with Some rows => rows | None => [] end;
     sync.Store_comments := match tbl_comments d with Some rows => rows | None => [] end |}.

End Schema.
End schema.

(** ** internal/api: the read client *)

Module client.
Section Client.
Context `{L : GoLib} {World : Type}.

Record HTTPResponse := {
  StatusCode : Z;
  Status : string;
  Body : string;
}.

(** [client.Do(req)] for a request with the given method, URL, token header
    and body. *)
Context (client_Do : string -> string -> string -> option string -> World
                     -> Result HTTPResponse * World).

(** [json.NewDecoder(resp.Body).Decode(&result)] at a story. *)
Context (decode_Story : string -> Result api.Story).

(** The dash of the error text, U+2014 in UTF-8. *)
Definition emDash : string := String "226" (String "128" (String "148" "")).

(** [fmt.Errorf] of [request] for a status of 400 and above. *)
Definition statusError (resp : HTTPResponse) : string :=
  "LiteTracker API " +:+ GoStr.Itoa (StatusCode resp) +:+ ": " +:+ Status resp
    +:+ " " +:+ emDash +:+ " " +:+ Body resp.

Definition request (cfg : config.Config) (method path : string) (body : option string) (w : World)
  : Result HTTPResponse * World :=
  let u := config.BaseURL cfg +:+ path in
  match http_NewRequest method u with
  | Some e => (Err e, w)
  | None =>
      match client_Do method u (config.Token cfg) body w with
      | (Err e, w') => (Err e, w')
      | (Ok resp, w') =>
          if StatusCode resp >=? 400 then (Err (statusError resp), w')
          else (Ok resp, w')
      end
  end.

Definition decode (resp : HTTPResponse) : Result api.Story :=
  match decode_Story (Body resp) with
  | Err e => Err ("decode response: " +:+ e)
  | Ok story => Ok story
  end.

Definition storyPath (projectID storyID : Z) : string :=
  "/projects/" +:+ GoStr.Itoa projectID +:+ "/stories/" +:+ GoStr.Itoa storyID.

Definition GetStory (cfg : config.Config) (projectID storyID : Z) (w : World)
  : Result api.Story * World :=
  match request cfg "GET" (storyPath projectID storyID) None w with
  | (Err e, w') => (Err e, w')
  | (Ok resp, w') => (decode resp, w')
  end.

End Client.
End client.

(** ** internal/sync: all projects *)

Module ltSync.
Section SyncAll.
Context `{L : GoLib} `{R : !remote.Remote}.
Import remote sync.

(** What one call of [SyncAllProjects] leaves: the counters it logs for each
    project, the error of the snapshot (logged, not returned), the store,
    the file system and the world. *)
Record Pass := {
  logged : list (Z * syncStats);
  snapshot_error : option string;
  store : Store;
  files : os.FS;
  world : World;
}.

(** The loop over [config.C.ProjectIDs]. *)
Fixpoint syncProjects (cfg : config.Config) (pids : list Z) (st : Store) (w : World)
  : list (Z * syncStats) * Store * World :=
  match pids with
  | [] => ([], st, w)
  | pid :: rest =>
      let '(stats, st1, w1) := syncProject cfg pid st w in
      let '(more, st2, w2) := syncProjects cfg rest st1 w1 in
      ((pid, stats) :: more, st2, w2)
  end.

Definition SyncAllProjects (cfg : config.Config) (run : snapshot.Run)
           (st : Store) (fs : os.FS) (w : World) : Pass :=
  let '(stats, st', w') := syncProjects cfg (config.ProjectIDs cfg) st w in
  let '(err, fs') := snapshot.CreateSnapshot cfg run fs in
  {| logged := stats; snapshot_error := err; store := st'; files := fs'; world := w' |}.

End SyncAll.
End ltSync.

(** ** main.go: the daemon *)

Module daemon.
Section Daemon.
Context `{L : GoLib} `{R : !remote.Remote}.
Import remote.

(** What the file system does during one round: how the write of the state
    file goes, and the run of the snapshot. *)
Record Tick := {
  state_write : os.WriteOutcome;
  snapshot_run : snapshot.Run;
}.

(** The process between two rounds.  [seen] collects the events of the
    polls, in order. *)
Record Process := {
  state : main.pollState;
  store : sync.Store;
  files : os.FS;
  world : World;
  seen : list main.Event;
}.

(** [poll(&state)] followed by [ltSync.SyncAllProjects()]. *)
Definition pollAndSync (cfg : config.Config) (t : Tick) (p : Process) : Process :=
  let c := main.poll cfg (state_write t) (state p) (files p) (world p) in
  let pass := ltSync.SyncAllProjects cfg (snapshot_run t) (store p) (main.disk c) (main.world c) in
  {| state := main.after c;
     store := ltSync.store pass;
     files := ltSync.files pass;
     world := ltSync.world pass;
     seen := (seen p ++ main.events c)%list |}.

(** The [for] loop of [runDaemon]: one round for each time the ticker fires
    before the signal arrives. *)
Definition rounds (cfg : config.Config) (ticks : list Tick) (p : Process) : Process :=
  fold_left (fun p t => pollAndSync cfg t p) ticks p.

(** A 64-bit signed integer after an overflow. *)
Definition wrap64 (z : Z) : Z := (z + 2 ^ 63) mod 2 ^ 64 - 2 ^ 63.

(** [time.Duration(config.C.PollIntervalMs) * time.Millisecond], in
    nanoseconds. *)
Definition tickerInterval (cfg : config.Config) : Z :=
  wrap64 (config.PollIntervalMs cfg * 1000000).

(** How the process ends: [os.Exit(1)], the panic of [time.NewTicker] on an
    interval that is not positive, or the signal. *)
Inductive Exit :=
| Exit1 (message : string)
| Panic (message : string) (p : Process)
| Shutdown (p : Process).

(** [runDaemon], from a configuration that is loaded: [log_error] and
    [open_error] are the errors of opening the log file and the database,
    [fault] a failure of the read of the state file, [first] the initial
    round and [ticks] the rounds of the loop.  What is written to the log is
    left out. *)
Definition runDaemon (cfg : config.Config) (log_error open_error : option string)
           (d : schema.Database) (fault : bool) (first : Tick) (ticks : list Tick)
           (fs : os.FS) (w : World) : Exit :=
  match log_error with
  | Some e => Exit1 ("open log: " +:+ e)
  | None =>
      if (length (config.ProjectIDs cfg) =? 0)%nat
      then Exit1 "no LITETRACKER_PROJECT_IDS configured"
      else
        match schema.InitializeDatabase open_error d with
        | (Some e, _) => Exit1 ("DuckDB initialization failed: " +:+ e)
        | (None, d') =>
            let '(st, w1) := main.loadPollState cfg fault fs w in
            let p := pollAndSync cfg first
                       {| state := st; store := schema.storeOf d'; files := fs;
                          world := w1; seen := [] |} in
            if tickerInterval cfg <=? 0
            then Panic "non-positive interval for NewTicker" p
            else Shutdown (rounds cfg ticks p)
        end
  end.

End Daemon.
End daemon.

(** ** internal/mcp: the handlers of the write tools *)

Module mcpserver.

(** An argument of a tool call, as decoded from JSON.  A [float64] is kept
    as the integer [int(n)] gives for it, the only use the handlers make of
    a number. *)
Inductive Arg :=
| ArgFloat64 (truncated : Z)
| ArgInt (n : Z)
| ArgString (s : string)
| ArgOther.

(** [req.GetArguments()] *)
Abbreviation ToolArguments := (gmap string Arg).

(** A [CallToolResult]: the value [textResult] renders as indented JSON, or
    the text of [errResult]. *)
Inductive CallToolResult (A : Type) :=
| ToolText (v : A)
| ToolError (text : string).
Arguments ToolText {A} v.
Arguments ToolError {A} text.

Section Handlers.
Context `{L : GoLib} `{R : !remote.Remote}.
Import remote webclient.

Definition getInt (args : ToolArguments) (key : string) : Z :=
  match args !! key with
  | Some (ArgFloat64 n) => n
  | Some (ArgInt n) => n
  | _ => 0
  end.

Definition getString (args : ToolArguments) (key : string) : string :=
  match args !! key with
  | Some (ArgString s) => s
  | _ => ""
  end.

Definition errResult {A : Type} (err : string) : CallToolResult A :=
  ToolError ("Error: " +:+ err).

(** The [result] struct of [handlePostComment]. *)
Record commentResult := {
  commentResult_ID : Z;
  commentResult_Text : string;
  commentResult_CreatedAt : string;
}.

Definition handlePostComment (cfg : config.Config) (args : ToolArguments)
           (wc : WebClient) (w : World) : CallToolResult commentResult * WebClient * World :=
  let projectID := getInt args "project_id" in
  let storyID := getInt args "story_id" in
  let text := getString args "text" in
  if (projectID =? 0) || (storyID =? 0) || String.eqb text "" then
    (errResult "project_id, story_id, and text are required", wc, w)
  else
    match WebPostComment cfg projectID storyID text wc w with
    | (Err e, wc', w') => (errResult e, wc', w')
    | (Ok comment, wc', w') =>
        (ToolText {| commentResult_ID := api.Comment_ID comment;
                     commentResult_Text := api.Comment_Text comment;
                     commentResult_CreatedAt := api.Comment_CreatedAt comment |}, wc', w')
    end.

(** The [labelResult] struct of [handleAddLabel]. *)
Record labelResult := {
  labelResult_ID : Z;
  labelResult_Name : string;
}.

Definition handleAddLabel (cfg : config.Config) (args : ToolArguments)
           (wc : WebClient) (w : World) : CallToolResult labelResult * WebClient * World :=
  let projectID := getInt args "project_id" in
  let storyID := getInt args "story_id" in
  let label := getString args "label" in
  if (projectID =? 0) || (storyID =? 0) || String.eqb label "" then
    (errResult "project_id, story_id, and label are required", wc, w)
  else
    match WebAddLabel cfg projectID storyID label wc w with
    | (Err e, wc', w') => (errResult e, wc', w')
    | (Ok result, wc', w') =>
        (ToolText {| labelResult_ID := api.Label_ID result;
                     labelResult_Name := api.Label_Name result |}, wc', w')
    end.

(** The [ownerSummary] struct of [handleAddOwner]. *)
Record ownerSummary := {
  ownerSummary_UserID : Z;
  ownerSummary_Name : string;
  ownerSummary_Initials : string;
}.

Definition handleAddOwner (cfg : config.Config) (args : ToolArguments)
           (wc : WebClient) (w : World) : CallToolResult (list ownerSummary) * WebClient * World :=
  let projectID := getInt args "project_id" in
  let storyID := getInt args "story_id" in
  let userID := getInt args "user_id" in
  if (projectID =? 0) || (storyID =? 0) || (userID =? 0) then
    (errResult "project_id, story_id, and user_id are required", wc, w)
  else
    match WebAddOwner cfg projectID storyID userID wc w with
    | (Err e, wc', w') => (errResult e, wc', w')
    | (Ok owners, wc', w') =>
        (ToolText (map (fun o => {| ownerSummary_UserID := api.StoryOwner_UserID o;
                                    ownerSummary_Name := api.StoryOwner_Name o;
                                    ownerSummary_Initials := api.StoryOwner_Initials o |})
                       owners), wc', w')
    end.

End Handlers.
End mcpserver.

(** ** internal/notify *)

Module notify.
Section Notify.

(** [json.Marshal] at a string, where it returns no error. *)
Context (json_Marshal_string : string -> string).

Definition escapeForAppleScript (s : string) : string :=
  let s := GoStr.ReplaceAll s (String "010" "") " " in
  json_Marshal_string s.

End Notify.
End notify.

(** ** Further stand-ins *)

Module example.
Import standin.

(** A remote whose web server answers every request with the status 401. *)
Definition unauthorized (sc : Script) : remote.Remote := {|
  remote.World := unit;
  remote.time_Now := fun w => (clock sc, w);
  remote.GetProjectActivity := fun pid _ w => (activity sc pid, w);
  remote.ListStories := fun _ opts w => (storiesIn sc (remote.Opts_State opts), w);
  remote.GetStory := fun _ storyID w => (story sc storyID, w);
  remote.GetStoryComments := fun _ storyID w => (commentsOf sc storyID, w);
  remote.webclient_Do := fun _ w => (reply 401 "Unauthorized", w);
  remote.json_Unmarshal_comment := fun _ => None;
  remote.json_Unmarshal_label := fun _ => None;
  remote.json_Unmarshal_owners := fun _ => [];
|}.

(** The reply of a token API that rejects the token, and a transport that
    always gives it. *)
Definition rejected : client.HTTPResponse :=
  {| client.StatusCode := 401; client.Status := "401 Unauthorized";
     client.Body := "invalid token" |}.

Definition rejecting (method url token : string) (body : option string)
           (w : list (Result remote.Response))
  : Result client.HTTPResponse * list (Result remote.Response) :=
  (Ok rejected, w).

(** A remote that reads stories through that transport. *)
Definition tokenRejected : Script :=
  {| clock := "2026-02-13T10:00:00Z";
     activity := fun _ => Err (client.statusError rejected);
     storiesIn := fun _ => Err (client.statusError rejected);
     story := fun _ => Err (client.statusError rejected);
     commentsOf := fun _ => Err (client.statusError rejected) |}.

(** Story 1 with an estimate that does not fit an [INTEGER] column. *)
Definition oversized : api.Story :=
  {| api.Story_ID := 1; api.Story_Title := "story"; api.Story_Description := "";
     api.Story_StoryType := "feature"; api.Story_CurrentState := "rejected";
     api.Story_Estimate := Some 4294967296; api.Story_StoryPriority := "";
     api.Story_Labels := []; api.Story_OwnerIDs := []; api.Story_Owners := [owner 8 "Bob"];
     api.Story_RequestedByID := None;
     api.Story_CreatedAt := "11 Feb 2026, 04:30AM"; api.Story_UpdatedAt := "12 Feb 2026, 4:05PM";
     api.Story_URL := ""; api.Story_ProjectID := None |}.

(** A project in which story 1 moves from started to delivered, and from
    user 7 to user 8, between the fetches of the two states, and is then
    listed as rejected with an estimate that does not fit. *)
Definition movingStory : Script :=
  {| clock := "2026-02-13T10:00:00Z";
     activity := fun _ => Ok [];
     storiesIn := fun state =>
       if String.eqb state "started" then Ok [aStory 1 "started" [owner 7 "Alice"]]
       else if String.eqb state "delivered" then Ok [aStory 1 "delivered" [owner 8 "Bob"]]
       else if String.eqb state "rejected" then Ok [oversized]
       else Ok [];
     story := fun _ => Err "LiteTracker API 404";
     commentsOf := fun _ => Ok [] |}.

(** A [.env] file. *)
Definition dotEnvFile : string :=
  "LITETRACKER_TOKEN=from-file" +:+ String "010" "LITETRACKER_TOKEN=second".

End example.

(** * Properties *)

(** ** Byte strings *)

Module GoStrFacts.
Import GoStr.

Lemma append_cons (c : ascii) (a b : string) : String c a +:+ b = String c (a +:+ b).
Proof. reflexivity. Qed.

Lemma append_nil_l (b : string) : "" +:+ b = b.
Proof. reflexivity. Qed.

Lemma length_append (a b : string) :
  String.length (a +:+ b) = (String.length a + String.length b)%nat.
Proof.
  induction a as [|c a IH]; [reflexivity |].
  rewrite append_cons. simpl. now rewrite IH.
Qed.

Lemma append_nil_r (a : string) : a +:+ "" = a.
Proof. induction a as [|c a IH]; [reflexivity |]. rewrite append_cons. now f_equal. Qed.

Lemma append_assoc (a b c : string) : (a +:+ b) +:+ c = a +:+ (b +:+ c).
Proof.
  induction a as [|x a IH]; [reflexivity |].
  rewrite !append_cons. now f_equal.
Qed.

Lemma append_inv_head (a b c : string) : a +:+ b = a +:+ c -> b = c.
Proof.
  induction a as [|x a IH]; intros E; [exact E |].
  rewrite !append_cons in E. injection E. auto.
Qed.

Lemma substring_all (s : string) : String.substring 0 (String.length s) s = s.
Proof. induction s as [|c s IH]; simpl; [reflexivity | now f_equal]. Qed.

Lemma substring_drop (a b : string) :
  String.substring (String.length a) (String.length (a +:+ b) - String.length a) (a +:+ b) = b.
Proof.
  induction a as [|c a IH].
  - rewrite append_nil_l. simpl String.length. rewrite Nat.sub_0_r. apply substring_all.
  - rewrite append_cons. simpl. exact IH.
Qed.

Lemma HasPrefix_append (a b : string) : HasPrefix (a +:+ b) a = true.
Proof.
  induction a as [|c a IH]; [now destruct b |].
  rewrite append_cons. simpl. now rewrite Ascii.eqb_refl, IH.
Qed.

Lemma HasPrefix_inv (s p : string) : HasPrefix s p = true -> exists r, s = p +:+ r.
Proof.
  revert s. induction p as [|b p IH]; intros s Hp.
  - now exists s.
  - destruct s as [|a s]; simpl in Hp; [discriminate |].
    apply andb_true_iff in Hp as [Hab Hp]. apply Ascii.eqb_eq in Hab. subst b.
    destruct (IH _ Hp) as [r ->]. now exists r.
Qed.

Lemma Contains_unfold (s u : string) :
  Contains s u =
  HasPrefix s u || match s with EmptyString => false | String _ s' => Contains s' u end.
Proof. destruct s; reflexivity. Qed.

(** [strings.Contains] finds exactly the occurrences. *)
Lemma Contains_spec (s u : string) :
  Contains s u = true <-> exists pre post, s = pre +:+ u +:+ post.
Proof.
  split.
  - induction s as [|a s IH]; rewrite Contains_unfold; intros Hc.
    + rewrite orb_false_r in Hc. destruct (HasPrefix_inv _ _ Hc) as [r Hr].
      exists "", r. exact Hr.
    + apply orb_true_iff in Hc as [Hp | Hc].
      * destruct (HasPrefix_inv _ _ Hp) as [r Hr]. exists "", r. exact Hr.
      * destruct (IH Hc) as (pre & post & ->). now exists (String a pre), post.
  - intros (pre & post & ->). induction pre as [|a pre IH].
    + rewrite append_nil_l, Contains_unfold, HasPrefix_append. reflexivity.
    + rewrite append_cons, Contains_unfold, IH. apply orb_true_r.
Qed.


Lemma Contains_at_sign (s u : string) :
  Contains s ("@" +:+ u) = true -> Contains s u = true.
Proof.
  rewrite !Contains_spec. intros (pre & post & ->).
  exists (pre +:+ "@"), post. now rewrite !append_assoc.
Qed.

End GoStrFacts.

(** ** The poll loop *)

Module pollFacts.
Section PollFacts.
Context `{L : GoLib} `{R : !remote.Remote}.
Import remote main pollspec GoStr.

Lemma matchFrom_spec (s u : string) (i j n : nat) :
  matchFrom s u i j n = true <->
  forall k, (k < n)%nat -> foldByte (byteAt s (i + (j + k))) = foldByte (byteAt u (j + k)).
Proof.
  revert j. induction n as [|n IH]; intros j; simpl.
  - split; [intros _ k Hk; lia | reflexivity].
  - destruct (Ascii.eqb_spec (foldByte (byteAt s (i + j))) (foldByte (byteAt u j))) as [E | E].
    + rewrite IH. split.
      * intros Hall [|k] Hk.
        -- now rewrite Nat.add_0_r.
        -- replace (j + S k)%nat with (S j + k)%nat by lia. apply Hall. lia.
      * intros Hall k Hk.
        replace (S j + k)%nat with (j + S k)%nat by lia. apply Hall. lia.
    + split; [discriminate |]. intros Hall. exfalso. apply E.
      specialize (Hall 0%nat). rewrite Nat.add_0_r in Hall. apply Hall. lia.
Qed.

Lemma scanFrom_spec (s u : string) (i n : nat) :
  scanFrom s u i n = true <->
  exists i', (i <= i' < i + n)%nat /\ matchFrom s u i' 0 (String.length u) = true.
Proof.
  revert i. induction n as [|n IH]; intros i; simpl.
  - split; [discriminate | intros (i' & Hi & _); lia].
  - destruct (matchFrom s u i 0 (String.length u)) eqn:E.
    + split; [intros _ | reflexivity]. exists i. split; [lia | exact E].
    + rewrite IH. split; intros (i' & Hi & Hm).
      * exists i'. split; [lia | exact Hm].
      * exists i'. split; [| exact Hm].
        destruct (Nat.eq_dec i' i) as [-> | Hne]; [congruence | lia].
Qed.

(** [containsIgnoreCase] decides case-insensitive containment. *)
Lemma containsIgnoreCase_spec (s u : string) :
  containsIgnoreCase s u = true <-> containsFold s u.
Proof.
  unfold containsIgnoreCase, containsFold, occursAt.
  destruct (Nat.eqb_spec (String.length u) 0) as [E0 | E0].
  - split; [intros _ | reflexivity]. exists 0%nat. split; [lia |]. intros k Hk. lia.
  - destruct (Nat.ltb_spec (String.length s) (String.length u)) as [Hlt | Hge].
    + split; [discriminate |]. intros (i & Hi & _). lia.
    + rewrite scanFrom_spec. split.
      * intros (i & Hi & Hm). exists i. split; [lia |].
        intros k Hk. apply (proj1 (matchFrom_spec s u i 0 _) Hm k Hk).
      * intros (i & Hi & Hm). exists i. split; [lia |].
        apply matchFrom_spec. intros k Hk. apply Hm, Hk.
Qed.

Lemma containsIgnoreCase_nil (s : string) : containsIgnoreCase s "" = true.
Proof. reflexivity. Qed.

Lemma existsb_changes (cfg : config.Config) (a : api.Activity) :
  existsb (fun c =>
             match api.Change_NewValues c with
             | Some v => containsIgnoreCase (json_Marshal v) (config.Username cfg)
             | None => false
             end) (api.Activity_Changes a) = true <-> changeMentions cfg a.
Proof.
  unfold changeMentions. rewrite existsb_exists. split.
  - intros (c & Hin & Hc). destruct (api.Change_NewValues c) as [v |] eqn:Ev; [| discriminate].
    exists c, v. rewrite <- containsIgnoreCase_spec. auto.
  - intros (c & v & Hin & Ev & Hc). exists c. split; [exact Hin |].
    rewrite Ev. now apply containsIgnoreCase_spec.
Qed.

Lemma mentionsMe_spec (cfg : config.Config) (a : api.Activity) :
  mentionsMe cfg a = true <->
  (api.Activity_Message a <> "" /\
   containsFold (api.Activity_Message a) (config.Username cfg)) \/
  changeMentions cfg a.
Proof.
  unfold mentionsMe.
  destruct (String.eqb_spec (api.Activity_Message a) "") as [E | E]; simpl.
  - rewrite existsb_changes. split; [auto | intros [[Hne _] | Hc]; [contradiction | exact Hc]].
  - destruct (containsIgnoreCase (api.Activity_Message a) (config.Username cfg)) eqn:Ec; simpl.
    + split; [intros _ | reflexivity]. left. split; [exact E |].
      now apply containsIgnoreCase_spec.
    + rewrite existsb_changes. split; [auto |]. intros [[_ Hc] | Hc]; [| exact Hc].
      apply containsIgnoreCase_spec in Hc. congruence.
Qed.

Lemma pollActivity_relevant (cfg : config.Config) (a : api.Activity) :
  (pollActivity cfg a = [notification a] <-> relevant cfg a) /\
  (pollActivity cfg a = [] <-> ~ relevant cfg a).
Proof.
  assert (Hdec : (mentionsMe cfg a || isCommentOnMyStory a = true) <-> relevant cfg a).
  { unfold relevant, isCommentOnMyStory.
    rewrite orb_true_iff, mentionsMe_spec, String.eqb_eq. tauto. }
  unfold pollActivity.
  destruct (mentionsMe cfg a || isCommentOnMyStory a) eqn:E.
  - split; split; try reflexivity; try discriminate.
    + intros _. now apply Hdec.
    + intros Hn. exfalso. apply Hn. now apply Hdec.
  - split; split; try reflexivity; try discriminate.
    + intros Hr. apply Hdec in Hr. discriminate.
    + intros _ Hr. apply Hdec in Hr. discriminate.
Qed.

Lemma notifications_app (xs ys : list Event) :
  notifications (xs ++ ys) = (notifications xs ++ notifications ys)%list.
Proof. unfold notifications. apply List.filter_app. Qed.

Lemma notifications_pollActivity (cfg : config.Config) (acts : list api.Activity) :
  notifications (flat_map (pollActivity cfg) acts) = flat_map (pollActivity cfg) acts.
Proof.
  induction acts as [|a acts IH]; [reflexivity |].
  simpl. rewrite notifications_app, IH. f_equal.
  unfold pollActivity. destruct (mentionsMe cfg a || isCommentOnMyStory a); reflexivity.
Qed.

(** The notifications of a cycle are those of the loop body at the
    activities it processes. *)
Lemma pollProjects_notifications (cfg : config.Config) (since : string) (pids : list Z) (w : World) :
  notifications (fst (pollProjects cfg since pids w)) =
  flat_map (pollActivity cfg) (processed since pids w).
Proof.
  revert w. induction pids as [|pid rest IH]; intros w; [reflexivity |].
  simpl. destruct (GetProjectActivity pid since w) as [r w1].
  specialize (IH w1). destruct (pollProjects cfg since rest w1) as [evs' w2].
  simpl in *. unfold notifications at 1. simpl. fold (notifications).
  change (List.filter _ ?l) with (notifications l).
  rewrite notifications_app, IH, flat_map_app. f_equal.
  destruct r as [acts | e]; [apply notifications_pollActivity | reflexivity].
Qed.

Lemma pollProjects_fetches (cfg : config.Config) (since : string) (pids : list Z) (w : World) :
  fetches (fst (pollProjects cfg since pids w)) = map (fun pid => (pid, since)) pids.
Proof.
  assert (Happ : forall xs ys, fetches (xs ++ ys) = (fetches xs ++ fetches ys)%list).
  { induction xs as [|[pid s | t m] xs IHx]; intros ys; simpl; [reflexivity | |];
      now rewrite IHx. }
  assert (Hact : forall acts, fetches (flat_map (pollActivity cfg) acts) = []).
  { induction acts as [|a acts IHa]; [reflexivity |]. simpl. rewrite Happ, IHa.
    unfold pollActivity. destruct (mentionsMe cfg a || isCommentOnMyStory a); reflexivity. }
  revert w. induction pids as [|pid rest IH]; intros w; [reflexivity |].
  simpl. destruct (GetProjectActivity pid since w) as [r w1].
  specialize (IH w1). destruct (pollProjects cfg since rest w1) as [evs' w2].
  simpl in *. rewrite Happ, IH. f_equal.
  destruct r as [acts | e]; [now rewrite Hact | reflexivity].
Qed.

End PollFacts.
End pollFacts.

(** ** The store *)

Module dbFacts.
Section Tables.
Context {R : Type} (key : R -> Z).

Lemma find_map_key (f : R -> R) (k : Z) (tbl : list R) :
  (forall r, key (f r) = key r) ->
  List.find (fun r => key r =? k) (map f tbl) =
  option_map f (List.find (fun r => key r =? k) tbl).
Proof.
  intros Hkey. induction tbl as [|a tbl IH]; [reflexivity |].
  simpl. rewrite Hkey. destruct (key a =? k); [reflexivity | exact IH].
Qed.

Lemma find_app (p : R -> bool) (xs ys : list R) :
  List.find p (xs ++ ys) =
  match List.find p xs with Some r => Some r | None => List.find p ys end.
Proof.
  induction xs as [|a xs IH]; [reflexivity |].
  simpl. destruct (p a); [reflexivity | exact IH].
Qed.

Lemma find_none_existsb (k : Z) (tbl : list R) :
  existsb (fun r => key r =? k) tbl = false -> List.find (fun r => key r =? k) tbl = None.
Proof.
  induction tbl as [|a tbl IH]; [reflexivity |].
  simpl. destruct (key a =? k); [discriminate | exact IH].
Qed.

Lemma find_some_existsb (k : Z) (tbl : list R) (r : R) :
  List.find (fun r => key r =? k) tbl = Some r -> existsb (fun r => key r =? k) tbl = true.
Proof.
  induction tbl as [|a tbl IH]; [discriminate |].
  simpl. destruct (key a =? k); [reflexivity | exact IH].
Qed.

Lemma filter_map_key (f : R -> R) (k : Z) (tbl : list R) :
  (forall r, key (f r) = key r) ->
  List.filter (fun r => key r =? k) (map f tbl) = map f (List.filter (fun r => key r =? k) tbl).
Proof.
  intros Hkey. induction tbl as [|a tbl IH]; [reflexivity |].
  simpl. rewrite Hkey. destruct (key a =? k); simpl; now rewrite IH.
Qed.

Lemma filter_absent (k : Z) (tbl : list R) :
  ~ In k (map key tbl) -> List.filter (fun r => key r =? k) tbl = [].
Proof.
  induction tbl as [|a tbl IH]; [reflexivity |].
  simpl. intros Hn. destruct (Z.eqb_spec (key a) k) as [E | E]; [tauto |].
  apply IH. tauto.
Qed.

(** Under the primary key a stored row is the only one with its key. *)
Lemma primaryKey_rowsWith (tbl : list R) (old : R) :
  dbspec.primaryKey key tbl -> In old tbl -> dbspec.rowsWith key (key old) tbl = [old].
Proof.
  unfold dbspec.primaryKey, dbspec.rowsWith.
  induction tbl as [|a tbl IH]; intros Hpk Hin; [contradiction |].
  simpl in Hpk. apply List.NoDup_cons_iff in Hpk as [Hfresh Hpk]. simpl.
  destruct (Z.eqb_spec (key a) (key old)) as [E | E].
  - destruct Hin as [-> | Hin].
    + f_equal. now apply filter_absent.
    + exfalso. apply Hfresh. rewrite E. now apply in_map.
  - destruct Hin as [-> | Hin]; [congruence |]. now apply IH.
Qed.

(** Under the primary key a stored row is the one found by its key. *)
Lemma primaryKey_find (tbl : list R) (r : R) :
  dbspec.primaryKey key tbl -> In r tbl ->
  List.find (fun x => key x =? key r) tbl = Some r.
Proof.
  unfold dbspec.primaryKey.
  induction tbl as [|a tbl IH]; intros Hpk Hin; [contradiction |].
  simpl in Hpk. apply List.NoDup_cons_iff in Hpk as [Hfresh Hpk]. simpl.
  destruct (Z.eqb_spec (key a) (key r)) as [E | E].
  - destruct Hin as [-> | Hin]; [reflexivity |].
    exfalso. apply Hfresh. rewrite E. now apply in_map.
  - destruct Hin as [-> | Hin]; [congruence |]. now apply IH.
Qed.

Section Upsert.
Context (conflict : R -> R -> R) (Hkey : forall old e, key (conflict old e) = key old).

Lemma upsert_key (e r : R) :
  key (if key r =? key e then conflict r e else r) = key r.
Proof. destruct (key r =? key e); [apply Hkey | reflexivity]. Qed.

(** The row found under the key of the upserted row. *)
Lemma find_upsert_same (e : R) (tbl : list R) :
  List.find (fun r => key r =? key e) (db.upsert key conflict e tbl) =
  match List.find (fun r => key r =? key e) tbl with
  | Some old => Some (conflict old e)
  | None => Some e
  end.
Proof.
  unfold db.upsert.
  destruct (List.find (fun r => key r =? key e) tbl) as [old |] eqn:Ef.
  - rewrite (find_some_existsb _ _ _ Ef).
    rewrite find_map_key by (intros r; apply upsert_key). rewrite Ef. simpl.
    apply find_some in Ef as [_ Ek]. now rewrite Ek.
  - destruct (existsb (fun r => key r =? key e) tbl) eqn:Ex.
    + apply existsb_exists in Ex as (r & Hin & Hr).
      now rewrite (find_none _ _ Ef r Hin) in Hr.
    + rewrite find_app, Ef. simpl. now rewrite Z.eqb_refl.
Qed.

(** The rows under any other key are not touched. *)
Lemma find_upsert_other (e : R) (k : Z) (tbl : list R) :
  k <> key e ->
  List.find (fun r => key r =? k) (db.upsert key conflict e tbl) =
  List.find (fun r => key r =? k) tbl.
Proof.
  intros Hne. unfold db.upsert.
  destruct (existsb (fun r => key r =? key e) tbl).
  - rewrite find_map_key by (intros r; apply upsert_key).
    destruct (List.find (fun r => key r =? k) tbl) as [r |] eqn:Ef; [| reflexivity].
    simpl. apply find_some in Ef as [_ Ek]. apply Z.eqb_eq in Ek.
    destruct (Z.eqb_spec (key r) (key e)); [congruence | reflexivity].
  - rewrite find_app. destruct (List.find (fun r => key r =? k) tbl); [reflexivity |].
    simpl. destruct (Z.eqb_spec (key e) k); [congruence | reflexivity].
Qed.

(** An upsert on a stored key leaves one row under it: the stored row
    rewritten by the conflict clause. *)
Lemma upsert_existing (e old : R) (tbl : list R) :
  dbspec.primaryKey key tbl -> In old tbl -> key old = key e ->
  dbspec.rowsWith key (key e) (db.upsert key conflict e tbl) = [conflict old e] /\
  length (db.upsert key conflict e tbl) = length tbl.
Proof.
  intros Hpk Hin Hk. unfold db.upsert.
  assert (Hex : existsb (fun r => key r =? key e) tbl = true).
  { apply existsb_exists. exists old. split; [exact Hin | now apply Z.eqb_eq]. }
  rewrite Hex. split; [| apply List.length_map].
  unfold dbspec.rowsWith. rewrite filter_map_key by (intros r; apply upsert_key).
  rewrite <- Hk. fold (dbspec.rowsWith key (key old) tbl).
  rewrite (primaryKey_rowsWith tbl old Hpk Hin). simpl. now rewrite Z.eqb_refl.
Qed.

(** The primary key is kept. *)
Lemma upsert_primaryKey (e : R) (tbl : list R) :
  dbspec.primaryKey key tbl -> dbspec.primaryKey key (db.upsert key conflict e tbl).
Proof.
  unfold dbspec.primaryKey, db.upsert. intros Hpk.
  destruct (existsb (fun r => key r =? key e) tbl) eqn:Ex.
  - rewrite List.map_map. erewrite List.map_ext; [exact Hpk |]. intros r. apply upsert_key.
  - rewrite map_app. simpl. apply List.NoDup_app.
    + exact Hpk.
    + apply List.NoDup_cons; [intros [] | apply List.NoDup_nil].
    + intros k Hk [<- | []]. apply in_map_iff in Hk as (r & Hr & Hin).
      assert (Hf : existsb (fun r => key r =? key e) tbl = true).
      { apply existsb_exists. exists r. split; [exact Hin | now apply Z.eqb_eq]. }
      congruence.
Qed.

End Upsert.
End Tables.
End dbFacts.

Module storeFacts.
Section StoreFacts.
Context `{L : GoLib}.
Import db dbspec.

Lemma storyConflict_key (old e : stories) : stories_id (storyConflict old e) = stories_id old.
Proof. reflexivity. Qed.

Lemma commentConflict_key (old e : comments) :
  comments_id (commentConflict old e) = comments_id old.
Proof. reflexivity. Qed.

Lemma isInt32_spec (n : Z) : isInt32 n = true <-> fitsInt32 n.
Proof.
  unfold isInt32, fitsInt32. change (2 ^ 31) with 2147483648.
  rewrite andb_true_iff, !Z.leb_le. lia.
Qed.

Lemma isInt32_false (n : Z) : isInt32 n = false <-> ~ fitsInt32 n.
Proof.
  rewrite <- isInt32_spec. destruct (isInt32 n); split; congruence.
Qed.

(** No parameter overflows exactly when every one of them fits. *)
Lemma firstOverflow_None (params : list (option Z)) :
  firstOverflow params = None <-> forall n, In (Some n) params -> fitsInt32 n.
Proof.
  induction params as [|[m |] rest IH]; simpl.
  - split; [intros _ n [] | reflexivity].
  - destruct (isInt32 m) eqn:Em.
    + rewrite IH. apply isInt32_spec in Em. split.
      * intros H n [E | Hin]; [now injection E as <- | now apply H].
      * intros H n Hin. apply H. now right.
    + split; [discriminate |]. intros H. apply isInt32_false in Em.
      exfalso. apply Em, H. now left.
  - rewrite IH. split.
    + intros H n [E | Hin]; [discriminate | now apply H].
    + intros H n Hin. apply H. now right.
Qed.

Lemma optFits_spec (o : option Z) : optFits o <-> forall n, In (Some n) [o] -> fitsInt32 n.
Proof.
  destruct o as [m |]; simpl.
  - split.
    + intros H n [E | []]. now injection E as <-.
    + intros H. apply H. now left.
  - split; [intros _ n [E | []]; discriminate | trivial].
Qed.

Lemma storyFits_spec (s : StoryRow) :
  firstOverflow [Some (StoryRow_ID s); Some (StoryRow_ProjectID s);
                 StoryRow_Estimate s; StoryRow_RequestedByID s] = None <-> storyFits s.
Proof.
  rewrite firstOverflow_None. unfold storyFits. rewrite !optFits_spec. split.
  - intros H. split; [| split; [| split]].
    + apply H. simpl. auto.
    + apply H. simpl. auto.
    + intros n [E | []]. apply H. rewrite <- E. simpl. auto.
    + intros n [E | []]. apply H. rewrite <- E. simpl. auto.
  - intros (H1 & H2 & H3 & H4) n [E | [E | [E | [E | []]]]].
    + now injection E as <-.
    + now injection E as <-.
    + apply H3. now left.
    + apply H4. now left.
Qed.

Lemma commentFits_spec (c : CommentRow) :
  firstOverflow [Some (CommentRow_ID c); Some (CommentRow_StoryID c);
                 Some (CommentRow_ProjectID c); CommentRow_PersonID c] = None <-> commentFits c.
Proof.
  rewrite firstOverflow_None. unfold commentFits. rewrite !optFits_spec. split.
  - intros H. split; [| split; [| split]].
    + apply H. simpl. auto.
    + apply H. simpl. auto.
    + apply H. simpl. auto.
    + intros n [E | []]. apply H. rewrite <- E. simpl. auto.
  - intros (H1 & H2 & H3 & H4) n [E | [E | [E | [E | []]]]].
    + now injection E as <-.
    + now injection E as <-.
    + now injection E as <-.
    + apply H4. now left.
Qed.

Lemma excludedStory_inv (now : string) (s : StoryRow) (e : stories) :
  excludedStory now s = Ok e ->
  stories_id e = StoryRow_ID s /\ stories_mentions_me e = StoryRow_MentionsMe s.
Proof.
  unfold excludedStory. destruct (firstOverflow _); [discriminate |].
  destruct (TRY_CAST now); [| discriminate].
  intros E. injection E as <-. split; reflexivity.
Qed.

Lemma excludedComment_inv (now : string) (c : CommentRow) (e : comments) :
  excludedComment now c = Ok e ->
  comments_id e = CommentRow_ID c /\ comments_mentions_me e = CommentRow_MentionsMe c.
Proof.
  unfold excludedComment. destruct (firstOverflow _); [discriminate |].
  destruct (TRY_CAST now); [| discriminate].
  intros E. injection E as <-. split; reflexivity.
Qed.

Lemma excludedStory_fits (now : string) (s : StoryRow) (e : stories) :
  excludedStory now s = Ok e -> storyFits s.
Proof.
  unfold excludedStory. intros H. apply storyFits_spec.
  now destruct (firstOverflow _).
Qed.

Lemma excludedStory_refused (now : string) (s : StoryRow) (msg : string) :
  excludedStory now s = Err msg -> ~ storyFits s \/ TRY_CAST now = None.
Proof.
  unfold excludedStory. rewrite <- storyFits_spec.
  destruct (firstOverflow _); [left; discriminate |].
  destruct (TRY_CAST now); [discriminate | now right].
Qed.

(** A write is accepted exactly when its integers fit and the clock text
    casts. *)
Lemma UpsertStory_accepted_iff (now : string) (s : StoryRow) (tbl : list stories) :
  fst (UpsertStory now s tbl) = None <-> storyFits s /\ TRY_CAST now <> None.
Proof.
  unfold UpsertStory, excludedStory. rewrite <- storyFits_spec.
  destruct (firstOverflow _) as [n |]; cbn [fst].
  - split; [discriminate | intros [H _]; discriminate].
  - destruct (TRY_CAST now); cbn [fst]; split; try discriminate; try tauto.
    + intros _. split; [reflexivity | discriminate].
Qed.

Lemma UpsertComment_accepted_iff (now : string) (c : CommentRow) (tbl : list comments) :
  fst (UpsertComment now c tbl) = None <-> commentFits c /\ TRY_CAST now <> None.
Proof.
  unfold UpsertComment, excludedComment. rewrite <- commentFits_spec.
  destruct (firstOverflow _) as [n |]; cbn [fst].
  - split; [discriminate | intros [H _]; discriminate].
  - destruct (TRY_CAST now); cbn [fst]; split; try discriminate; try tauto.
    + intros _. split; [reflexivity | discriminate].
Qed.

(** A refused write leaves the table as it is. *)
Lemma UpsertStory_refused (now : string) (s : StoryRow) (tbl : list stories) :
  fst (UpsertStory now s tbl) <> None -> snd (UpsertStory now s tbl) = tbl.
Proof.
  unfold UpsertStory. destruct (excludedStory now s); cbn [fst snd]; [| reflexivity].
  intros H. now elim H.
Qed.

Lemma UpsertComment_refused (now : string) (c : CommentRow) (tbl : list comments) :
  fst (UpsertComment now c tbl) <> None -> snd (UpsertComment now c tbl) = tbl.
Proof.
  unfold UpsertComment. destruct (excludedComment now c); cbn [fst snd]; [| reflexivity].
  intros H. now elim H.
Qed.

(** The flag of a story after [UpsertStory]. *)
Lemma storyFlag_UpsertStory (now : string) (s : StoryRow) (tbl : list stories) (i : Z) :
  storyFlag i (snd (UpsertStory now s tbl)) =
  match fst (UpsertStory now s tbl) with
  | Some _ => storyFlag i tbl
  | None =>
      if i =? StoryRow_ID s then
        Some (match storyFlag i tbl with
              | Some old => StoryRow_MentionsMe s || old
              | None => StoryRow_MentionsMe s
              end)
      else storyFlag i tbl
  end.
Proof.
  unfold UpsertStory. destruct (excludedStory now s) as [e | msg] eqn:Ee; [| reflexivity].
  destruct (excludedStory_inv _ _ _ Ee) as [Hid Hm]. simpl. unfold storyFlag.
  destruct (Z.eqb_spec i (StoryRow_ID s)) as [-> | Hne].
  - rewrite <- Hid, (dbFacts.find_upsert_same stories_id storyConflict storyConflict_key).
    destruct (List.find (fun r => stories_id r =? stories_id e) tbl) as [old |];
      simpl; rewrite Hm; [| reflexivity].
    now destruct (StoryRow_MentionsMe s).
  - rewrite (dbFacts.find_upsert_other stories_id storyConflict storyConflict_key);
      [reflexivity | congruence].
Qed.

(** The flag of a comment after [UpsertComment]. *)
Lemma commentFlag_UpsertComment (now : string) (c : CommentRow) (tbl : list comments) (i : Z) :
  commentFlag i (snd (UpsertComment now c tbl)) =
  match fst (UpsertComment now c tbl) with
  | Some _ => commentFlag i tbl
  | None =>
      if i =? CommentRow_ID c then
        Some (match commentFlag i tbl with
              | Some old => CommentRow_MentionsMe c || old
              | None => CommentRow_MentionsMe c
              end)
      else commentFlag i tbl
  end.
Proof.
  unfold UpsertComment. destruct (excludedComment now c) as [e | msg] eqn:Ee; [| reflexivity].
  destruct (excludedComment_inv _ _ _ Ee) as [Hid Hm]. simpl. unfold commentFlag.
  destruct (Z.eqb_spec i (CommentRow_ID c)) as [-> | Hne].
  - rewrite <- Hid, (dbFacts.find_upsert_same comments_id commentConflict commentConflict_key).
    destruct (List.find (fun r => comments_id r =? comments_id e) tbl) as [old |];
      simpl; rewrite Hm; [| reflexivity].
    now destruct (CommentRow_MentionsMe c).
  - rewrite (dbFacts.find_upsert_other comments_id commentConflict commentConflict_key);
      [reflexivity | congruence].
Qed.

(** The flag of a story after [MarkStoryMentionsMe]. *)
Lemma storyFlag_MarkStoryMentionsMe (storyID : Z) (tbl : list stories) (i : Z) :
  storyFlag i (snd (MarkStoryMentionsMe storyID tbl)) =
  if i =? storyID
  then match storyFlag i tbl with Some _ => Some true | None => None end
  else storyFlag i tbl.
Proof.
  unfold MarkStoryMentionsMe, storyFlag. simpl.
  rewrite (dbFacts.find_map_key stories_id)
    by (intros r; destruct (stories_id r =? storyID); reflexivity).
  destruct (List.find (fun r => stories_id r =? i) tbl) as [r |] eqn:Ef; simpl.
  - apply find_some in Ef as [_ Ek]. apply Z.eqb_eq in Ek. subst i.
    destruct (stories_id r =? storyID); reflexivity.
  - destruct (i =? storyID); reflexivity.
Qed.

(** No call resets a flag that is set. *)
Lemma call_keeps_flag (c : StoryCall) (tbl : list stories) (i : Z) :
  storyFlag i tbl = Some true -> storyFlag i (call c tbl) = Some true.
Proof.
  intros Hset. destruct c as [now s | storyID]; cbn [call].
  - rewrite storyFlag_UpsertStory. destruct (fst (UpsertStory now s tbl)); [exact Hset |].
    destruct (i =? StoryRow_ID s); [| exact Hset]. rewrite Hset. now rewrite orb_true_r.
  - rewrite storyFlag_MarkStoryMentionsMe. destruct (i =? storyID); [| exact Hset].
    now rewrite Hset.
Qed.

Lemma calls_keep_flag (cs : list StoryCall) (tbl : list stories) (i : Z) :
  storyFlag i tbl = Some true -> storyFlag i (calls cs tbl) = Some true.
Proof.
  revert tbl. induction cs as [|c cs IH]; intros tbl Hset; [exact Hset |].
  simpl. apply IH. now apply call_keeps_flag.
Qed.

(** The calls keep the primary key of [stories]. *)
Lemma calls_primaryKey (cs : list StoryCall) (tbl : list stories) :
  primaryKey stories_id tbl -> primaryKey stories_id (calls cs tbl).
Proof.
  revert tbl. induction cs as [|c cs IH]; intros tbl Hpk; [exact Hpk |].
  simpl. apply IH. destruct c as [now s | storyID]; cbn [call].
  - unfold UpsertStory. destruct (excludedStory now s) as [e | msg]; [| exact Hpk].
    now apply (dbFacts.upsert_primaryKey stories_id storyConflict storyConflict_key).
  - unfold MarkStoryMentionsMe, primaryKey in *. cbn [snd].
    rewrite List.map_map. erewrite List.map_ext; [exact Hpk |].
    intros r. destruct (stories_id r =? storyID); reflexivity.
Qed.

End StoreFacts.
End storeFacts.

(** ** What the specification states about the store *)

Section StoreStatements.
Context `{L : GoLib}.
Import db dbspec.

(** C1.  The [mentions_me] flag of a story is monotonic: once it is true for
    a story id it is true after every sequence of [UpsertStory] and
    [MarkStoryMentionsMe] calls, in every row the table holds under that id;
    in particular an upsert of the same id whose payload has [MentionsMe]
    false leaves it true, an accepted upsert of a stored id setting the flag
    to incoming OR existing. *)
Theorem mentions_me_monotonic
        (tbl : list stories) (cs : list StoryCall) (id : Z) (now : string) (s : StoryRow) :
  storyFlag id tbl = Some true ->
  storyFlag id (calls cs tbl) = Some true /\
  (primaryKey stories_id tbl ->
   forall r, In r (calls cs tbl) -> stories_id r = id -> stories_mentions_me r = true) /\
  (StoryRow_ID s = id -> StoryRow_MentionsMe s = false ->
   storyFlag id (snd (UpsertStory now s tbl)) = Some true) /\
  (forall (tbl0 : list stories) (old : bool),
      storyFlag (StoryRow_ID s) tbl0 = Some old -> fst (UpsertStory now s tbl0) = None ->
      storyFlag (StoryRow_ID s) (snd (UpsertStory now s tbl0)) =
      Some (StoryRow_MentionsMe s || old)).
Proof.
  intros Hset.
  pose proof (storeFacts.calls_keep_flag cs tbl id Hset) as Hafter.
  split; [exact Hafter |]. split; [| split].
  - intros Hpk r Hin <-.
    pose proof (dbFacts.primaryKey_find stories_id (calls cs tbl) r
                  (storeFacts.calls_primaryKey cs tbl Hpk) Hin) as Hfind.
    unfold storyFlag in Hafter. rewrite Hfind in Hafter. now injection Hafter.
  - intros _ _. apply (storeFacts.call_keeps_flag (CallUpsertStory now s) tbl id Hset).
  - intros tbl0 old Hold Hok. rewrite storeFacts.storyFlag_UpsertStory, Hok, Z.eqb_refl.
    now rewrite Hold.
Qed.

(** C2, as amended.  An upsert of a stored id whose integers fit the
    32-bit [INTEGER] columns, at a clock text that casts to a timestamp, is
    accepted and leaves exactly one row under that id.  In [stories] every
    column of that row holds the value of the incoming write, except
    [mentions_me], which is incoming OR existing, and [project_id], which
    keeps the stored value.  In [comments] the columns [text], [person_id],
    [person_name] and [synced_at] hold the incoming values, [mentions_me] is
    incoming OR existing, and [story_id], [project_id] and [created_at] keep
    the stored values. *)
Theorem upsert_existing_id
        (now : string) (synced : Timestamp)
        (s : StoryRow) (stbl : list stories) (olds : stories)
        (c : CommentRow) (ctbl : list comments) (oldc : comments) :
  TRY_CAST now = Some synced ->
  storyFits s ->
  commentFits c ->
  primaryKey stories_id stbl -> In olds stbl -> stories_id olds = StoryRow_ID s ->
  primaryKey comments_id ctbl -> In oldc ctbl -> comments_id oldc = CommentRow_ID c ->
  (fst (UpsertStory now s stbl) = None /\
   exists r : stories,
     rowsWith stories_id (StoryRow_ID s) (snd (UpsertStory now s stbl)) = [r] /\
     stories_id r = StoryRow_ID s /\
     stories_title r = StoryRow_Title s /\
     stories_description r = StoryRow_Description s /\
     stories_story_type r = StoryRow_StoryType s /\
     stories_current_state r = StoryRow_CurrentState s /\
     stories_estimate r = StoryRow_Estimate s /\
     stories_priority r = StoryRow_Priority s /\
     stories_url r = StoryRow_URL s /\
     stories_requested_by_id r = StoryRow_RequestedByID s /\
     stories_owner_names r = StoryRow_OwnerNames s /\
     stories_label_names r = StoryRow_LabelNames s /\
     stories_is_mine r = StoryRow_IsMine s /\
     stories_created_at r = castApiDate (StoryRow_CreatedAt s) /\
     stories_updated_at r = castApiDate (StoryRow_UpdatedAt s) /\
     stories_synced_at r = synced /\
     stories_mentions_me r = StoryRow_MentionsMe s || stories_mentions_me olds /\
     stories_project_id r = stories_project_id olds) /\
  (fst (UpsertComment now c ctbl) = None /\
   exists r : comments,
     rowsWith comments_id (CommentRow_ID c) (snd (UpsertComment now c ctbl)) = [r] /\
     comments_id r = CommentRow_ID c /\
     comments_text r = CommentRow_Text c /\
     comments_person_id r = CommentRow_PersonID c /\
     comments_person_name r = CommentRow_PersonName c /\
     comments_synced_at r = synced /\
     comments_mentions_me r = CommentRow_MentionsMe c || comments_mentions_me oldc /\
     comments_story_id r = comments_story_id oldc /\
     comments_project_id r = comments_project_id oldc /\
     comments_created_at r = comments_created_at oldc).
Proof.
  intros Hnow Hfs Hfc Hpks Hins Hids Hpkc Hinc Hidc. split.
  - unfold UpsertStory, excludedStory.
    rewrite (proj2 (storeFacts.storyFits_spec s) Hfs), Hnow. cbn [fst snd].
    split; [reflexivity |].
    match goal with |- context [upsert _ _ ?e _] => set (e0 := e) end.
    destruct (dbFacts.upsert_existing stories_id storyConflict storeFacts.storyConflict_key
                e0 olds stbl Hpks Hins Hids) as [Hrows _].
    exists (storyConflict olds e0). split; [exact Hrows |].
    simpl. repeat split; assumption.
  - unfold UpsertComment, excludedComment.
    rewrite (proj2 (storeFacts.commentFits_spec c) Hfc), Hnow. cbn [fst snd].
    split; [reflexivity |].
    match goal with |- context [upsert _ _ ?e _] => set (e0 := e) end.
    destruct (dbFacts.upsert_existing comments_id commentConflict
                storeFacts.commentConflict_key e0 oldc ctbl Hpkc Hinc Hidc) as [Hrows _].
    exists (commentConflict oldc e0). split; [exact Hrows |].
    simpl. repeat split; assumption.
Qed.

End StoreStatements.

(** ** ParseApiDate *)

Module dateFacts.
Import GoStr GoStrFacts db dbspec.

Lemma allb_append (p : ascii -> bool) (a b : string) :
  allb p (a +:+ b) = allb p a && allb p b.
Proof.
  induction a as [|c a IH]; [reflexivity |].
  rewrite append_cons. simpl. rewrite IH. now rewrite andb_assoc.
Qed.

Lemma allb_impl (p q : ascii -> bool) (s : string) :
  (forall a, p a = true -> q a = true) -> allb p s = true -> allb q s = true.
Proof.
  intros Hpq. induction s as [|c s IH]; [reflexivity |].
  simpl. intros Hp. apply andb_true_iff in Hp as [Hc Hs].
  now rewrite (Hpq _ Hc), IH.
Qed.


Lemma spanUpTo_complete (p : ascii -> bool) (n : nat) (x r : string) :
  allb p x = true -> (String.length x <= n)%nat ->
  String.length x = n \/ startsOutside p r ->
  spanUpTo p n (x +:+ r) = (x, r).
Proof.
  revert n. induction x as [|a x IH]; intros n Hall Hlen Hstop.
  - rewrite append_nil_l. destruct n as [|n]; [reflexivity |].
    destruct Hstop as [Hz | Hout]; [simpl in Hz; lia |].
    destruct r as [|b r]; [reflexivity |]. simpl in *. now rewrite Hout.
  - rewrite append_cons. simpl in Hall, Hlen. apply andb_true_iff in Hall as [Ha Hall].
    destruct n as [|n]; [lia |]. simpl. rewrite Ha.
    rewrite (IH n Hall); [reflexivity | lia |].
    destruct Hstop as [Hz | Hout]; [left; simpl in Hz; lia | now right].
Qed.

Lemma startsOutside_append (p q : ascii -> bool) (x r : string) :
  (forall a, p a = true -> q a = false) ->
  allb p x = true -> (1 <= String.length x)%nat -> startsOutside q (x +:+ r).
Proof.
  intros Hpq Hall Hlen. destruct x as [|a x]; [simpl in Hlen; lia |].
  rewrite append_cons. simpl in *. apply andb_true_iff in Hall as [Ha _]. now apply Hpq.
Qed.

Lemma space_not_digit (a : ascii) : isSpace a = true -> isDigit a = false.
Proof. destruct a as [[] [] [] [] [] [] [] []]; vm_compute; congruence. Qed.

Lemma word_not_space (a : ascii) : isWord a = true -> isSpace a = false.
Proof. destruct a as [[] [] [] [] [] [] [] []]; vm_compute; congruence. Qed.

Lemma digit_not_space (a : ascii) : isDigit a = true -> isSpace a = false.
Proof. destruct a as [[] [] [] [] [] [] [] []]; vm_compute; congruence. Qed.


Lemma reDigits12_complete (x r : string) :
  allb isDigit x = true -> (1 <= String.length x <= 2)%nat -> startsOutside isDigit r ->
  reDigits12 (x +:+ r) = Some (x, r).
Proof.
  intros Hall Hlen Hout. unfold reDigits12.
  rewrite (spanUpTo_complete isDigit 2 x r Hall); [| lia | now right].
  destruct (Nat.eqb_spec (String.length x) 0); [lia | reflexivity].
Qed.


Lemma reExactly_complete (p : ascii -> bool) (n : nat) (x r : string) :
  allb p x = true -> String.length x = n -> reExactly p n (x +:+ r) = Some (x, r).
Proof.
  intros Hall Hlen. unfold reExactly.
  rewrite (spanUpTo_complete p n x r Hall); [| lia | now left].
  destruct (Nat.eqb_spec (String.length x) n); [reflexivity | contradiction].
Qed.


Lemma reSpaces_complete (x r : string) :
  allb isSpace x = true -> (1 <= String.length x)%nat -> startsOutside isSpace r ->
  reSpaces (x +:+ r) = Some r.
Proof.
  intros Hall Hlen Hout. unfold reSpaces.
  rewrite (spanUpTo_complete isSpace _ x r Hall); [| rewrite length_append; lia | now right].
  destruct (Nat.eqb_spec (String.length x) 0); [lia | reflexivity].
Qed.


Lemma reLit_complete (lit r : string) : reLit lit (lit +:+ r) = Some r.
Proof. unfold reLit. now rewrite HasPrefix_append, substring_drop. Qed.


Lemma dateSubmatch_complete (s day mon year hh mm ampm : string) :
  apiDateFormat s day mon year hh mm ampm ->
  dateSubmatch s = Some (day, mon, year, hh, mm, ampm).
Proof.
  intros (ws1 & ws2 & ws3 & -> & Hd & Hdl & Hw1 & Hw1l & Hm & Hml & Hw2 & Hw2l & Hy & Hyl
          & Hw3 & Hw3l & Hh & Hhl & Hmi & Hmil & Hap).
  unfold dateSubmatch.
  rewrite (reDigits12_complete day _ Hd Hdl)
    by (apply (startsOutside_append isSpace isDigit); auto using space_not_digit).
  rewrite (reSpaces_complete ws1 _ Hw1 Hw1l)
    by (apply (startsOutside_append isWord isSpace); auto using word_not_space; lia).
  rewrite (reExactly_complete isWord 3 mon _ Hm Hml).
  rewrite (reSpaces_complete ws2 _ Hw2 Hw2l)
    by (apply (startsOutside_append isDigit isSpace); auto using digit_not_space; lia).
  rewrite (reExactly_complete isDigit 4 year _ Hy Hyl).
  rewrite (reLit_complete "," _).
  rewrite (reSpaces_complete ws3 _ Hw3 Hw3l)
    by (apply (startsOutside_append isDigit isSpace); auto using digit_not_space; lia).
  rewrite (reDigits12_complete hh _ Hh Hhl) by reflexivity.
  rewrite (reLit_complete ":" _).
  rewrite (reExactly_complete isDigit 2 mm _ Hmi Hmil).
  destruct Hap as [-> | ->]; reflexivity.
Qed.

End dateFacts.

Module parseFacts.
Import GoStr GoStrFacts db dbspec dateFacts.

Lemma digit_notSpace (a : ascii) : isDigit a = true -> notSpace a = true.
Proof. destruct a as [[] [] [] [] [] [] [] []]; vm_compute; congruence. Qed.

Lemma HasPrefix_space_T (a : ascii) (s : string) :
  notSpace a = true -> HasPrefix (String a s) " T" = false.
Proof.
  unfold notSpace. simpl. destruct (Ascii.eqb a " "); [discriminate | reflexivity].
Qed.

Lemma replaceFrom_nospace (fuel : nat) (s new : string) :
  allb notSpace s = true -> replaceFrom fuel s " T" new = s.
Proof.
  revert s. induction fuel as [|fuel IH]; intros s Hs; [reflexivity |].
  destruct s as [|a s]; [reflexivity |].
  simpl in Hs. apply andb_true_iff in Hs as [Ha Hs].
  cbn [replaceFrom]. rewrite (HasPrefix_space_T a s Ha). now rewrite IH.
Qed.

Lemma replaceFrom_prefix (fuel : nat) (x rest new : string) :
  allb notSpace x = true ->
  replaceFrom (String.length x + fuel) (x +:+ rest) " T" new =
  x +:+ replaceFrom fuel rest " T" new.
Proof.
  induction x as [|a x IH]; intros Hx; [reflexivity |].
  simpl in Hx. apply andb_true_iff in Hx as [Ha Hx].
  rewrite !append_cons. cbn [String.length Nat.add replaceFrom].
  rewrite (HasPrefix_space_T a _ Ha). now rewrite IH.
Qed.

Lemma replaceFrom_hit (fuel : nat) (a : ascii) (s old new : string) :
  HasPrefix (String a s) old = true ->
  replaceFrom (S fuel) (String a s) old new =
  new +:+ replaceFrom fuel
            (String.substring (String.length old)
                              (String.length (String a s) - String.length old) (String a s))
            old new.
Proof.
  intros Hp.
  transitivity
    (if HasPrefix (String a s) old
     then new +:+ replaceFrom fuel
                    (String.substring (String.length old)
                                      (String.length (String a s) - String.length old)
                                      (String a s)) old new
     else String a (replaceFrom fuel s old new)); [reflexivity |].
  now rewrite Hp.
Qed.

(** [ReplaceAll] removes the one space the format string puts before [T]. *)
Lemma ReplaceAll_space_T (x y : string) :
  allb notSpace x = true -> allb notSpace y = true ->
  ReplaceAll (x +:+ " T" +:+ y) " T" "T" = x +:+ "T" +:+ y.
Proof.
  intros Hx Hy. unfold ReplaceAll. rewrite length_append.
  rewrite (replaceFrom_prefix _ x _ _ Hx). f_equal.
  rewrite length_append. change (String.length " T" + String.length y)%nat
    with (S (S (String.length y))).
  pose proof (substring_drop " T" y) as Hdrop.
  pose proof (HasPrefix_append " T" y) as Hp.
  change (" T" +:+ y) with (String " " (String "T" y)) in *.
  rewrite (replaceFrom_hit _ _ _ _ _ Hp), Hdrop.
  now rewrite replaceFrom_nospace.
Qed.

Lemma digitVal_range (a : ascii) : isDigit a = true -> 0 <= digitVal a <= 9.
Proof.
  unfold isDigit, digitVal. intros H. apply andb_true_iff in H as [H1 H2].
  apply N.leb_le in H1, H2. lia.
Qed.

(** The value of one or two digits. *)
Lemma digitsVal_range (s : string) :
  allb isDigit s = true -> (String.length s <= 2)%nat -> 0 <= digitsVal 0 s <= 99.
Proof.
  intros Hd Hl. destruct s as [|a [|b [|c s]]]; simpl in *; try lia.
  - rewrite andb_true_r in Hd. pose proof (digitVal_range a Hd). lia.
  - rewrite andb_true_r in Hd. apply andb_true_iff in Hd as [Ha Hb].
    pose proof (digitVal_range a Ha). pose proof (digitVal_range b Hb). lia.
Qed.

Lemma Atoi_digit_head (a : ascii) (r : string) :
  isDigit a = true ->
  Atoi (String a r) =
  if allb isDigit (String a r)
  then (if (- 2 ^ 63 <=? digitsVal 0 (String a r)) && (digitsVal 0 (String a r) <=? 2 ^ 63 - 1)
        then Some (digitsVal 0 (String a r)) else None)
  else None.
Proof.
  destruct a as [[] [] [] [] [] [] [] []]; intros Ha; try discriminate Ha; reflexivity.
Qed.

(** [strconv.Atoi] on the hour group. *)
Lemma Atoi_hour (s : string) :
  allb isDigit s = true -> (1 <= String.length s <= 2)%nat -> Atoi s = Some (digitsVal 0 s).
Proof.
  intros Hd Hl. pose proof (digitsVal_range s Hd (proj2 Hl)) as Hr.
  destruct s as [|a r]; [simpl in Hl; lia |].
  assert (Ha : isDigit a = true) by (simpl in Hd; now apply andb_true_iff in Hd as [? _]).
  rewrite (Atoi_digit_head a r Ha), Hd.
  destruct (Z.leb_spec (- 2 ^ 63) (digitsVal 0 (String a r))); [| lia].
  destruct (Z.leb_spec (digitsVal 0 (String a r)) (2 ^ 63 - 1)); [reflexivity | lia].
Qed.

Lemma hour24_range (ampm : string) (h : Z) : 0 <= h <= 99 -> 0 <= hour24 ampm h <= 111.
Proof.
  intros Hh. unfold hour24.
  destruct (String.eqb ampm "PM" && negb (h =? 12));
    destruct (String.eqb ampm "AM"); simpl;
    repeat match goal with |- context [?x =? 12] => destruct (Z.eqb_spec x 12) end; lia.
Qed.

Lemma hour_text_notSpace (h : Z) :
  0 <= h <= 111 -> allb notSpace (padZero 2 (Itoa h)) = true.
Proof.
  intros Hh.
  assert (Hall : forallb (fun n => allb notSpace (padZero 2 (Itoa (Z.of_nat n)))) (seq 0 112)
                 = true) by (vm_compute; reflexivity).
  rewrite forallb_forall in Hall. specialize (Hall (Z.to_nat h)).
  rewrite Z2Nat.id in Hall by lia. apply Hall. apply in_seq. lia.
Qed.

Lemma lookupMonth_notSpace (mon monthNum : string) :
  lookupMonth months mon = Some monthNum -> allb notSpace monthNum = true.
Proof.
  unfold months. cbn [lookupMonth].
  repeat (match goal with
          | |- context [String.eqb ?k mon] => destruct (String.eqb k mon)
          end; [intros E; injection E as <-; reflexivity |]).
  discriminate.
Qed.

Lemma padZero_notSpace (w : nat) (s : string) :
  allb notSpace s = true -> allb notSpace (padZero w s) = true.
Proof.
  intros Hs. unfold padZero. rewrite allb_append, Hs, andb_true_r.
  induction (w - String.length s)%nat as [|n IH]; [reflexivity | exact IH].
Qed.

Lemma upperASCII_ampm (ampm : string) : ampm = "AM" \/ ampm = "PM" -> upperASCII ampm = ampm.
Proof. intros [-> | ->]; reflexivity. Qed.

(** What [ParseApiDate] returns on an input that has the format. *)
Lemma ParseApiDate_format (s day mon year hh mm ampm monthNum : string) :
  apiDateFormat s day mon year hh mm ampm ->
  lookupMonth months mon = Some monthNum ->
  ParseApiDate s =
  Some (year +:+ "-" +:+ monthNum +:+ "-" +:+ padZero 2 day +:+ "T"
             +:+ padZero 2 (Itoa (hour24 ampm (digitsVal 0 hh))) +:+ ":" +:+ mm +:+ ":00.000Z").
Proof.
  intros Hf Hmon. pose proof (dateSubmatch_complete _ _ _ _ _ _ _ Hf) as Hm.
  destruct Hf as (ws1 & ws2 & ws3 & Hs & Hd & Hdl & Hw1 & Hw1l & Hmo & Hmol & Hw2 & Hw2l
                  & Hy & Hyl & Hw3 & Hw3l & Hh & Hhl & Hmi & Hmil & Hap).
  unfold ParseApiDate.
  destruct (String.eqb_spec s "") as [E | _].
  { exfalso. subst s. destruct day; [simpl in Hdl; lia | discriminate]. }
  rewrite Hm, Hmon, (upperASCII_ampm _ Hap), (Atoi_hour hh Hh Hhl). f_equal.
  unfold sprintfDate.
  set (hour := padZero 2 (Itoa (hour24 ampm (digitsVal 0 hh)))).
  replace (year +:+ "-" +:+ monthNum +:+ "-" +:+ padZero 2 day +:+ " T"
                +:+ hour +:+ ":" +:+ mm +:+ ":00.000Z")
    with ((year +:+ "-" +:+ monthNum +:+ "-" +:+ padZero 2 day) +:+ " T"
                +:+ (hour +:+ ":" +:+ mm +:+ ":00.000Z"))
    by (now rewrite !append_assoc).
  rewrite ReplaceAll_space_T.
  - now rewrite !append_assoc.
  - rewrite !allb_append.
    rewrite (allb_impl _ _ _ digit_notSpace Hy), (lookupMonth_notSpace _ _ Hmon).
    rewrite (padZero_notSpace 2 day (allb_impl _ _ _ digit_notSpace Hd)). reflexivity.
  - rewrite !allb_append. unfold hour.
    rewrite hour_text_notSpace
      by (apply hour24_range, digitsVal_range; [exact Hh | lia]).
    rewrite (allb_impl _ _ _ digit_notSpace Hmi). reflexivity.
Qed.






End parseFacts.

(** ** The sync pass *)

Module syncFacts.
Section SyncFacts.
Context `{L : GoLib} `{R : !remote.Remote}.
Import remote sync syncspec db dbspec.

Lemma flagsKept_refl (st : Store) : flagsKept st st.
Proof. repeat split; auto. Qed.

Lemma flagsKept_trans (a b c : Store) : flagsKept a b -> flagsKept b c -> flagsKept a c.
Proof. intros (? & ? & ?) (? & ? & ?). repeat split; auto. Qed.

Lemma UpsertStory_accepted (now : string) (s : StoryRow) (tbl : list stories) :
  storyFits s -> TRY_CAST now <> None -> fst (UpsertStory now s tbl) = None.
Proof. intros Hf Hc. now apply storeFacts.UpsertStory_accepted_iff. Qed.

Lemma UpsertComment_accepted (now : string) (c : CommentRow) (tbl : list comments) :
  commentFits c -> TRY_CAST now <> None -> fst (UpsertComment now c tbl) = None.
Proof. intros Hf Hc. now apply storeFacts.UpsertComment_accepted_iff. Qed.

Lemma UpsertComment_keeps (now : string) (c : CommentRow) (tbl : list comments) (i : Z) :
  commentFlag i tbl = Some true -> commentFlag i (snd (UpsertComment now c tbl)) = Some true.
Proof.
  intros Hset. rewrite storeFacts.commentFlag_UpsertComment.
  destruct (fst (UpsertComment now c tbl)); [exact Hset |].
  destruct (i =? CommentRow_ID c); [| exact Hset]. now rewrite Hset, orb_true_r.
Qed.

Lemma Mark_keeps (storyID : Z) (tbl : list stories) (i : Z) :
  (storyFlag i tbl = Some true -> storyFlag i (snd (MarkStoryMentionsMe storyID tbl)) = Some true) /\
  (storyFlag i tbl <> None -> storyFlag i (snd (MarkStoryMentionsMe storyID tbl)) <> None).
Proof.
  rewrite storeFacts.storyFlag_MarkStoryMentionsMe.
  destruct (i =? storyID); [| tauto].
  destruct (storyFlag i tbl); split; congruence.
Qed.

Lemma Mark_sets (storyID : Z) (tbl : list stories) :
  storyFlag storyID tbl <> None ->
  storyFlag storyID (snd (MarkStoryMentionsMe storyID tbl)) = Some true.
Proof.
  intros Hex. rewrite storeFacts.storyFlag_MarkStoryMentionsMe, Z.eqb_refl.
  destruct (storyFlag storyID tbl); [reflexivity | contradiction].
Qed.

Lemma commentStep_kept cfg projectID storyID c now st :
  flagsKept st (commentStep cfg projectID storyID c now st).
Proof.
  unfold commentStep.
  pose proof (fun i => UpsertComment_keeps now (commentRow cfg projectID storyID c)
                         (Store_comments st) i) as Hc.
  destruct (UpsertComment now (commentRow cfg projectID storyID c) (Store_comments st))
    as [[e |] tbl]; simpl in Hc.
  - repeat split; auto.
  - destruct (mentionsUser cfg (api.Comment_Text c)).
    + repeat split; simpl; auto; intros i; apply Mark_keeps.
    + repeat split; auto.
Qed.

Lemma commentStep_marks cfg projectID storyID c now st :
  commentFits (commentRow cfg projectID storyID c) ->
  TRY_CAST now <> None -> mentionsUser cfg (api.Comment_Text c) = true ->
  commentFlag (api.Comment_ID c) (Store_comments (commentStep cfg projectID storyID c now st))
    = Some true /\
  (storyFlag storyID (Store_stories st) <> None ->
   storyFlag storyID (Store_stories (commentStep cfg projectID storyID c now st)) = Some true).
Proof.
  intros Hfit Hnow Hm. unfold commentStep.
  pose proof (storeFacts.commentFlag_UpsertComment now (commentRow cfg projectID storyID c)
                (Store_comments st) (api.Comment_ID c)) as Hf.
  pose proof (UpsertComment_accepted now (commentRow cfg projectID storyID c) (Store_comments st)
                Hfit Hnow) as Hok.
  destruct (UpsertComment now (commentRow cfg projectID storyID c) (Store_comments st))
    as [e tbl]. simpl in Hok, Hf. subst e. rewrite Hm. simpl. split.
  - rewrite Hf. simpl. rewrite Z.eqb_refl, Hm.
    destruct (commentFlag (api.Comment_ID c) (Store_comments st)); reflexivity.
  - apply Mark_sets.
Qed.

Lemma syncComments_step cfg projectID storyID c rest n st w :
  syncComments cfg projectID storyID (c :: rest) n st w =
  syncComments cfg projectID storyID rest
    (match fst (UpsertComment (fst (time_Now w)) (commentRow cfg projectID storyID c)
                              (Store_comments st)) with
     | Some _ => n
     | None => n + 1
     end)
    (commentStep cfg projectID storyID c (fst (time_Now w)) st) (snd (time_Now w)).
Proof.
  cbn [syncComments]. unfold commentStep. destruct (time_Now w) as [now w1]. simpl.
  destruct (UpsertComment now (commentRow cfg projectID storyID c) (Store_comments st))
    as [[e |] tbl]; reflexivity.
Qed.

Lemma syncComments_kept cfg projectID storyID cs n st w :
  flagsKept st (snd (fst (syncComments cfg projectID storyID cs n st w))).
Proof.
  revert n st w. induction cs as [|c rest IH]; intros n st w; [apply flagsKept_refl |].
  rewrite syncComments_step. eapply flagsKept_trans; [apply commentStep_kept | apply IH].
Qed.

Lemma syncComments_marks cfg projectID storyID cs n st w c :
  clockCasts -> commentFits (commentRow cfg projectID storyID c) ->
  In c cs -> mentionsUser cfg (api.Comment_Text c) = true ->
  let st' := snd (fst (syncComments cfg projectID storyID cs n st w)) in
  commentFlag (api.Comment_ID c) (Store_comments st') = Some true /\
  (storyFlag storyID (Store_stories st) <> None -> storyFlag storyID (Store_stories st') = Some true).
Proof.
  intros Hclock Hfit Hin Hm. revert n st w.
  induction cs as [|c0 rest IH]; intros n st w; [contradiction |].
  cbv zeta. rewrite syncComments_step.
  set (st1 := commentStep cfg projectID storyID c0 (fst (time_Now w)) st).
  pose proof (commentStep_kept cfg projectID storyID c0 (fst (time_Now w)) st) as (Hs1 & Hs2 & Hs3).
  fold st1 in Hs1, Hs2, Hs3.
  destruct Hin as [-> | Hin].
  - destruct (commentStep_marks cfg projectID storyID c (fst (time_Now w)) st Hfit (Hclock w) Hm)
      as [Hc Hs]. fold st1 in Hc, Hs.
    match goal with |- context [syncComments _ _ _ rest ?n1 st1 ?w1] =>
      pose proof (syncComments_kept cfg projectID storyID rest n1 st1 w1) as (Hk1 & Hk2 & Hk3)
    end.
    split; [now apply Hk3 | intros Hex; now apply Hk1, Hs].
  - match goal with |- context [syncComments _ _ _ rest ?n1 st1 ?w1] =>
      destruct (IH Hin n1 st1 w1) as [Hc Hs]
    end.
    split; [exact Hc | intros Hex; now apply Hs, Hs2].
Qed.

Lemma syncStoryComments_kept cfg projectID all n st w :
  flagsKept st (snd (fst (syncStoryComments cfg projectID all n st w))).
Proof.
  revert n st w. induction all as [|s rest IH]; intros n st w; [apply flagsKept_refl |].
  cbn [syncStoryComments].
  destruct (GetStoryComments projectID (api.Story_ID s) w) as [[cs | e] w1]; [| apply IH].
  pose proof (syncComments_kept cfg projectID (api.Story_ID s) cs n st w1) as Hk.
  destruct (syncComments cfg projectID (api.Story_ID s) cs n st w1) as [[n1 st1] w2].
  eapply flagsKept_trans; [exact Hk | apply IH].
Qed.

Lemma syncStoryComments_marks cfg projectID all n st w s c :
  clockCasts -> commentFits (commentRow cfg projectID (api.Story_ID s) c) ->
  In s all -> commentOn projectID (api.Story_ID s) c ->
  mentionsUser cfg (api.Comment_Text c) = true ->
  let st' := snd (fst (syncStoryComments cfg projectID all n st w)) in
  commentFlag (api.Comment_ID c) (Store_comments st') = Some true /\
  (storyFlag (api.Story_ID s) (Store_stories st) <> None ->
   storyFlag (api.Story_ID s) (Store_stories st') = Some true).
Proof.
  intros Hclock Hfit Hin Hon Hm. revert n st w.
  induction all as [|s0 rest IH]; intros n st w; [contradiction |].
  cbv zeta. cbn [syncStoryComments].
  destruct Hin as [-> | Hin].
  - destruct (Hon w) as (cs & w1 & -> & Hc).
    pose proof (syncComments_marks cfg projectID (api.Story_ID s) cs n st w1 c Hclock Hfit Hc Hm)
      as [Hcf Hsf].
    destruct (syncComments cfg projectID (api.Story_ID s) cs n st w1) as [[n1 st1] w2].
    simpl in Hcf, Hsf.
    destruct (syncStoryComments_kept cfg projectID rest n1 st1 w2) as (Hk1 & Hk2 & Hk3).
    split; [now apply Hk3 | intros Hex; now apply Hk1, Hsf].
  - destruct (GetStoryComments projectID (api.Story_ID s0) w) as [[cs | e] w1];
      [| apply (IH Hin)].
    destruct (syncComments_kept cfg projectID (api.Story_ID s0) cs n st w1) as (Hk1 & Hk2 & Hk3).
    destruct (syncComments cfg projectID (api.Story_ID s0) cs n st w1) as [[n1 st1] w2].
    simpl in Hk1, Hk2, Hk3.
    destruct (IH Hin n1 st1 w2) as [Hcf Hsf].
    split; [exact Hcf | intros Hex; now apply Hsf, Hk2].
Qed.

(** With a clock that casts every story that fits is upserted and
    counted. *)
Lemma upsertStories_all projectID (mine : gmap Z bool) all n tbl w :
  clockCasts ->
  (forall s, In s all -> storyFits (storyRow projectID false s)) ->
  let r := upsertStories projectID mine all n tbl w in
  fst (fst r) = n + Z.of_nat (length all) /\
  (forall s, In s all -> storyFlag (api.Story_ID s) (snd (fst r)) <> None) /\
  (forall i, storyFlag i tbl <> None -> storyFlag i (snd (fst r)) <> None).
Proof.
  intros Hclock Hfits. revert n tbl w.
  induction all as [|s rest IH]; intros n tbl w; cbv zeta.
  - simpl. repeat split; [lia | contradiction | auto].
  - cbn [upsertStories]. specialize (Hclock w) as Hnow. destruct (time_Now w) as [now w1].
    simpl in Hnow.
    set (row := storyRow projectID (lookupMine mine (api.Story_ID s)) s).
    assert (Hfit : storyFits row) by (apply (Hfits s); now left).
    pose proof (UpsertStory_accepted now row tbl Hfit Hnow) as Hok.
    pose proof (fun i => storeFacts.storyFlag_UpsertStory now row tbl i) as Hflag.
    destruct (UpsertStory now row tbl) as [e tbl1]. simpl in Hok, Hflag. subst e.
    destruct (IH (fun s' Hs' => Hfits s' (or_intror Hs')) (n + 1) tbl1 w1) as (Hn & Hall & Hkeep).
    assert (Hstep : forall i, storyFlag i tbl <> None -> storyFlag i tbl1 <> None).
    { intros i Hi. rewrite Hflag. destruct (i =? _); [congruence | exact Hi]. }
    repeat split.
    + rewrite Hn. simpl length. lia.
    + intros s' [<- | Hin]; [| now apply Hall].
      apply Hkeep. rewrite Hflag, Z.eqb_refl. congruence.
    + intros i Hi. now apply Hkeep, Hstep.
Qed.

End SyncFacts.
End syncFacts.

(** ** What the specification states about the poll loop *)

Section PollStatements.
Context `{L : GoLib} `{R : !remote.Remote}.
Import remote main pollspec.

(** C3, as amended.  The notifications of a poll cycle are, in order, those
    of the loop body at each activity the cycle processes, and the loop body
    emits the notification of an activity if and only if (a) the message of
    the activity is not empty and contains the configured user name as a
    case-insensitive substring, or (b) the JSON text of the new values of some
    change contains it, or (c) the kind of the activity is
    [comment_create_activity], whatever the texts are. *)
Theorem poll_notifies_relevant_activities
        (cfg : config.Config) (o : os.WriteOutcome) (state : pollState) (fs : os.FS) (w : World) :
  notifications (events (poll cfg o state fs w)) =
    flat_map (pollActivity cfg)
             (processed (LastPoll state) (config.ProjectIDs cfg) (snd (time_Now w))) /\
  forall a : api.Activity,
    (pollActivity cfg a = [notification a] <-> relevant cfg a) /\
    (pollActivity cfg a = [] <-> ~ relevant cfg a) /\
    (api.Activity_Kind a = "comment_create_activity" -> pollActivity cfg a = [notification a]).
Proof.
  split.
  - unfold poll. destruct (time_Now w) as [now w0]. simpl.
    pose proof (pollFacts.pollProjects_notifications cfg (LastPoll state)
                  (config.ProjectIDs cfg) w0) as Hn.
    destruct (pollProjects cfg (LastPoll state) (config.ProjectIDs cfg) w0) as [evs w1].
    exact Hn.
  - intros a. destruct (pollFacts.pollActivity_relevant cfg a) as [Hyes Hno].
    repeat split; try apply Hyes; try apply Hno.
    intros Hk. apply Hyes. right. right. exact Hk.
Qed.

(** C4.  A poll cycle leaves the cursor at the clock text it read when it
    started, whatever the fetches answered, failures included; when the write
    of the state file completes, the file holds that cursor and
    [loadPollState] reads it back; the cycle fetched every project with the
    cursor it started from, and the next cycle fetches every project with the
    advanced one. *)
Theorem poll_advances_cursor
        (cfg : config.Config) (state : pollState) (fs : os.FS) (w : World)
        (o o' : os.WriteOutcome) (fs' : os.FS) (w' w'' : World) (fault : bool) :
  let now := fst (time_Now w) in
  let done := poll cfg os.WriteDone state fs w in
  json_Unmarshal_lastPoll (json_MarshalIndent_lastPoll now) = Some now ->
  LastPoll (after (poll cfg o state fs w)) = now /\
  LastPoll (after done) = now /\
  disk done !! pollStatePath cfg = Some (json_MarshalIndent_lastPoll now) /\
  loadPollState cfg false (disk done) w'' = ({| LastPoll := now |}, w'') /\
  fetches (events done) = map (fun pid => (pid, LastPoll state)) (config.ProjectIDs cfg) /\
  fetches (events (poll cfg o' (after done) fs' w')) =
    map (fun pid => (pid, now)) (config.ProjectIDs cfg).
Proof.
  intros now done Hcodec.
  assert (Hafter : forall o1, LastPoll (after (poll cfg o1 state fs w)) = now).
  { intros o1. unfold poll, now. destruct (time_Now w) as [t w0].
    destruct (pollProjects cfg (LastPoll state) (config.ProjectIDs cfg) w0). reflexivity. }
  assert (Hdisk : disk done !! pollStatePath cfg = Some (json_MarshalIndent_lastPoll now)).
  { unfold done, poll, now. destruct (time_Now w) as [t w0].
    destruct (pollProjects cfg (LastPoll state) (config.ProjectIDs cfg) w0).
    simpl. unfold savePollState. simpl. apply lookup_insert_eq. }
  assert (Hfetch : forall o1 st1 fs1 w1,
             fetches (events (poll cfg o1 st1 fs1 w1)) =
             map (fun pid => (pid, LastPoll st1)) (config.ProjectIDs cfg)).
  { intros o1 st1 fs1 w1. unfold poll. destruct (time_Now w1) as [t w0].
    pose proof (pollFacts.pollProjects_fetches cfg (LastPoll st1) (config.ProjectIDs cfg) w0) as Hf.
    destruct (pollProjects cfg (LastPoll st1) (config.ProjectIDs cfg) w0). exact Hf. }
  repeat split.
  - apply Hafter.
  - apply Hafter.
  - exact Hdisk.
  - unfold loadPollState, os.ReadFile. rewrite Hdisk, Hcodec. reflexivity.
  - apply Hfetch.
  - rewrite Hfetch. unfold done. now rewrite (Hafter os.WriteDone).
Qed.

End PollStatements.

(** The relevance predicate in the words of C3 fails where no user name is
    configured and the message of the activity is empty: the empty message
    contains the empty name, and the loop body emits nothing. *)
Lemma relevance_as_stated_counterexample :
  pollspec.relevantAsStated (standin.cfg "") (standin.anActivity "story_update_activity" "") /\
  main.pollActivity (standin.cfg "") (standin.anActivity "story_update_activity" "") = [].
Proof.
  split; [| reflexivity].
  left. exists 0%nat. split; [simpl; lia |]. intros k Hk. simpl in Hk. lia.
Qed.

(** A cycle over projects 1, 2 and 3 in which the fetch of project 2 fails. *)
Lemma poll_advances_cursor_witness :
  let R := standin.scripted (standin.twoStories "") in
  let cfg := standin.cfg "alice" in
  let state := {| main.LastPoll := "2026-02-13T09:55:00Z" |} in
  let done := main.poll (R := R) cfg os.WriteDone state ∅ [] in
  main.LastPoll (main.after (main.poll (R := R) cfg os.WriteNotOpened state ∅ [])) =
    "2026-02-13T10:00:00Z" /\
  main.LastPoll (main.after done) = "2026-02-13T10:00:00Z" /\
  main.disk done !! main.pollStatePath cfg =
    Some (standin.marshalLastPoll "2026-02-13T10:00:00Z") /\
  main.loadPollState (R := R) cfg false (main.disk done) [] =
    ({| main.LastPoll := "2026-02-13T10:00:00Z" |}, []) /\
  pollspec.fetches (main.events done) =
    [(1, "2026-02-13T09:55:00Z"); (2, "2026-02-13T09:55:00Z"); (3, "2026-02-13T09:55:00Z")] /\
  pollspec.fetches (main.events (main.poll (R := R) cfg (os.WriteCut 3) (main.after done) ∅ [])) =
    [(1, "2026-02-13T10:00:00Z"); (2, "2026-02-13T10:00:00Z"); (3, "2026-02-13T10:00:00Z")].
Proof.
  exact (@poll_advances_cursor standin.lib (standin.scripted (standin.twoStories ""))
           (standin.cfg "alice") {| main.LastPoll := "2026-02-13T09:55:00Z" |} ∅ []
           os.WriteNotOpened (os.WriteCut 3) ∅ [] [] false eq_refl).
Defined.

Section DateStatement.
Context `{L : GoLib}.
Import GoStr db dbspec.


End DateStatement.

(** ** What the specification states about the sync pass *)

Section SyncStatements.
Context `{L : GoLib} `{R : !remote.Remote}.
Import remote sync syncspec.

Lemma mentionsUser_spec (cfg : config.Config) (text : string) :
  mentionsUser cfg text = true <-> text <> "" /\ namesUser cfg text.
Proof.
  unfold mentionsUser, namesUser. destruct (String.eqb_spec text "") as [E | E].
  - split; [discriminate | intros [Hne _]; contradiction].
  - rewrite orb_true_iff. tauto.
Qed.

Lemma collectMine_two (cfg : config.Config) (all : list api.Story) (mine other : api.Story) :
  all = [mine; other] \/ all = [other; mine] ->
  isMyStory cfg mine = true -> isMyStory cfg other = false ->
  size (collectMine cfg all) = 1%nat.
Proof.
  intros [-> | ->] Hm Ho; unfold collectMine; simpl; rewrite Hm, Ho;
    rewrite insert_empty; apply map_size_singleton.
Qed.

(** C9, as amended.  When the state lists fetched for a project hold two
    stories, one owned by the configured user and one not, in either order,
    and the store accepts their writes (every clock text casts to a
    timestamp, and the project id and the ids, estimates and requester ids
    of the stories fit the 32-bit [INTEGER] columns), [syncProject] returns
    [Stories = 2] and [Mine = 1]; and if the remote reports on the user's
    story a comment whose integers fit as well, and whose text is not empty
    and contains the configured user name as a case-insensitive substring,
    bare or after an [@], then the [mentions_me] of that comment and of the
    story are both true in the store. *)
Theorem syncProject_two_stories
        (cfg : config.Config) (projectID : Z) (st : Store) (w w1 : World)
        (all : list api.Story) (mine other : api.Story) (c : api.Comment) :
  clockCasts ->
  dbspec.storyFits (storyRow projectID false mine) ->
  dbspec.storyFits (storyRow projectID false other) ->
  fetchStates projectID states w = (all, w1) ->
  all = [mine; other] \/ all = [other; mine] ->
  isMyStory cfg mine = true ->
  isMyStory cfg other = false ->
  Stories (fst (fst (syncProject cfg projectID st w))) = 2 /\
  Mine (fst (fst (syncProject cfg projectID st w))) = 1 /\
  (commentOn projectID (api.Story_ID mine) c ->
   dbspec.commentFits (commentRow cfg projectID (api.Story_ID mine) c) ->
   api.Comment_Text c <> "" ->
   namesUser cfg (api.Comment_Text c) ->
   dbspec.commentFlag (api.Comment_ID c)
                      (Store_comments (snd (fst (syncProject cfg projectID st w)))) = Some true /\
   dbspec.storyFlag (api.Story_ID mine)
                    (Store_stories (snd (fst (syncProject cfg projectID st w)))) = Some true).
Proof.
  intros Hclock Hfm Hfo Hfetch Hall Hm Ho. unfold syncProject. rewrite Hfetch.
  assert (Hfits : forall s, In s all -> dbspec.storyFits (storyRow projectID false s)).
  { intros s Hs. destruct Hall as [-> | ->]; destruct Hs as [<- | [<- | []]]; assumption. }
  pose proof (syncFacts.upsertStories_all projectID (collectMine cfg all) all 0
                (Store_stories st) w1 Hclock Hfits) as (Hn & Hrows & _).
  destruct (upsertStories projectID (collectMine cfg all) all 0 (Store_stories st) w1)
    as [[nStories tbl] w2]. simpl in Hn, Hrows.
  set (st1 := {| Store_stories := tbl; Store_comments := Store_comments st |}).
  assert (Hin : In mine all) by (destruct Hall as [-> | ->]; simpl; auto).
  pose proof (fun Hfc Hon Hmu =>
                syncFacts.syncStoryComments_marks cfg projectID all 0 st1 w2 mine c
                  Hclock Hfc Hin Hon Hmu) as Hmarks.
  destruct (syncStoryComments cfg projectID all 0 st1 w2) as [[nComments st2] w3].
  simpl in *. split; [| split].
  - rewrite Hn. destruct Hall as [-> | ->]; reflexivity.
  - now rewrite (collectMine_two cfg all mine other Hall Hm Ho).
  - intros Hon Hfc Htext Hnames.
    destruct (Hmarks Hfc Hon) as [Hc Hs]; [apply mentionsUser_spec; auto |].
    split; [exact Hc | apply Hs, Hrows, Hin].
Qed.


End SyncStatements.

(** ** The session client *)

Module webFacts.
Section WebFacts.
Context `{L : GoLib} `{R : !remote.Remote}.
Import remote webclient webspec.

Lemma Do_loggedIn (req : Request) (wc : WebClient) (w : World) :
  loggedIn (snd (fst (Do req wc w))) = loggedIn wc.
Proof. unfold Do. destruct (webclient_Do req w). reflexivity. Qed.

Lemma Do_sent (req : Request) (wc : WebClient) (w : World) :
  sent (snd (fst (Do req wc w))) = (sent wc ++ [req])%list /\
  snd (Do req wc w) = snd (webclient_Do req w).
Proof. unfold Do. destruct (webclient_Do req w). split; reflexivity. Qed.

(** A login that succeeds leaves the client authenticated. *)
Lemma ensureLoggedIn_ok (cfg : config.Config) (wc wc' : WebClient) (w w' : World) :
  ensureLoggedIn cfg wc w = (None, wc', w') -> loggedIn wc' = true.
Proof.
  unfold ensureLoggedIn. destruct (loggedIn wc) eqn:El.
  { intros E. injection E as <- <-. exact El. }
  destruct (String.eqb (config.Email cfg) "" || String.eqb (config.Password cfg) "");
    [discriminate |].
  destruct (Get (config.WebURL cfg +:+ "/login") wc w) as [[[resp | e] wc1] w1];
    [| discriminate].
  destruct (csrf_FindSubmatch (Resp_Body resp)) as [token |]; [| discriminate].
  destruct (http_NewRequest "POST" (config.WebURL cfg +:+ "/login")); [discriminate |].
  match goal with |- context [Do ?req wc1 w1] =>
    destruct (Do req wc1 w1) as [[[resp2 | e2] wc2] w2] end; [| discriminate].
  destruct ((Resp_StatusCode resp2 =? 422) || (Resp_StatusCode resp2 =? 401));
    [discriminate |].
  intros E. injection E as <- <-. reflexivity.
Qed.

Lemma postComment_keepsSession cfg storyID text : keepsSession (postComment cfg storyID text).
Proof.
  intros wc w. unfold postComment.
  destruct (http_NewRequest "POST" _); [reflexivity |].
  match goal with |- context [Do ?req wc w] =>
    pose proof (Do_loggedIn req wc w) as Hd; destruct (Do req wc w) as [[[resp | e] wc1] w1]
  end; [| exact Hd].
  destruct (Resp_StatusCode resp >=? 400); [exact Hd |].
  destruct (json_Unmarshal_comment (Resp_Body resp)) as [[[[? ?] ?] ?] |]; exact Hd.
Qed.

Lemma addLabel_keepsSession cfg storyID projectID name :
  keepsSession (addLabel cfg storyID projectID name).
Proof.
  intros wc w. unfold addLabel.
  destruct (http_NewRequest "POST" _); [reflexivity |].
  match goal with |- context [Do ?req wc w] =>
    pose proof (Do_loggedIn req wc w) as Hd; destruct (Do req wc w) as [[[resp | e] wc1] w1]
  end; [| exact Hd].
  destruct (Resp_StatusCode resp >=? 400); [exact Hd |].
  destruct (json_Unmarshal_label (Resp_Body resp)) as [[? ?] |]; exact Hd.
Qed.

Lemma addOwner_keepsSession cfg storyID projectID ownerID :
  keepsSession (addOwner cfg storyID projectID ownerID).
Proof.
  intros wc w. unfold addOwner.
  destruct (GetStory projectID storyID w) as [[story | e] w1]; [| reflexivity].
  destruct (collectOwnerIDs (api.Story_Owners story) ownerID []); [| reflexivity].
  destruct (http_NewRequest "PUT" _); [reflexivity |].
  match goal with |- context [Do ?req wc w1] =>
    pose proof (Do_loggedIn req wc w1) as Hd; destruct (Do req wc w1) as [[[resp | e] wc1] w2]
  end; [| exact Hd].
  destruct (Resp_StatusCode resp >=? 400); exact Hd.
Qed.

(** The loop over the owners stops at the user id it looks for, and collects
    all the user ids otherwise. *)
Lemma collectOwnerIDs_spec (owners : list api.StoryOwner) (ownerID : Z) (ids : list Z) :
  (In ownerID (map api.StoryOwner_UserID owners) -> collectOwnerIDs owners ownerID ids = None) /\
  (~ In ownerID (map api.StoryOwner_UserID owners) ->
   collectOwnerIDs owners ownerID ids = Some (ids ++ map api.StoryOwner_UserID owners)%list).
Proof.
  revert ids. induction owners as [|o rest IH]; intros ids; simpl.
  - split; [contradiction | intros _; now rewrite app_nil_r].
  - destruct (Z.eqb_spec (api.StoryOwner_UserID o) ownerID) as [E | E].
    + split; [reflexivity | intros Hn; exfalso; apply Hn; now left].
    + destruct (IH (ids ++ [api.StoryOwner_UserID o])%list) as [Hin Hout]. split.
      * intros [Heq | Hr]; [contradiction | now apply Hin].
      * intros Hn. rewrite Hout by tauto. now rewrite <- app_assoc.
Qed.

End WebFacts.
End webFacts.

Section WebStatements.
Context `{L : GoLib} `{R : !remote.Remote}.
Import remote webclient webspec.

(** C5.  [addOwner] reads the story again through the read client.  When the
    user id is among the owners it returns that owner list as it is and
    sends nothing; so does [WebAddOwner] once the session is there.
    Otherwise it sends exactly one request, the replacement of the owner list
    by the user ids of the owners followed by the new user id. *)
Theorem addOwner_idempotent
        (cfg : config.Config) (storyID projectID ownerID : Z) (wc : WebClient) (w w1 : World)
        (story : api.Story) :
  GetStory projectID storyID w = (Ok story, w1) ->
  (In ownerID (map api.StoryOwner_UserID (api.Story_Owners story)) ->
   addOwner cfg storyID projectID ownerID wc w = (Ok (api.Story_Owners story), wc, w1) /\
   forall wc0 w0,
     ensureLoggedIn cfg wc0 w0 = (None, wc, w) ->
     WebAddOwner cfg projectID storyID ownerID wc0 w0 = (Ok (api.Story_Owners story), wc, w1)) /\
  (~ In ownerID (map api.StoryOwner_UserID (api.Story_Owners story)) ->
   http_NewRequest "PUT" (config.WebURL cfg +:+ "/api/v1/stories/" +:+ GoStr.Itoa storyID) = None ->
   let req := ownerReplace cfg storyID
                (map api.StoryOwner_UserID (api.Story_Owners story) ++ [ownerID]) in
   sent (snd (fst (addOwner cfg storyID projectID ownerID wc w))) = (sent wc ++ [req])%list /\
   snd (addOwner cfg storyID projectID ownerID wc w) = snd (webclient_Do req w1)).
Proof.
  intros Hget.
  destruct (webFacts.collectOwnerIDs_spec (api.Story_Owners story) ownerID []) as [Hin Hout].
  split.
  - intros Hown.
    assert (Hadd : addOwner cfg storyID projectID ownerID wc w
                   = (Ok (api.Story_Owners story), wc, w1)).
    { unfold addOwner. now rewrite Hget, (Hin Hown). }
    split; [exact Hadd |].
    intros wc0 w0 Hlogin. unfold WebAddOwner, withSession. now rewrite Hlogin, Hadd.
  - intros Hnot Hreq req. unfold addOwner. rewrite Hget, (Hout Hnot), Hreq. simpl app.
    fold (ownerReplace cfg storyID
            (map api.StoryOwner_UserID (api.Story_Owners story) ++ [ownerID])). fold req.
    destruct (webFacts.Do_sent req wc w1) as [Hs Hw].
    destruct (Do req wc w1) as [[[resp | e] wc1] w2]; simpl in Hs, Hw.
    + destruct (Resp_StatusCode resp >=? 400); split; assumption.
    + split; assumption.
Qed.

(** C6.  Each of the three write calls is the same wrapper around its
    operation.  The wrapper returns the result of the first attempt when it
    succeeds or fails without a mark of session expiry.  When the first
    attempt fails with an error text that contains [401] or [sign in], the
    client is marked unauthenticated and the login runs again; if the login
    fails, its error is returned; otherwise the operation runs exactly once
    more and its result, success or failure, is returned as it is, with the
    session authenticated. *)
Theorem session_expiry_retry
        {A : Type} (cfg : config.Config)
        (op : WebClient -> World -> Result A * WebClient * World)
        (wc wc1 wc2 : WebClient) (w w1 w2 : World) :
  (forall projectID storyID text,
      WebPostComment cfg projectID storyID text = withSession cfg (postComment cfg storyID text)) /\
  (forall projectID storyID name,
      WebAddLabel cfg projectID storyID name = withSession cfg (addLabel cfg storyID projectID name)) /\
  (forall projectID storyID ownerID,
      WebAddOwner cfg projectID storyID ownerID =
      withSession cfg (addOwner cfg storyID projectID ownerID)) /\
  (forall projectID storyID ownerID text name,
      keepsSession (postComment cfg storyID text) /\
      keepsSession (addLabel cfg storyID projectID name) /\
      keepsSession (addOwner cfg storyID projectID ownerID)) /\
  (forall e, sessionExpired e = true <->
             GoStr.Contains e "401" = true \/ GoStr.Contains e "sign in" = true) /\
  (ensureLoggedIn cfg wc w = (None, wc1, w1) ->
   (forall a, op wc1 w1 = (Ok a, wc2, w2) -> withSession cfg op wc w = (Ok a, wc2, w2)) /\
   (forall e, op wc1 w1 = (Err e, wc2, w2) -> sessionExpired e = false ->
              withSession cfg op wc w = (Err e, wc2, w2)) /\
   (forall e, op wc1 w1 = (Err e, wc2, w2) -> sessionExpired e = true ->
      (forall e' wc3 w3,
          ensureLoggedIn cfg (setLoggedIn false wc2) w2 = (Some e', wc3, w3) ->
          withSession cfg op wc w = (Err e', wc3, w3)) /\
      (forall wc3 w3,
          ensureLoggedIn cfg (setLoggedIn false wc2) w2 = (None, wc3, w3) ->
          withSession cfg op wc w = op wc3 w3 /\
          loggedIn wc3 = true /\
          (keepsSession op -> loggedIn (snd (fst (withSession cfg op wc w))) = true)))).
Proof.
  split; [reflexivity |]. split; [reflexivity |]. split; [reflexivity |].
  split.
  { intros projectID storyID ownerID text name.
    split; [apply webFacts.postComment_keepsSession |].
    split; [apply webFacts.addLabel_keepsSession | apply webFacts.addOwner_keepsSession]. }
  split.
  { intros e. unfold sessionExpired. apply orb_true_iff. }
  intros Hlogin. unfold withSession. rewrite Hlogin. split; [| split].
  - intros a Hop. now rewrite Hop.
  - intros e Hop Hexp. now rewrite Hop, Hexp.
  - intros e Hop Hexp. rewrite Hop, Hexp. split.
    + intros e' wc3 w3 Hre. now rewrite Hre.
    + intros wc3 w3 Hre. rewrite Hre.
      pose proof (webFacts.ensureLoggedIn_ok cfg _ _ _ _ Hre) as Hin.
      split; [reflexivity |]. split; [exact Hin |].
      intros Hkeep. now rewrite Hkeep.
Qed.

End WebStatements.

(** ** The snapshot *)

Module snapshotFacts.
Import GoStrFacts snapshot.

Lemma tmpPath_snapPath (cfg : config.Config) : tmpPath cfg <> snapPath cfg.
Proof.
  unfold tmpPath. intros E.
  assert (Hl : String.length (snapPath cfg +:+ ".tmp") = String.length (snapPath cfg))
    by now rewrite E.
  rewrite length_append in Hl. simpl in Hl. lia.
Qed.

Lemma dbPath_snapPath (cfg : config.Config) : dbPath cfg <> snapPath cfg.
Proof.
  unfold dbPath, snapPath, config.Join.
  destruct (String.eqb (config.DataDir cfg) ""); [discriminate |].
  intros E. apply append_inv_head in E. discriminate E.
Qed.

Lemma dbPath_tmpPath (cfg : config.Config) : dbPath cfg <> tmpPath cfg.
Proof.
  unfold dbPath, tmpPath, snapPath, config.Join.
  destruct (String.eqb (config.DataDir cfg) ""); [discriminate |].
  rewrite !append_assoc. intros E. apply append_inv_head in E. discriminate E.
Qed.

Lemma lookup_Remove (done : bool) (p q : string) (fs : os.FS) :
  p <> q -> os.Remove done p fs !! q = fs !! q.
Proof.
  intros Hne. unfold os.Remove. destruct done; [now apply lookup_delete_ne | reflexivity].
Qed.

Lemma lookup_writeProgress (o : os.WriteOutcome) (p q data : string) (fs fs' : os.FS) :
  p <> q -> In fs' (writeProgress o p data fs) -> fs' !! q = fs !! q.
Proof.
  intros Hne. unfold writeProgress.
  destruct o as [| | k]; [| contradiction |];
    intros Hin; apply in_map_iff in Hin as (n & <- & _); now apply lookup_insert_ne.
Qed.

Lemma lookup_WriteFile (o : os.WriteOutcome) (p q data : string) (fs : os.FS) :
  p <> q -> snd (os.WriteFile o p data fs) !! q = fs !! q.
Proof.
  intros Hne. destruct o as [| | k]; simpl; [| reflexivity |]; now apply lookup_insert_ne.
Qed.

(** Up to the rename the published path is not touched. *)
Lemma before_rename (cfg : config.Config) (run : Run) (fs fs' : os.FS) (data : string) :
  let fs1 := os.Remove (stale_removed run) (tmpPath cfg) fs in
  let fs2 := <[dbPath cfg := checkpointed run]> fs1 in
  In fs' ([fs; fs1; fs2] ++ writeProgress (write run) (tmpPath cfg) data fs2) ->
  fs' !! snapPath cfg = fs !! snapPath cfg.
Proof.
  intros fs1 fs2 Hin.
  assert (H1 : fs1 !! snapPath cfg = fs !! snapPath cfg)
    by (apply lookup_Remove, tmpPath_snapPath).
  assert (H2 : fs2 !! snapPath cfg = fs !! snapPath cfg)
    by (unfold fs2; rewrite lookup_insert_ne by apply dbPath_snapPath; exact H1).
  apply in_app_iff in Hin as [[<- | [<- | [<- | []]]] | Hin]; auto.
  rewrite (lookup_writeProgress _ _ _ _ _ _ (tmpPath_snapPath cfg) Hin). exact H2.
Qed.

End snapshotFacts.

Section SnapshotStatement.
Import snapshot snapshotFacts.

(** C7.  [CreateSnapshot] starts by removing the temporary file, writes the
    copy of the database file to the temporary path and publishes it by one
    rename.  In every state the file system goes through during a call, so
    also where a call is interrupted in the middle of the copy, the published
    path holds what it held before the call, or, once the rename has been
    done, the complete contents of the checkpointed database file.  A call
    that returns an error leaves the published path as it was; a call that
    returns nil leaves the complete copy there. *)
Theorem createSnapshot_atomic (cfg : config.Config) (run : Run) (fs : os.FS) :
  (exists (fs1 : os.FS) (rest : list os.FS),
      states cfg run fs = (fs :: fs1 :: rest)%list /\
      (stale_removed run = true -> fs1 !! tmpPath cfg = None)) /\
  (forall fs', In fs' (states cfg run fs) ->
               fs' !! snapPath cfg = fs !! snapPath cfg \/
               (fs' !! snapPath cfg = Some (checkpointed run) /\
                fst (CreateSnapshot cfg run fs) = None /\
                fs' = snd (CreateSnapshot cfg run fs))) /\
  List.last (states cfg run fs) fs = snd (CreateSnapshot cfg run fs) /\
  (fst (CreateSnapshot cfg run fs) = None ->
   snd (CreateSnapshot cfg run fs) !! snapPath cfg = Some (checkpointed run) /\
   snd (CreateSnapshot cfg run fs) !! dbPath cfg = Some (checkpointed run) /\
   snd (CreateSnapshot cfg run fs) !! tmpPath cfg = None) /\
  (fst (CreateSnapshot cfg run fs) <> None ->
   snd (CreateSnapshot cfg run fs) !! snapPath cfg = fs !! snapPath cfg).
Proof.
  pose proof (tmpPath_snapPath cfg) as Hts.
  pose proof (dbPath_snapPath cfg) as Hds.
  pose proof (dbPath_tmpPath cfg) as Hdt.
  pose proof (fun fs' data => before_rename cfg run fs fs' data) as Hbefore.
  cbv zeta in Hbefore.
  split.
  { eexists _, _. split; [reflexivity |]. intros ->. apply lookup_delete_eq. }
  revert Hbefore. unfold states, CreateSnapshot, Checkpoint. cbn [snd].
  set (fs1 := os.Remove (stale_removed run) (tmpPath cfg) fs).
  set (fs2 := <[dbPath cfg := checkpointed run]> fs1).
  intros Hbefore.
  assert (H2 : fs2 !! snapPath cfg = fs !! snapPath cfg).
  { apply (Hbefore fs2 ""). simpl. auto. }
  assert (Hprefix : forall fs', In fs' [fs; fs1; fs2] -> fs' !! snapPath cfg = fs !! snapPath cfg).
  { intros fs' Hin. apply (Hbefore fs' ""). apply in_app_iff. now left. }
  destruct (checkpoint_error run) as [e |].
  { cbn [fst snd]. rewrite app_nil_r. repeat split; try discriminate; auto. }
  unfold os.ReadFile. destruct (read_fault run).
  { cbn [fst snd]. rewrite app_nil_r. repeat split; try discriminate; auto. }
  assert (Hread : fs2 !! dbPath cfg = Some (checkpointed run)) by apply lookup_insert_eq.
  rewrite !Hread.
  specialize (fun fs' => Hbefore fs' (checkpointed run)).
  destruct (write run) as [| | k] eqn:Ew; cbn [os.WriteFile writeProgress].
  - (* the copy completes *)
    set (fs3 := <[tmpPath cfg := checkpointed run]> fs2).
    unfold os.Rename. destruct (rename_fault run).
    + cbn [fst snd]. rewrite !app_assoc, last_last.
      assert (H3 : os.Remove (cleanup_removed run) (tmpPath cfg) fs3 !! snapPath cfg
                   = fs !! snapPath cfg).
      { rewrite lookup_Remove by exact Hts. unfold fs3.
        rewrite lookup_insert_ne by exact Hts. exact H2. }
      repeat split; try discriminate; auto.
      intros fs' Hin. left. apply in_app_iff in Hin as [Hin | [<- | []]]; [| exact H3].
      apply Hbefore. exact Hin.
    + assert (Htmp : fs3 !! tmpPath cfg = Some (checkpointed run)) by apply lookup_insert_eq.
      rewrite !Htmp. cbn [fst snd].
      rewrite !app_assoc, last_last.
      set (fs4 := <[snapPath cfg := checkpointed run]> (delete (tmpPath cfg) fs3)).
      assert (H4 : fs4 !! snapPath cfg = Some (checkpointed run)) by apply lookup_insert_eq.
      repeat split; try discriminate; auto.
      * intros fs' Hin. apply in_app_iff in Hin as [Hin | [<- | []]]; [left | right; auto].
        apply Hbefore. exact Hin.
      * unfold fs4. rewrite lookup_insert_ne by (intros E; now apply Hds).
        rewrite lookup_delete_ne by (intros E; now apply Hdt). unfold fs3.
        rewrite lookup_insert_ne by (intros E; now apply Hdt). apply lookup_insert_eq.
      * unfold fs4. rewrite lookup_insert_ne by (intros E; now apply Hts).
        apply lookup_delete_eq.
      * intros Hn. now contradiction Hn.
  - (* the temporary file cannot be opened *)
    cbn [fst snd]. rewrite app_nil_l.
    change ([fs; fs1; fs2] ++ [os.Remove (cleanup_removed run) (tmpPath cfg) fs2])%list
      with ([fs; fs1; fs2; os.Remove (cleanup_removed run) (tmpPath cfg) fs2]).
    assert (H3 : os.Remove (cleanup_removed run) (tmpPath cfg) fs2 !! snapPath cfg
                 = fs !! snapPath cfg) by (rewrite lookup_Remove by exact Hts; exact H2).
    repeat split; try discriminate; auto.
    intros fs' [<- | [<- | [<- | [<- | []]]]]; left; auto; apply Hprefix; simpl; auto.
  - (* the copy is cut *)
    set (fs3 := <[tmpPath cfg := String.substring 0 k (checkpointed run)]> fs2).
    cbn [fst snd]. rewrite !app_assoc, last_last.
    assert (H3 : os.Remove (cleanup_removed run) (tmpPath cfg) fs3 !! snapPath cfg
                 = fs !! snapPath cfg).
    { rewrite lookup_Remove by exact Hts. unfold fs3.
      rewrite lookup_insert_ne by exact Hts. exact H2. }
    repeat split; try discriminate; auto.
    intros fs' Hin. left. apply in_app_iff in Hin as [Hin | [<- | []]]; [| exact H3].
    apply Hbefore. exact Hin.
Qed.

End SnapshotStatement.

(** ** The statements at concrete inputs *)

(** The integers of a concrete payload fit their columns. *)
Ltac fits :=
  unfold dbspec.storyFits, dbspec.commentFits, dbspec.optFits, dbspec.fitsInt32; simpl; lia.

Section Witnesses.
Import standin.

(** A story whose flag is set, then upserted with the flag off, then other
    calls. *)
Lemma mentions_me_monotonic_witness :
  dbspec.storyFlag 1 [storedStory 1 1 "old" true] = Some true /\
  dbspec.storyFlag 1
    (dbspec.calls [dbspec.CallUpsertStory "2026-02-13T10:00:00Z" (storyPayload 1 1 "new" false);
                   dbspec.CallMarkStoryMentionsMe 2;
                   dbspec.CallUpsertStory "2026-02-13T10:05:00Z" (storyPayload 2 1 "other" false)]
                  [storedStory 1 1 "old" true]) = Some true.
Proof.
  split; [reflexivity |].
  exact (proj1 (@mentions_me_monotonic lib [storedStory 1 1 "old" true] _ 1
                  "2026-02-13T10:00:00Z" (storyPayload 1 1 "new" false) eq_refl)).
Defined.

(** In the words of C2 the stored row would take every incoming value; the
    project of a story, and the story, project and creation time of a comment,
    stay as stored. *)
Lemma upsert_existing_id_counterexample :
  fst (db.UpsertStory "2026-02-13T10:00:00Z" (storyPayload 1 2 "new" false)
                      [storedStory 1 1 "old" false]) = None /\
  map db.stories_project_id
      (snd (db.UpsertStory "2026-02-13T10:00:00Z" (storyPayload 1 2 "new" false)
                           [storedStory 1 1 "old" false])) = [1] /\
  map db.stories_project_id
      (snd (db.UpsertStory "2026-02-13T10:00:00Z" (storyPayload 1 2 "new" false)
                           [storedStory 1 1 "old" false]))
    <> [db.StoryRow_ProjectID (storyPayload 1 2 "new" false)] /\
  fst (db.UpsertComment "2026-02-13T10:00:00Z" (commentPayload 50 6 2 "new" false)
                        [storedComment 50 5 1 "old" false]) = None /\
  map db.comments_story_id
      (snd (db.UpsertComment "2026-02-13T10:00:00Z" (commentPayload 50 6 2 "new" false)
                             [storedComment 50 5 1 "old" false])) = [5] /\
  map db.comments_story_id
      (snd (db.UpsertComment "2026-02-13T10:00:00Z" (commentPayload 50 6 2 "new" false)
                             [storedComment 50 5 1 "old" false]))
    <> [db.CommentRow_StoryID (commentPayload 50 6 2 "new" false)] /\
  map db.comments_created_at
      (snd (db.UpsertComment "2026-02-13T10:00:00Z" (commentPayload 50 6 2 "new" false)
                             [storedComment 50 5 1 "old" false]))
    <> [db.castApiDate (db.CommentRow_CreatedAt (commentPayload 50 6 2 "new" false))].
Proof. vm_compute. repeat split; discriminate. Qed.

Lemma upsert_existing_id_witness :
  TRY_CAST "2026-02-13T10:00:00Z" = Some "2026-02-13T10:00:00Z" /\
  dbspec.rowsWith db.stories_id 1
    (snd (db.UpsertStory "2026-02-13T10:00:00Z" (storyPayload 1 2 "new" false)
                         [storedStory 1 1 "old" true]))
  = [db.storyConflict (storedStory 1 1 "old" true)
       {| db.stories_id := 1; db.stories_project_id := 2; db.stories_title := "new";
          db.stories_description := None; db.stories_story_type := Some "feature";
          db.stories_current_state := Some "started"; db.stories_estimate := Some 2;
          db.stories_priority := None; db.stories_url := None;
          db.stories_requested_by_id := None; db.stories_owner_names := Some "Alice";
          db.stories_label_names := None; db.stories_is_mine := true;
          db.stories_mentions_me := false;
          db.stories_created_at := Some "2026-02-11T04:30:00.000Z";
          db.stories_updated_at := Some "2026-02-12T16:05:00.000Z";
          db.stories_synced_at := "2026-02-13T10:00:00Z" |}] /\
  fst (db.UpsertStory "2026-02-13T10:00:00Z" (storyPayload 1 2 "new" false)
                      [storedStory 1 1 "old" true]) = None /\
  fst (db.UpsertComment "2026-02-13T10:00:00Z" (commentPayload 50 6 2 "new" false)
                        [storedComment 50 5 1 "old" true]) = None.
Proof.
  pose proof (@upsert_existing_id lib "2026-02-13T10:00:00Z" "2026-02-13T10:00:00Z"
                (storyPayload 1 2 "new" false) [storedStory 1 1 "old" true]
                (storedStory 1 1 "old" true)
                (commentPayload 50 6 2 "new" false) [storedComment 50 5 1 "old" true]
                (storedComment 50 5 1 "old" true)
                eq_refl ltac:(fits) ltac:(fits)
                (List.NoDup_cons 1 (@in_nil Z 1) (List.NoDup_nil Z))
                (or_introl eq_refl) eq_refl
                (List.NoDup_cons 50 (@in_nil Z 50) (List.NoDup_nil Z))
                (or_introl eq_refl) eq_refl) as [[Hs _] [Hc _]].
  split; [reflexivity |]. split; [reflexivity |]. split; [exact Hs | exact Hc].
Defined.

(** A comment-creation activity that names nobody is notified. *)
Lemma poll_notifies_relevant_activities_witness :
  main.pollActivity (cfg "alice") (anActivity "comment_create_activity" "Bob commented")
  = [main.Notify "LiteTracker" "Bob: Bob commented"].
Proof.
  exact (proj2 (proj2 (proj2 (@poll_notifies_relevant_activities lib
                                (scripted (twoStories "")) (cfg "alice") os.WriteDone
                                {| main.LastPoll := "" |} ∅ [])
                             (anActivity "comment_create_activity" "Bob commented")))
               eq_refl).
Defined.

(** Story 1 is owned by user 7: adding user 7 sends nothing. *)
Lemma addOwner_idempotent_witness :
  let R := scripted (twoStories "") in
  let wc := {| webclient.loggedIn := true; webclient.sent := [] |} in
  remote.GetStory (Remote := R) 1 1 [] = (Ok (aStory 1 "started" [owner 7 "Alice"]), []) /\
  In 7 (map api.StoryOwner_UserID [owner 7 "Alice"]) /\
  webclient.addOwner (R := R) (cfg "alice") 1 1 7 wc [] = (Ok [owner 7 "Alice"], wc, []).
Proof.
  split; [reflexivity |]. split; [now left |].
  exact (proj1 (proj1 (@addOwner_idempotent lib (scripted (twoStories "")) (cfg "alice") 1 1 7
                         {| webclient.loggedIn := true; webclient.sent := [] |} [] []
                         (aStory 1 "started" [owner 7 "Alice"]) eq_refl)
                      (or_introl eq_refl))).
Defined.

(** A session that has expired: the comment is refused with status 401, the
    login runs again, and the second attempt goes through. *)
Lemma session_expiry_retry_witness :
  let R := scripted (twoStories "") in
  let wc := {| webclient.loggedIn := true; webclient.sent := [] |} in
  let replies := [reply 401 "Please sign in"; reply 200 "<meta name=csrf-token content=x>";
                  reply 302 ""; reply 201 "{}"] in
  webclient.sessionExpired "post comment failed (status 401): Please sign in" = true /\
  fst (fst (webclient.WebPostComment (R := R) (cfg "alice") 1 1 "hello" wc replies))
  = Ok {| api.Comment_ID := 0; api.Comment_Text := "hello"; api.Comment_PersonID := 0;
          api.Comment_Person := None; api.Comment_CreatedAt := "";
          api.Comment_UpdatedAt := "" |} /\
  webclient.loggedIn
    (snd (fst (webclient.WebPostComment (R := R) (cfg "alice") 1 1 "hello" wc replies))) = true /\
  length (webclient.sent
            (snd (fst (webclient.WebPostComment (R := R) (cfg "alice") 1 1 "hello" wc replies))))
  = 4%nat.
Proof.
  intros R wc replies.
  pose proof (@session_expiry_retry lib R api.Comment (cfg "alice")
                (webclient.postComment (cfg "alice") 1 "hello")
                wc wc
                (snd (fst (webclient.postComment (R := R) (cfg "alice") 1 "hello" wc replies)))
                replies replies
                (snd (webclient.postComment (R := R) (cfg "alice") 1 "hello" wc replies)))
    as (_ & _ & _ & _ & _ & Hretry).
  destruct (Hretry eq_refl) as (_ & _ & Hexp).
  destruct (Hexp "post comment failed (status 401): Please sign in" eq_refl eq_refl)
    as [_ Hok].
  destruct (Hok _ _ eq_refl) as (Hres & _ & _).
  split; [reflexivity |]. unfold webclient.WebPostComment. rewrite Hres.
  repeat split.
Defined.

(** A copy that is cut after three bytes, over a published snapshot. *)
Lemma createSnapshot_atomic_witness :
  let run := {| snapshot.stale_removed := true; snapshot.checkpoint_error := None;
                snapshot.checkpointed := "database"; snapshot.read_fault := false;
                snapshot.write := os.WriteCut 3; snapshot.rename_fault := false;
                snapshot.cleanup_removed := true |} in
  let fs : os.FS := {[ snapshot.snapPath (cfg "alice") := "published" ]} in
  fst (snapshot.CreateSnapshot (cfg "alice") run fs) <> None /\
  snd (snapshot.CreateSnapshot (cfg "alice") run fs) !! snapshot.snapPath (cfg "alice")
  = fs !! snapshot.snapPath (cfg "alice").
Proof.
  intros run fs.
  assert (Herr : fst (snapshot.CreateSnapshot (cfg "alice") run fs) <> None) by discriminate.
  split; [exact Herr |].
  exact (proj2 (proj2 (proj2 (proj2 (createSnapshot_atomic (cfg "alice") run fs)))) Herr).
Defined.



Lemma clockCasts_scripted (sc : Script) :
  tryCast (clock sc) <> None -> syncspec.clockCasts (R := scripted sc).
Proof. intros Hc w. exact Hc. Defined.

(** The project of [twoStories] with the comment of the specification. *)
Lemma syncProject_two_stories_witness :
  let R := scripted (twoStories "hey @alice can you check this") in
  let st := {| sync.Store_stories := []; sync.Store_comments := [] |} in
  sync.Stories (fst (fst (sync.syncProject (R := R) (cfg "alice") 1 st []))) = 2 /\
  sync.Mine (fst (fst (sync.syncProject (R := R) (cfg "alice") 1 st []))) = 1 /\
  dbspec.commentFlag 50
    (sync.Store_comments (snd (fst (sync.syncProject (R := R) (cfg "alice") 1 st []))))
  = Some true /\
  dbspec.storyFlag 1
    (sync.Store_stories (snd (fst (sync.syncProject (R := R) (cfg "alice") 1 st []))))
  = Some true.
Proof.
  intros R st.
  assert (Hclock : syncspec.clockCasts (R := R))
    by (apply clockCasts_scripted; vm_compute; discriminate).
  pose proof (@syncProject_two_stories lib R (cfg "alice") 1 st [] []
                [aStory 1 "started" [owner 7 "Alice"]; aStory 2 "unstarted" [owner 8 "Bob"]]
                (aStory 1 "started" [owner 7 "Alice"]) (aStory 2 "unstarted" [owner 8 "Bob"])
                (aComment 50 "hey @alice can you check this")
                Hclock ltac:(fits) ltac:(fits) eq_refl (or_introl eq_refl) eq_refl eq_refl)
    as (Hn & Hm & Hc).
  split; [exact Hn |]. split; [exact Hm |].
  apply Hc.
  - intros w. exists [aComment 50 "hey @alice can you check this"], w.
    split; [reflexivity | now left].
  - fits.
  - discriminate.
  - left. reflexivity.
Defined.

(** In the words of C9 the comment of the user's story would be flagged as
    soon as its text contains the user name.  With no user name configured
    and a comment without text the text contains the name, and neither the
    comment nor the story is flagged. *)
Lemma syncProject_two_stories_counterexample :
  syncspec.namesUser (cfg "") (api.Comment_Text (aComment 50 "")) /\
  sync.isMyStory (cfg "") (aStory 1 "started" [owner 7 "Alice"]) = true /\
  sync.Stories (fst (fst (sync.syncProject (R := scripted (twoStories "")) (cfg "") 1
                            {| sync.Store_stories := []; sync.Store_comments := [] |} []))) = 2 /\
  sync.Mine (fst (fst (sync.syncProject (R := scripted (twoStories "")) (cfg "") 1
                         {| sync.Store_stories := []; sync.Store_comments := [] |} []))) = 1 /\
  dbspec.commentFlag 50
    (sync.Store_comments
       (snd (fst (sync.syncProject (R := scripted (twoStories "")) (cfg "") 1
                    {| sync.Store_stories := []; sync.Store_comments := [] |} []))))
  = Some false /\
  dbspec.storyFlag 1
    (sync.Store_stories
       (snd (fst (sync.syncProject (R := scripted (twoStories "")) (cfg "") 1
                    {| sync.Store_stories := []; sync.Store_comments := [] |} []))))
  = Some false.
Proof. split; [left; reflexivity |]. vm_compute. repeat split. Qed.


End Witnesses.

(** * Further properties of the code *)

(** ** The two text searches *)

Module searchFacts.
Import GoStr GoStrFacts main pollspec.

Lemma lowerASCII_cons (a : ascii) (s : string) :
  standin.lowerASCII (String a s) = String (foldByte a) (standin.lowerASCII s).
Proof. reflexivity. Qed.

Lemma occursAt_nil (s : string) : occursAt s "" 0.
Proof. split; simpl; [lia | intros k Hk; lia]. Qed.

Lemma occursAt_cons_0 (a b : ascii) (s u : string) :
  occursAt (String a s) (String b u) 0 <-> foldByte a = foldByte b /\ occursAt s u 0.
Proof.
  unfold occursAt. simpl String.length. split.
  - intros [Hlen Hk]. split; [exact (Hk O ltac:(lia)) |]. split; [lia |].
    intros k Hlt. exact (Hk (S k) ltac:(lia)).
  - intros [Hab [Hlen Hk]]. split; [lia |].
    intros [|k] Hlt; [exact Hab |]. exact (Hk k ltac:(lia)).
Qed.

Lemma occursAt_cons_S (a : ascii) (s u : string) (i : nat) :
  occursAt (String a s) u (S i) <-> occursAt s u i.
Proof. unfold occursAt. simpl String.length. split; intros [Hlen Hk]; (split; [lia | exact Hk]). Qed.

Lemma HasPrefix_lower (s u : string) :
  HasPrefix (standin.lowerASCII s) (standin.lowerASCII u) = true <-> occursAt s u 0.
Proof.
  revert s. induction u as [|b u IH]; intros s.
  - split; [intros _; apply occursAt_nil | intros _; now destruct (standin.lowerASCII s)].
  - destruct s as [|a s].
    + split; [discriminate | intros [Hlen _]; simpl in Hlen; lia].
    + rewrite !lowerASCII_cons, occursAt_cons_0. simpl HasPrefix.
      rewrite andb_true_iff, Ascii.eqb_eq, IH. reflexivity.
Qed.

Lemma Contains_lower (s u : string) :
  Contains (standin.lowerASCII s) (standin.lowerASCII u) = true <-> containsFold s u.
Proof.
  unfold containsFold. induction s as [|a s IH].
  - change (standin.lowerASCII "") with "". rewrite Contains_unfold, orb_false_r.
    change "" with (standin.lowerASCII "") at 1. rewrite HasPrefix_lower. split.
    + intros H. now exists O.
    + intros [i [Hlen Hk]]. simpl in Hlen. assert (i = O) by lia. subst i. now split.
  - rewrite lowerASCII_cons, Contains_unfold, orb_true_iff, IH, <- lowerASCII_cons, HasPrefix_lower.
    split.
    + intros [H | [i H]].
      * now exists O.
      * exists (S i). now apply occursAt_cons_S.
    + intros [[|i] H].
      * now left.
      * right. exists i. now apply occursAt_cons_S in H.
Qed.

Lemma bool_eq_iff (a b : bool) : (a = true <-> b = true) -> a = b.
Proof. destruct a, b; intros [H1 H2]; auto; symmetry; auto. Qed.

Lemma containsIgnoreCase_Contains (s u : string) :
  containsIgnoreCase s u = Contains (standin.lowerASCII s) (standin.lowerASCII u).
Proof.
  apply bool_eq_iff. rewrite Contains_lower. apply pollFacts.containsIgnoreCase_spec.
Qed.

End searchFacts.

Section SearchStatements.
Context `{L : GoLib} `{R : !remote.Remote}.
Import GoStr main pollspec sync.

(** X1. [containsIgnoreCase], the hand-written search of the poll loop,
    returns [true] exactly when the second text occurs in the first at some
    offset up to the case of the ASCII letters, and that is the answer
    [strings.Contains] gives once both texts are lower-cased byte by byte. *)
Theorem containsIgnoreCase_finds_every_occurrence (s substr : string) :
  (containsIgnoreCase s substr = true <-> containsFold s substr) /\
  containsIgnoreCase s substr =
    Contains (standin.lowerASCII s) (standin.lowerASCII substr).
Proof.
  split.
  - apply pollFacts.containsIgnoreCase_spec.
  - apply searchFacts.containsIgnoreCase_Contains.
Qed.

(** X2. In [mentionsUser] the search for the name after an [@] adds
    nothing: the result is [true] exactly when the text is not empty and its
    lower-cased form contains the lower-cased user name. *)
Theorem mentionsUser_at_sign_is_redundant (cfg : config.Config) (text : string) :
  mentionsUser cfg text =
  negb (String.eqb text "") &&
  Contains (strings_ToLower text) (strings_ToLower (config.Username cfg)).
Proof.
  unfold mentionsUser. destruct (String.eqb text ""); [reflexivity |]. simpl.
  destruct (Contains (strings_ToLower text) (strings_ToLower (config.Username cfg))) eqn:Hc;
    [reflexivity |].
  simpl. destruct (Contains (strings_ToLower text) ("@" +:+ _)) eqn:Hat; [| reflexivity].
  apply GoStrFacts.Contains_at_sign in Hat. congruence.
Qed.

(** X3. On the texts that [strings.ToLower] lower-cases byte by byte, as
    it does every ASCII text, the sync pass and the poll loop agree:
    [mentionsUser] flags a non-empty comment exactly when
    [containsIgnoreCase] finds the user name in it. *)
Theorem mentionsUser_agrees_with_containsIgnoreCase (cfg : config.Config) (text : string) :
  strings_ToLower text = standin.lowerASCII text ->
  strings_ToLower (config.Username cfg) = standin.lowerASCII (config.Username cfg) ->
  text <> "" ->
  mentionsUser cfg text = containsIgnoreCase text (config.Username cfg).
Proof.
  intros Htext Hname Hne. unfold mentionsUser.
  destruct (String.eqb_spec text ""); [contradiction |].
  rewrite searchFacts.containsIgnoreCase_Contains, Htext, Hname.
  destruct (Contains (standin.lowerASCII text) (standin.lowerASCII (config.Username cfg))) eqn:Hc;
    [reflexivity |].
  simpl. destruct (Contains (standin.lowerASCII text) ("@" +:+ _)) eqn:Hat; [| reflexivity].
  apply GoStrFacts.Contains_at_sign in Hat. congruence.
Qed.

End SearchStatements.

(** ** The rows of the store *)

Module rowFacts.
Section Rows.
Context {R : Type} (key : R -> Z).

Lemma filter_fixed (f : R -> R) (k : Z) (tbl : list R) :
  (forall r, key (f r) = key r) -> (forall r, key r = k -> f r = r) ->
  List.filter (fun r => key r =? k) (map f tbl) = List.filter (fun r => key r =? k) tbl.
Proof.
  intros Hkey Hfix. induction tbl as [|a tbl IH]; [reflexivity |].
  simpl. rewrite Hkey, IH. destruct (Z.eqb_spec (key a) k) as [E | E]; [| reflexivity].
  now rewrite (Hfix a E).
Qed.

Lemma rowsWith_upsert_other (conflict : R -> R -> R) (e : R) (k : Z) (tbl : list R) :
  (forall old x, key (conflict old x) = key old) -> k <> key e ->
  dbspec.rowsWith key k (db.upsert key conflict e tbl) = dbspec.rowsWith key k tbl.
Proof.
  intros Hkey Hne. unfold dbspec.rowsWith, db.upsert.
  destruct (existsb (fun r => key r =? key e) tbl).
  - apply filter_fixed.
    + intros r. now apply dbFacts.upsert_key.
    + intros r Hr. destruct (Z.eqb_spec (key r) (key e)); [congruence | reflexivity].
  - rewrite List.filter_app. simpl.
    destruct (Z.eqb_spec (key e) k); [congruence | apply app_nil_r].
Qed.

Lemma upsert_absent (conflict : R -> R -> R) (e : R) (tbl : list R) :
  ~ In (key e) (map key tbl) -> db.upsert key conflict e tbl = (tbl ++ [e])%list.
Proof.
  intros Hfresh. unfold db.upsert.
  destruct (existsb (fun r => key r =? key e) tbl) eqn:Ex; [| reflexivity].
  apply existsb_exists in Ex as (r & Hin & Hr). apply Z.eqb_eq in Hr.
  exfalso. apply Hfresh. rewrite <- Hr. now apply in_map.
Qed.

Lemma upsert_length (conflict : R -> R -> R) (e : R) (tbl : list R) :
  (length tbl <= length (db.upsert key conflict e tbl))%nat.
Proof.
  unfold db.upsert. destruct (existsb _ tbl).
  - now rewrite List.length_map.
  - rewrite List.length_app. lia.
Qed.

End Rows.

Section Stories.
Context `{L : GoLib}.
Import db dbspec storespec.

Lemma sameButFlag_refl (r : stories) : sameButFlag r r.
Proof. repeat split. Qed.

Lemma sameButFlag_trans (a b c : stories) : sameButFlag a b -> sameButFlag b c -> sameButFlag a c.
Proof. unfold sameButFlag. intuition congruence. Qed.

Lemma mirrors_sameButFlag (s : StoryRow) (r r' : stories) :
  mirrors s r -> sameButFlag r r' -> mirrors s r'.
Proof. unfold mirrors, sameButFlag. intuition congruence. Qed.

Lemma mark_marked (storyID : Z) (tbl : list stories) :
  Forall2 (marked storyID) tbl (snd (MarkStoryMentionsMe storyID tbl)).
Proof.
  unfold MarkStoryMentionsMe. cbn [snd].
  induction tbl as [|r tbl IH]; simpl; constructor; [| exact IH].
  unfold marked. destruct (stories_id r =? storyID); [| reflexivity].
  split; [repeat split | reflexivity].
Qed.

Lemma mark_absent (storyID : Z) (tbl : list stories) :
  ~ In storyID (map stories_id tbl) -> snd (MarkStoryMentionsMe storyID tbl) = tbl.
Proof.
  unfold MarkStoryMentionsMe. cbn [snd].
  induction tbl as [|r tbl IH]; intros Hfresh; [reflexivity |].
  simpl in *. destruct (Z.eqb_spec (stories_id r) storyID) as [E | E]; [tauto |].
  f_equal. apply IH. tauto.
Qed.

Lemma mark_idempotent (storyID : Z) (tbl : list stories) :
  snd (MarkStoryMentionsMe storyID (snd (MarkStoryMentionsMe storyID tbl))) =
  snd (MarkStoryMentionsMe storyID tbl).
Proof.
  unfold MarkStoryMentionsMe. cbn [snd]. rewrite List.map_map.
  apply List.map_ext. intros r.
  destruct (stories_id r =? storyID) eqn:E; simpl; now rewrite E.
Qed.

Lemma storyAt_mark (storyID i : Z) (tbl : list stories) (r : stories) :
  storyAt i tbl = Some r ->
  exists r', storyAt i (snd (MarkStoryMentionsMe storyID tbl)) = Some r' /\ sameButFlag r r'.
Proof.
  unfold storyAt, MarkStoryMentionsMe. cbn [snd]. intros Hf.
  rewrite (dbFacts.find_map_key stories_id)
    by (intros x; destruct (stories_id x =? storyID); reflexivity).
  rewrite Hf. simpl. eexists. split; [reflexivity |].
  destruct (stories_id r =? storyID); repeat split.
Qed.

Lemma storyAt_UpsertStory (now : string) (s : StoryRow) (tbl : list stories) (i : Z) :
  storyAt i (snd (UpsertStory now s tbl)) =
  match excludedStory now s with
  | Err _ => storyAt i tbl
  | Ok e =>
      if i =? StoryRow_ID s then
        Some (match storyAt i tbl with Some old => storyConflict old e | None => e end)
      else storyAt i tbl
  end.
Proof.
  unfold UpsertStory. destruct (excludedStory now s) as [e | msg] eqn:Ee; [| reflexivity].
  destruct (storeFacts.excludedStory_inv _ _ _ Ee) as [Hid _]. cbn [snd]. unfold storyAt.
  destruct (Z.eqb_spec i (StoryRow_ID s)) as [-> | Hne].
  - rewrite <- Hid,
      (dbFacts.find_upsert_same stories_id storyConflict storeFacts.storyConflict_key).
    now destruct (List.find (fun r => stories_id r =? stories_id e) tbl).
  - apply (dbFacts.find_upsert_other stories_id storyConflict storeFacts.storyConflict_key).
    congruence.
Qed.

Lemma excludedStory_mirrors (now : string) (s : StoryRow) (e old : stories) :
  excludedStory now s = Ok e -> mirrors s e /\ (stories_id old = StoryRow_ID s -> mirrors s (storyConflict old e)).
Proof.
  unfold excludedStory. destruct (firstOverflow _); [discriminate |].
  destruct (TRY_CAST now); [| discriminate].
  intros E. injection E as <-. split; [repeat split |].
  intros Hid. repeat split. exact Hid.
Qed.

Lemma UpsertStory_primaryKey (now : string) (s : StoryRow) (tbl : list stories) :
  primaryKey stories_id tbl -> primaryKey stories_id (snd (UpsertStory now s tbl)).
Proof. apply (storeFacts.calls_primaryKey [CallUpsertStory now s]). Qed.

Lemma mark_primaryKey (storyID : Z) (tbl : list stories) :
  primaryKey stories_id tbl -> primaryKey stories_id (snd (MarkStoryMentionsMe storyID tbl)).
Proof. apply (storeFacts.calls_primaryKey [CallMarkStoryMentionsMe storyID]). Qed.

Lemma UpsertComment_primaryKey (now : string) (c : CommentRow) (tbl : list comments) :
  primaryKey comments_id tbl -> primaryKey comments_id (snd (UpsertComment now c tbl)).
Proof.
  intros Hpk. unfold UpsertComment. destruct (excludedComment now c) as [e | msg]; [| exact Hpk].
  now apply (dbFacts.upsert_primaryKey comments_id commentConflict storeFacts.commentConflict_key).
Qed.

End Stories.
End rowFacts.

Section RowStatements.
Context `{L : GoLib}.
Import db dbspec storespec.

(** X4. A write to the store touches one id: [UpsertStory],
    [UpsertComment] and [MarkStoryMentionsMe] leave the rows stored under
    every other id as they are, and a table never gets shorter. *)
Theorem writes_touch_one_id
        (now : string) (s : StoryRow) (c : CommentRow) (storyID : Z)
        (stbl : list stories) (ctbl : list comments) (k : Z) :
  (k <> StoryRow_ID s ->
   rowsWith stories_id k (snd (UpsertStory now s stbl)) = rowsWith stories_id k stbl) /\
  (k <> CommentRow_ID c ->
   rowsWith comments_id k (snd (UpsertComment now c ctbl)) = rowsWith comments_id k ctbl) /\
  (k <> storyID ->
   rowsWith stories_id k (snd (MarkStoryMentionsMe storyID stbl)) = rowsWith stories_id k stbl) /\
  (length stbl <= length (snd (UpsertStory now s stbl)))%nat /\
  (length ctbl <= length (snd (UpsertComment now c ctbl)))%nat /\
  length (snd (MarkStoryMentionsMe storyID stbl)) = length stbl.
Proof.
  repeat split.
  - intros Hne. unfold UpsertStory.
    destruct (excludedStory now s) as [e | msg] eqn:Ee; [| reflexivity].
    destruct (storeFacts.excludedStory_inv _ _ _ Ee) as [Hid _]. cbn [snd].
    apply rowFacts.rowsWith_upsert_other; [apply storeFacts.storyConflict_key | congruence].
  - intros Hne. unfold UpsertComment.
    destruct (excludedComment now c) as [e | msg] eqn:Ee; [| reflexivity].
    destruct (storeFacts.excludedComment_inv _ _ _ Ee) as [Hid _]. cbn [snd].
    apply rowFacts.rowsWith_upsert_other; [apply storeFacts.commentConflict_key | congruence].
  - intros Hne. unfold MarkStoryMentionsMe, rowsWith. cbn [snd].
    apply rowFacts.filter_fixed.
    + intros r. destruct (stories_id r =? storyID); reflexivity.
    + intros r Hr. destruct (Z.eqb_spec (stories_id r) storyID); [congruence | reflexivity].
  - unfold UpsertStory. destruct (excludedStory now s); cbn [snd];
      [apply rowFacts.upsert_length | lia].
  - unfold UpsertComment. destruct (excludedComment now c); cbn [snd];
      [apply rowFacts.upsert_length | lia].
  - unfold MarkStoryMentionsMe. cbn [snd]. apply List.length_map.
Qed.

(** X5. At a clock text that casts, an upsert of an id that is not stored
    yet, whose integers fit the 32-bit [INTEGER] columns, appends one row,
    and that row carries every field of the payload: for a new id also the
    columns that the conflict clause would keep ([project_id] of a story,
    [story_id], [project_id] and [created_at] of a comment).  A payload
    with an integer that does not fit is refused, whatever the table
    holds, and the table stays as it is. *)
Theorem upsert_new_id
        (now : string) (synced : Timestamp)
        (s : StoryRow) (stbl : list stories) (c : CommentRow) (ctbl : list comments) :
  TRY_CAST now = Some synced ->
  storyFits s ->
  commentFits c ->
  ~ In (StoryRow_ID s) (map stories_id stbl) ->
  ~ In (CommentRow_ID c) (map comments_id ctbl) ->
  (forall (s' : StoryRow) (tbl : list stories),
      ~ storyFits s' ->
      fst (UpsertStory now s' tbl) <> None /\ snd (UpsertStory now s' tbl) = tbl) /\
  (forall (c' : CommentRow) (tbl : list comments),
      ~ commentFits c' ->
      fst (UpsertComment now c' tbl) <> None /\ snd (UpsertComment now c' tbl) = tbl) /\
  (exists r : stories,
      UpsertStory now s stbl = (None, (stbl ++ [r])%list) /\
      mirrors s r /\
      stories_project_id r = StoryRow_ProjectID s /\
      stories_mentions_me r = StoryRow_MentionsMe s /\
      stories_synced_at r = synced) /\
  (exists r : comments,
      UpsertComment now c ctbl = (None, (ctbl ++ [r])%list) /\
      comments_id r = CommentRow_ID c /\
      comments_story_id r = CommentRow_StoryID c /\
      comments_project_id r = CommentRow_ProjectID c /\
      comments_text r = CommentRow_Text c /\
      comments_person_id r = CommentRow_PersonID c /\
      comments_person_name r = CommentRow_PersonName c /\
      comments_mentions_me r = CommentRow_MentionsMe c /\
      comments_created_at r = castApiDate (CommentRow_CreatedAt c) /\
      comments_synced_at r = synced).
Proof.
  intros Hnow Hfs Hfc Hs Hc. split; [| split; [| split]].
  - intros s' tbl Hno.
    assert (Herr : fst (UpsertStory now s' tbl) <> None)
      by (intros Hok; apply storeFacts.UpsertStory_accepted_iff in Hok as [Hf _]; contradiction).
    split; [exact Herr | now apply storeFacts.UpsertStory_refused].
  - intros c' tbl Hno.
    assert (Herr : fst (UpsertComment now c' tbl) <> None)
      by (intros Hok; apply storeFacts.UpsertComment_accepted_iff in Hok as [Hf _]; contradiction).
    split; [exact Herr | now apply storeFacts.UpsertComment_refused].
  - unfold UpsertStory, excludedStory.
    rewrite (proj2 (storeFacts.storyFits_spec s) Hfs), Hnow. eexists. split.
    + rewrite rowFacts.upsert_absent by exact Hs. reflexivity.
    + repeat split.
  - unfold UpsertComment, excludedComment.
    rewrite (proj2 (storeFacts.commentFits_spec c) Hfc), Hnow. eexists. split.
    + rewrite rowFacts.upsert_absent by exact Hc. reflexivity.
    + repeat split.
Qed.

(** X6. [MarkStoryMentionsMe] never adds a row, and with a store that
    runs its [UPDATE] it reports no error, also for an id that is not
    stored: the rows of the given id get [mentions_me] set and keep every
    other column, the other rows are as before; for an id that is not stored
    nothing changes, and a second call changes nothing more. *)
Theorem MarkStoryMentionsMe_sets_one_flag (storyID : Z) (tbl : list stories) :
  fst (MarkStoryMentionsMe storyID tbl) = None /\
  Forall2 (marked storyID) tbl (snd (MarkStoryMentionsMe storyID tbl)) /\
  (~ In storyID (map stories_id tbl) -> snd (MarkStoryMentionsMe storyID tbl) = tbl) /\
  snd (MarkStoryMentionsMe storyID (snd (MarkStoryMentionsMe storyID tbl))) =
    snd (MarkStoryMentionsMe storyID tbl).
Proof.
  split; [reflexivity |]. split; [apply rowFacts.mark_marked |].
  split; [apply rowFacts.mark_absent | apply rowFacts.mark_idempotent].
Qed.

End RowStatements.

(** ** The sync pass on the store *)

Module passFacts.
Section PassFacts.
Context `{L : GoLib} `{R : !remote.Remote}.
Import remote sync syncspec db dbspec storespec.

(** [syncProject] as the composition of its four loops. *)
Lemma syncProject_loops (cfg : config.Config) (projectID : Z) (st : Store) (w : World) :
  let fetched := fetchStates projectID states w in
  let mine := collectMine cfg (fst fetched) in
  let up := upsertStories projectID mine (fst fetched) 0 (Store_stories st) (snd fetched) in
  let st1 := {| Store_stories := snd (fst up); Store_comments := Store_comments st |} in
  let cm := syncStoryComments cfg projectID (fst fetched) 0 st1 (snd up) in
  syncProject cfg projectID st w =
  ({| Stories := fst (fst up); Mine := Z.of_nat (size mine); Comments := fst (fst cm) |},
   snd (fst cm), snd cm).
Proof.
  cbv zeta. unfold syncProject. destruct (fetchStates projectID states w) as [all w1]. cbn [fst snd].
  destruct (upsertStories projectID (collectMine cfg all) all 0 (Store_stories st) w1)
    as [[n tbl] w2]. cbn [fst snd].
  now destruct (syncStoryComments cfg projectID all 0 _ w2) as [[nc st2] w3].
Qed.

(** *** The story loop *)

Lemma upsertStories_step projectID (mine : gmap Z bool) s rest n tbl w :
  upsertStories projectID mine (s :: rest) n tbl w =
  let row := storyRow projectID (lookupMine mine (api.Story_ID s)) s in
  let up := UpsertStory (fst (time_Now w)) row tbl in
  upsertStories projectID mine rest
                (match fst up with Some _ => n | None => n + 1 end) (snd up) (snd (time_Now w)).
Proof.
  cbn [upsertStories]. cbv zeta. destruct (time_Now w) as [now w1]. cbn [fst snd].
  now destruct (UpsertStory now _ tbl) as [[e |] tbl1].
Qed.

Lemma upsertStories_kept projectID (mine : gmap Z bool) all n tbl w (i : Z) :
  let tbl' := snd (fst (upsertStories projectID mine all n tbl w)) in
  (storyFlag i tbl = Some true -> storyFlag i tbl' = Some true) /\
  (storyFlag i tbl <> None -> storyFlag i tbl' <> None).
Proof.
  cbv zeta. revert n tbl w. induction all as [|s rest IH]; intros n tbl w; [now split |].
  rewrite upsertStories_step. cbv zeta.
  set (row := storyRow projectID (lookupMine mine (api.Story_ID s)) s).
  pose proof (storeFacts.storyFlag_UpsertStory (fst (time_Now w)) row tbl i) as Hflag.
  match goal with |- context [upsertStories _ _ rest ?n1 ?t1 ?w1] =>
    destruct (IH n1 t1 w1) as [IH1 IH2]
  end.
  split; intros H.
  - apply IH1. rewrite Hflag. destruct (fst (UpsertStory _ row tbl)); [exact H |].
    destruct (i =? StoryRow_ID row); [| exact H]. now rewrite H, orb_true_r.
  - apply IH2. rewrite Hflag. destruct (fst (UpsertStory _ row tbl)); [exact H |].
    destruct (i =? StoryRow_ID row); [congruence | exact H].
Qed.

Lemma upsertStories_primaryKey projectID (mine : gmap Z bool) all n tbl w :
  primaryKey stories_id tbl ->
  primaryKey stories_id (snd (fst (upsertStories projectID mine all n tbl w))).
Proof.
  revert n tbl w. induction all as [|s rest IH]; intros n tbl w Hpk; [exact Hpk |].
  rewrite upsertStories_step. cbv zeta. apply IH. now apply rowFacts.UpsertStory_primaryKey.
Qed.

Lemma upsertStories_count projectID (mine : gmap Z bool) all n tbl w :
  n <= fst (fst (upsertStories projectID mine all n tbl w)) <= n + Z.of_nat (length all).
Proof.
  revert n tbl w. induction all as [|s rest IH]; intros n tbl w; [simpl; lia |].
  rewrite upsertStories_step. cbv zeta.
  match goal with |- context [upsertStories _ _ rest ?n1 ?t1 ?w1] =>
    pose proof (IH n1 t1 w1) as Hrest
  end.
  simpl length. destruct (fst (UpsertStory _ _ tbl)); lia.
Qed.

(** The rows under an id are not written when every entry of that id is
    refused. *)
Lemma upsertStories_refused projectID (mine : gmap Z bool) all n tbl w (i : Z) :
  (forall s, In s all -> api.Story_ID s = i -> ~ storyFits (storyRow projectID false s)) ->
  storyAt i (snd (fst (upsertStories projectID mine all n tbl w))) = storyAt i tbl.
Proof.
  revert n tbl w. induction all as [|s rest IH]; intros n tbl w Hno; [reflexivity |].
  rewrite upsertStories_step. cbv zeta.
  rewrite IH by (intros s' Hs'; apply Hno; now right).
  rewrite rowFacts.storyAt_UpsertStory.
  destruct (excludedStory _ _) as [e | msg] eqn:Ee; [| reflexivity].
  cbn [StoryRow_ID storyRow]. destruct (Z.eqb_spec i (api.Story_ID s)) as [-> | _]; [| reflexivity].
  exfalso. apply (Hno s (or_introl eq_refl) eq_refl).
  exact (storeFacts.excludedStory_fits _ _ _ Ee).
Qed.

(** With a clock that casts, the row under an id holds what the last entry
    of that id that fits says. *)
Lemma upsertStories_last projectID (mine : gmap Z bool) (pre post : list api.Story) n tbl w
      (s : api.Story) :
  clockCasts ->
  storyFits (storyRow projectID false s) ->
  (forall s', In s' post -> api.Story_ID s' = api.Story_ID s ->
              ~ storyFits (storyRow projectID false s')) ->
  exists r,
    storyAt (api.Story_ID s)
            (snd (fst (upsertStories projectID mine (pre ++ s :: post) n tbl w))) = Some r /\
    mirrors (storyRow projectID (lookupMine mine (api.Story_ID s)) s) r.
Proof.
  intros Hclock Hfit Hlast. revert n tbl w. induction pre as [|s0 pre IH]; intros n tbl w.
  - rewrite app_nil_l, upsertStories_step. cbv zeta.
    rewrite upsertStories_refused by exact Hlast. rewrite rowFacts.storyAt_UpsertStory.
    set (row := storyRow projectID (lookupMine mine (api.Story_ID s)) s).
    destruct (excludedStory (fst (time_Now w)) row) as [e | msg] eqn:Ee.
    + change (StoryRow_ID row) with (api.Story_ID s). rewrite Z.eqb_refl.
      eexists. split; [reflexivity |].
      destruct (storyAt (api.Story_ID s) tbl) as [old |] eqn:Eold.
      * apply (proj2 (rowFacts.excludedStory_mirrors _ _ _ old Ee)).
        unfold storyAt in Eold. apply find_some in Eold as [_ Ek]. now apply Z.eqb_eq in Ek.
      * apply (proj1 (rowFacts.excludedStory_mirrors _ _ _ e Ee)).
    + exfalso. destruct (storeFacts.excludedStory_refused _ _ _ Ee) as [Hno | Hnone].
      * apply Hno. exact Hfit.
      * now apply (Hclock w).
  - rewrite <- app_comm_cons, upsertStories_step. cbv zeta. apply IH.
Qed.

(** With a clock that casts, the row of a story that fits and is fetched
    once holds what was fetched. *)
Lemma upsertStories_mirrors projectID (mine : gmap Z bool) all n tbl w (s : api.Story) :
  clockCasts -> storyFits (storyRow projectID false s) ->
  List.NoDup (map api.Story_ID all) -> In s all ->
  exists r, storyAt (api.Story_ID s) (snd (fst (upsertStories projectID mine all n tbl w))) = Some r /\
            mirrors (storyRow projectID (lookupMine mine (api.Story_ID s)) s) r.
Proof.
  intros Hclock Hfit Hnd Hin. apply in_split in Hin as (pre & post & ->).
  apply upsertStories_last; [exact Hclock | exact Hfit |].
  intros s' Hs' Hid. exfalso.
  rewrite map_app in Hnd. apply List.NoDup_remove_2 in Hnd. apply Hnd.
  apply in_or_app. right. rewrite <- Hid. now apply in_map.
Qed.

(** The counter of the story loop: an entry is counted when its integers
    fit and the clock text read at its upsert casts. *)
Lemma upsertStories_accepted projectID (mine : gmap Z bool) all n tbl w :
  fst (fst (upsertStories projectID mine all n tbl w)) =
  n + Z.of_nat (length (List.filter (accepted projectID) (combine all (clocks (length all) w)))).
Proof.
  revert n tbl w. induction all as [|s rest IH]; intros n tbl w; [simpl; lia |].
  rewrite upsertStories_step. cbv zeta. rewrite IH.
  cbn [length clocks combine List.filter]. unfold accepted at 2, fitting. cbn [fst snd].
  set (row := storyRow projectID (lookupMine mine (api.Story_ID s)) s).
  pose proof (storeFacts.UpsertStory_accepted_iff (fst (time_Now w)) row tbl) as Hiff.
  change (storyFits row) with (storyFits (storyRow projectID false s)) in Hiff.
  destruct (fst (UpsertStory (fst (time_Now w)) row tbl)) as [e |].
  - assert (Hno : bool_decide (storyFits (storyRow projectID false s))
                  && bool_decide (is_Some (TRY_CAST (fst (time_Now w)))) = false).
    { apply not_true_is_false. intros Hyes. apply andb_true_iff in Hyes as [H1 H2].
      apply bool_decide_eq_true in H1, H2.
      assert (Hnone : Some e = None) by (apply Hiff; split; [exact H1 |];
                                          destruct H2 as [t Ht]; rewrite Ht; discriminate).
      discriminate. }
    rewrite Hno. lia.
  - destruct (proj1 Hiff eq_refl) as [H1 H2].
    rewrite (bool_decide_eq_true_2 _ H1).
    rewrite bool_decide_eq_true_2
      by (destruct (TRY_CAST (fst (time_Now w))); [now eexists | contradiction]).
    cbn [andb length]. lia.
Qed.

(** With a clock that casts the entries that fit are the ones counted. *)
Lemma accepted_fitting projectID (all : list api.Story) (w : World) :
  clockCasts ->
  length (List.filter (accepted projectID) (combine all (clocks (length all) w))) =
  length (List.filter (fitting projectID) all).
Proof.
  intros Hclock. revert w. induction all as [|s rest IH]; intros w; [reflexivity |].
  cbn [length clocks combine List.filter]. unfold accepted at 1. cbn [fst snd].
  rewrite (bool_decide_eq_true_2 (is_Some (TRY_CAST (fst (time_Now w)))))
    by (specialize (Hclock w); destruct (TRY_CAST (fst (time_Now w))); [now eexists | contradiction]).
  rewrite andb_true_r. destruct (fitting projectID s); cbn [length]; now rewrite IH.
Qed.

(** *** [myStoryIDs] *)

Lemma lookupMine_fold (cfg : config.Config) (all : list api.Story) (m : gmap Z bool) (i : Z) :
  lookupMine (fold_left (fun m s => if isMyStory cfg s then <[api.Story_ID s := true]> m else m)
                        all m) i =
  lookupMine m i || existsb (ownedEntry cfg i) all.
Proof.
  revert m. induction all as [|s rest IH]; intros m; [now rewrite orb_false_r |].
  simpl. rewrite IH. unfold ownedEntry at 2.
  destruct (isMyStory cfg s); [| now rewrite andb_false_r].
  rewrite andb_true_r, orb_assoc. f_equal. unfold lookupMine.
  destruct (Z.eqb_spec (api.Story_ID s) i) as [-> | Hne].
  - rewrite lookup_insert_eq. now rewrite orb_true_r.
  - rewrite lookup_insert_ne by exact Hne. now rewrite orb_false_r.
Qed.

Lemma lookupMine_collectMine (cfg : config.Config) (all : list api.Story) (i : Z) :
  lookupMine (collectMine cfg all) i = existsb (ownedEntry cfg i) all.
Proof. unfold collectMine. now rewrite lookupMine_fold. Qed.

Lemma same_id_same_story (all : list api.Story) (s s' : api.Story) :
  List.NoDup (map api.Story_ID all) -> In s all -> In s' all ->
  api.Story_ID s' = api.Story_ID s -> s' = s.
Proof.
  induction all as [|a all IH]; intros Hnd Hs Hs' Hid; [contradiction |].
  simpl in Hnd. apply List.NoDup_cons_iff in Hnd as [Hfresh Hnd].
  destruct Hs as [-> | Hs], Hs' as [-> | Hs'].
  - reflexivity.
  - exfalso. apply Hfresh. rewrite <- Hid. now apply in_map.
  - exfalso. apply Hfresh. rewrite Hid. now apply in_map.
  - now apply IH.
Qed.

Lemma lookupMine_unique (cfg : config.Config) (all : list api.Story) (s : api.Story) :
  List.NoDup (map api.Story_ID all) -> In s all ->
  lookupMine (collectMine cfg all) (api.Story_ID s) = isMyStory cfg s.
Proof.
  intros Hnd Hin. rewrite lookupMine_collectMine. apply searchFacts.bool_eq_iff.
  rewrite existsb_exists. unfold ownedEntry. split.
  - intros (s' & Hin' & Hs'). apply andb_true_iff in Hs' as [Hid Hm]. apply Z.eqb_eq in Hid.
    now rewrite <- (same_id_same_story all s s' Hnd Hin Hin' Hid).
  - intros Hm. exists s. now rewrite Z.eqb_refl, Hm.
Qed.

Lemma size_fold_mine (cfg : config.Config) (all : list api.Story) (m : gmap Z bool) :
  (size (fold_left (fun m s => if isMyStory cfg s then <[api.Story_ID s := true]> m else m)
                   all m) <= size m + length all)%nat.
Proof.
  revert m. induction all as [|s rest IH]; intros m; [simpl; lia |].
  simpl. etransitivity; [apply IH |].
  destruct (isMyStory cfg s); [| lia].
  destruct (m !! api.Story_ID s) eqn:E.
  - rewrite map_size_insert_Some by (now rewrite E). lia.
  - rewrite map_size_insert_None by exact E. lia.
Qed.

Lemma fold_mine_true (cfg : config.Config) (all : list api.Story) (m : gmap Z bool) (i : Z)
      (b : bool) :
  (forall j c, m !! j = Some c -> c = true) ->
  fold_left (fun m s => if isMyStory cfg s then <[api.Story_ID s := true]> m else m) all m !! i
    = Some b ->
  b = true.
Proof.
  revert m. induction all as [|s rest IH]; intros m Hm; [apply Hm |].
  simpl. apply IH. destruct (isMyStory cfg s); [| exact Hm].
  intros j c. destruct (Z.eq_dec (api.Story_ID s) j) as [-> | Hne].
  - rewrite lookup_insert_eq. congruence.
  - rewrite lookup_insert_ne by exact Hne. apply Hm.
Qed.

(** The keys of [myStoryIDs] are the ids of the fetched entries that the
    user owns. *)
Lemma collectMine_keys (cfg : config.Config) (all : list api.Story) (i : Z) :
  is_Some (collectMine cfg all !! i) <->
  exists s, In s all /\ isMyStory cfg s = true /\ api.Story_ID s = i.
Proof.
  pose proof (lookupMine_collectMine cfg all i) as Hl. unfold lookupMine in Hl.
  assert (Hex : existsb (ownedEntry cfg i) all = true <->
                exists s, In s all /\ isMyStory cfg s = true /\ api.Story_ID s = i).
  { rewrite existsb_exists. unfold ownedEntry. split.
    - intros (s & Hin & Hs). apply andb_true_iff in Hs as [Hid Hm]. apply Z.eqb_eq in Hid.
      now exists s.
    - intros (s & Hin & Hm & Hid). exists s. split; [exact Hin |].
      apply andb_true_iff. split; [now apply Z.eqb_eq | exact Hm]. }
  rewrite <- Hex, <- Hl. split.
  - intros [b Hb]. rewrite Hb. apply (fold_mine_true cfg all ∅ i b); [| exact Hb].
    intros j c Hj. now rewrite lookup_empty in Hj.
  - destruct (collectMine cfg all !! i); [now eexists | discriminate].
Qed.

Lemma collectMine_ids (cfg : config.Config) (all : list api.Story) :
  exists ids : list Z,
    List.NoDup ids /\
    (forall i, In i ids <-> exists s, In s all /\ isMyStory cfg s = true /\ api.Story_ID s = i) /\
    size (collectMine cfg all) = length ids.
Proof.
  exists ((map_to_list (collectMine cfg all)).*1).
  split; [apply NoDup_ListNoDup, NoDup_fst_map_to_list |].
  split.
  - intros i. rewrite <- collectMine_keys, <- list_elem_of_In, list_elem_of_fmap. split.
    + intros ([k v] & -> & Hkv). apply elem_of_map_to_list in Hkv. now exists v.
    + intros [v Hv]. exists (i, v). split; [reflexivity | now apply elem_of_map_to_list].
  - now rewrite length_fmap, length_map_to_list.
Qed.

(** *** The comment loops *)

Lemma commentStep_stories cfg projectID storyID c now st :
  Store_stories (commentStep cfg projectID storyID c now st) = Store_stories st \/
  Store_stories (commentStep cfg projectID storyID c now st) =
    snd (MarkStoryMentionsMe storyID (Store_stories st)).
Proof.
  unfold commentStep.
  destruct (UpsertComment now _ (Store_comments st)) as [[e |] tbl]; [now left |].
  destruct (mentionsUser cfg (api.Comment_Text c)); [now right | now left].
Qed.

Lemma commentStep_comments cfg projectID storyID c now st :
  Store_comments (commentStep cfg projectID storyID c now st) =
  snd (UpsertComment now (commentRow cfg projectID storyID c) (Store_comments st)).
Proof.
  unfold commentStep.
  destruct (UpsertComment now _ (Store_comments st)) as [[e |] tbl]; [reflexivity |].
  now destruct (mentionsUser cfg (api.Comment_Text c)).
Qed.

Lemma commentStep_keyed cfg projectID storyID c now st :
  keyed st -> keyed (commentStep cfg projectID storyID c now st).
Proof.
  intros [Hs Hc]. split.
  - destruct (commentStep_stories cfg projectID storyID c now st) as [-> | ->];
      [exact Hs | now apply rowFacts.mark_primaryKey].
  - rewrite commentStep_comments. now apply rowFacts.UpsertComment_primaryKey.
Qed.

Lemma commentStep_storyAt cfg projectID storyID c now st (i : Z) (r : stories) :
  storyAt i (Store_stories st) = Some r ->
  exists r', storyAt i (Store_stories (commentStep cfg projectID storyID c now st)) = Some r' /\
             sameButFlag r r'.
Proof.
  intros Hr. destruct (commentStep_stories cfg projectID storyID c now st) as [-> | ->].
  - exists r. split; [exact Hr | apply rowFacts.sameButFlag_refl].
  - now apply rowFacts.storyAt_mark.
Qed.

Lemma UpsertComment_stays (now : string) (c : CommentRow) (tbl : list comments) (i : Z) :
  commentFlag i tbl <> None -> commentFlag i (snd (UpsertComment now c tbl)) <> None.
Proof.
  intros Hin. rewrite storeFacts.commentFlag_UpsertComment.
  destruct (fst (UpsertComment now c tbl)); [exact Hin |].
  destruct (i =? CommentRow_ID c); [discriminate | exact Hin].
Qed.

Lemma syncComments_stay cfg projectID storyID cs n st w (i : Z) :
  commentFlag i (Store_comments st) <> None ->
  commentFlag i (Store_comments (snd (fst (syncComments cfg projectID storyID cs n st w)))) <> None.
Proof.
  revert n st w. induction cs as [|c rest IH]; intros n st w Hin; [exact Hin |].
  rewrite syncFacts.syncComments_step. apply IH. rewrite commentStep_comments.
  now apply UpsertComment_stays.
Qed.

Lemma syncStoryComments_stay cfg projectID all n st w (i : Z) :
  commentFlag i (Store_comments st) <> None ->
  commentFlag i (Store_comments (snd (fst (syncStoryComments cfg projectID all n st w)))) <> None.
Proof.
  revert n st w. induction all as [|s rest IH]; intros n st w Hin; [exact Hin |].
  cbn [syncStoryComments].
  destruct (GetStoryComments projectID (api.Story_ID s) w) as [[cs | e] w1]; [| now apply IH].
  pose proof (syncComments_stay cfg projectID (api.Story_ID s) cs n st w1 i Hin) as Hin1.
  destruct (syncComments cfg projectID (api.Story_ID s) cs n st w1) as [[n1 st1] w2].
  now apply IH.
Qed.

Lemma syncComments_keyed cfg projectID storyID cs n st w :
  keyed st -> keyed (snd (fst (syncComments cfg projectID storyID cs n st w))).
Proof.
  revert n st w. induction cs as [|c rest IH]; intros n st w Hk; [exact Hk |].
  rewrite syncFacts.syncComments_step. apply IH. now apply commentStep_keyed.
Qed.

Lemma syncComments_storyAt cfg projectID storyID cs n st w (i : Z) (r : stories) :
  storyAt i (Store_stories st) = Some r ->
  exists r', storyAt i (Store_stories (snd (fst (syncComments cfg projectID storyID cs n st w))))
             = Some r' /\ sameButFlag r r'.
Proof.
  revert n st w r. induction cs as [|c rest IH]; intros n st w r Hr.
  - exists r. split; [exact Hr | apply rowFacts.sameButFlag_refl].
  - rewrite syncFacts.syncComments_step.
    destruct (commentStep_storyAt cfg projectID storyID c (fst (time_Now w)) st i r Hr)
      as (r1 & Hr1 & Hs1).
    match goal with |- context [syncComments _ _ _ rest ?n1 ?s1 ?w1] =>
      destruct (IH n1 s1 w1 r1 Hr1) as (r2 & Hr2 & Hs2)
    end.
    exists r2. split; [exact Hr2 | now apply (rowFacts.sameButFlag_trans r r1 r2)].
Qed.

Lemma syncComments_count cfg projectID storyID cs n st w :
  n <= fst (fst (syncComments cfg projectID storyID cs n st w)) <= n + Z.of_nat (length cs).
Proof.
  revert n st w. induction cs as [|c rest IH]; intros n st w; [simpl; lia |].
  rewrite syncFacts.syncComments_step.
  match goal with |- context [syncComments _ _ _ rest ?n1 ?s1 ?w1] =>
    pose proof (IH n1 s1 w1) as Hrest
  end.
  simpl length. destruct (fst (UpsertComment _ _ (Store_comments st))); lia.
Qed.

Lemma syncStoryComments_keyed cfg projectID all n st w :
  keyed st -> keyed (snd (fst (syncStoryComments cfg projectID all n st w))).
Proof.
  revert n st w. induction all as [|s rest IH]; intros n st w Hk; [exact Hk |].
  cbn [syncStoryComments].
  destruct (GetStoryComments projectID (api.Story_ID s) w) as [[cs | e] w1]; [| now apply IH].
  pose proof (syncComments_keyed cfg projectID (api.Story_ID s) cs n st w1 Hk) as Hk1.
  destruct (syncComments cfg projectID (api.Story_ID s) cs n st w1) as [[n1 st1] w2].
  now apply IH.
Qed.

Lemma syncStoryComments_storyAt cfg projectID all n st w (i : Z) (r : stories) :
  storyAt i (Store_stories st) = Some r ->
  exists r', storyAt i (Store_stories (snd (fst (syncStoryComments cfg projectID all n st w))))
             = Some r' /\ sameButFlag r r'.
Proof.
  revert n st w r. induction all as [|s rest IH]; intros n st w r Hr.
  - exists r. split; [exact Hr | apply rowFacts.sameButFlag_refl].
  - cbn [syncStoryComments].
    destruct (GetStoryComments projectID (api.Story_ID s) w) as [[cs | e] w1]; [| now apply IH].
    destruct (syncComments_storyAt cfg projectID (api.Story_ID s) cs n st w1 i r Hr)
      as (r1 & Hr1 & Hs1).
    destruct (syncComments cfg projectID (api.Story_ID s) cs n st w1) as [[n1 st1] w2].
    cbn [fst snd] in Hr1.
    destruct (IH n1 st1 w2 r1 Hr1) as (r2 & Hr2 & Hs2).
    exists r2. split; [exact Hr2 | now apply (rowFacts.sameButFlag_trans r r1 r2)].
Qed.

Lemma syncStoryComments_count cfg projectID all n st w :
  n <= fst (fst (syncStoryComments cfg projectID all n st w)).
Proof.
  revert n st w. induction all as [|s rest IH]; intros n st w; [simpl; lia |].
  cbn [syncStoryComments].
  destruct (GetStoryComments projectID (api.Story_ID s) w) as [[cs | e] w1]; [| apply IH].
  pose proof (syncComments_count cfg projectID (api.Story_ID s) cs n st w1) as Hc.
  destruct (syncComments cfg projectID (api.Story_ID s) cs n st w1) as [[n1 st1] w2].
  cbn [fst] in Hc. specialize (IH n1 st1 w2). lia.
Qed.

(** *** The pass *)

Lemma syncProject_kept (cfg : config.Config) (projectID : Z) (st : Store) (w : World) :
  flagsKept st (snd (fst (syncProject cfg projectID st w))).
Proof.
  rewrite syncProject_loops. cbv zeta. cbn [fst snd].
  eapply syncFacts.flagsKept_trans; [| apply syncFacts.syncStoryComments_kept].
  repeat split; cbn [Store_stories Store_comments]; intros i; try tauto;
    apply upsertStories_kept.
Qed.

Lemma syncProject_keyed (cfg : config.Config) (projectID : Z) (st : Store) (w : World) :
  keyed st -> keyed (snd (fst (syncProject cfg projectID st w))).
Proof.
  intros [Hs Hc]. rewrite syncProject_loops. cbv zeta. cbn [fst snd].
  apply syncStoryComments_keyed. split; cbn [Store_stories Store_comments]; [| exact Hc].
  now apply upsertStories_primaryKey.
Qed.

End PassFacts.
End passFacts.

Section PassStatements.
Context `{L : GoLib} `{R : !remote.Remote}.
Import remote sync syncspec db dbspec storespec.

(** X7. The sync pass only ever adds to the store: whatever the remote
    answers and whether or not the store accepts the writes, every story row
    and every comment row that was stored before [syncProject] is stored
    after it, and no [mentions_me] flag of a story or of a comment that was
    set is reset. *)
Theorem syncProject_never_forgets (cfg : config.Config) (projectID : Z) (st : Store) (w : World) :
  flagsKept st (snd (fst (syncProject cfg projectID st w))) /\
  (forall i, commentFlag i (Store_comments st) <> None ->
             commentFlag i (Store_comments (snd (fst (syncProject cfg projectID st w)))) <> None).
Proof.
  split; [apply passFacts.syncProject_kept |].
  intros i Hin. rewrite passFacts.syncProject_loops. cbv zeta. cbn [fst snd].
  now apply passFacts.syncStoryComments_stay.
Qed.

(** X8. The sync pass keeps the primary keys: from a store in which no two
    stories and no two comments share an id, [syncProject] leads to such a
    store, also when the remote lists the same story or comment twice. *)
Theorem syncProject_keeps_primary_keys
        (cfg : config.Config) (projectID : Z) (st : Store) (w : World) :
  keyed st -> keyed (snd (fst (syncProject cfg projectID st w))).
Proof. apply passFacts.syncProject_keyed. Qed.

(** X9. The counters [syncProject] reports.  [Stories] is the number of
    entries of the fetched lists whose upsert the store accepted: an entry is
    counted when its integers fit the 32-bit [INTEGER] columns and the clock
    text read at its upsert casts, and an entry that is listed under two
    states is counted twice; with a clock that always casts it is the number
    of entries that fit.  [Mine] is the number of distinct ids among the
    entries the user owns, whether or not their upserts are accepted.
    Neither exceeds the number of fetched entries, and [Comments] is not
    negative. *)
Theorem syncProject_counters (cfg : config.Config) (projectID : Z) (st : Store) (w : World) :
  let all := fst (fetchStates projectID states w) in
  let w1 := snd (fetchStates projectID states w) in
  let stats := fst (fst (syncProject cfg projectID st w)) in
  Stories stats =
    Z.of_nat (length (List.filter (accepted projectID) (combine all (clocks (length all) w1)))) /\
  (clockCasts ->
   Stories stats = Z.of_nat (length (List.filter (fitting projectID) all))) /\
  (exists ids : list Z,
      List.NoDup ids /\
      (forall i, In i ids <->
                 exists s, In s all /\ isMyStory cfg s = true /\ api.Story_ID s = i) /\
      Mine stats = Z.of_nat (length ids)) /\
  0 <= Stories stats <= Z.of_nat (length all) /\
  0 <= Mine stats <= Z.of_nat (length all) /\
  0 <= Comments stats.
Proof.
  cbv zeta. rewrite passFacts.syncProject_loops. cbv zeta. cbn [fst snd Stories Mine Comments].
  set (all := fst (fetchStates projectID states w)).
  set (w1 := snd (fetchStates projectID states w)).
  pose proof (passFacts.upsertStories_accepted projectID (collectMine cfg all) all 0
                (Store_stories st) w1) as Hn.
  rewrite Z.add_0_l in Hn.
  split; [exact Hn |]. split.
  { intros Hclock. rewrite Hn. now rewrite (passFacts.accepted_fitting projectID all w1 Hclock). }
  split.
  { destruct (passFacts.collectMine_ids cfg all) as (ids & Hnd & Hids & Hsize).
    exists ids. split; [exact Hnd |]. split; [exact Hids | now rewrite Hsize]. }
  split; [apply passFacts.upsertStories_count |]. split.
  { pose proof (passFacts.size_fold_mine cfg all ∅) as Hsz. rewrite map_size_empty in Hsz.
    unfold collectMine. lia. }
  apply passFacts.syncStoryComments_count.
Qed.

(** X10. After a pass with a clock that casts, the store holds what was
    fetched: for a story that the fetched lists hold once and whose integers
    fit the 32-bit [INTEGER] columns, the row stored under its id carries
    the title, description, type, state, estimate, priority, URL, requester,
    owner names, label names and dates of the fetched story, and [is_mine]
    tells whether the configured user id is among its owners. *)
Theorem syncProject_stores_what_was_fetched
        (cfg : config.Config) (projectID : Z) (st : Store) (w : World) (s : api.Story) :
  clockCasts ->
  storyFits (storyRow projectID false s) ->
  List.NoDup (map api.Story_ID (fst (fetchStates projectID states w))) ->
  In s (fst (fetchStates projectID states w)) ->
  exists r : stories,
    storyAt (api.Story_ID s) (Store_stories (snd (fst (syncProject cfg projectID st w)))) = Some r /\
    mirrors (storyRow projectID (isMyStory cfg s) s) r /\
    stories_is_mine r = isMyStory cfg s.
Proof.
  intros Hclock Hfit Hnd Hin. rewrite passFacts.syncProject_loops. cbv zeta. cbn [fst snd].
  set (all := fst (fetchStates projectID states w)) in *.
  set (w1 := snd (fetchStates projectID states w)).
  destruct (passFacts.upsertStories_mirrors projectID (collectMine cfg all) all 0
              (Store_stories st) w1 s Hclock Hfit Hnd Hin) as (r0 & Hr0 & Hm0).
  rewrite (passFacts.lookupMine_unique cfg all s Hnd Hin) in Hm0.
  match goal with |- context [syncStoryComments cfg projectID all 0 ?st1 ?w2] =>
    destruct (passFacts.syncStoryComments_storyAt cfg projectID all 0 st1 w2
                (api.Story_ID s) r0 Hr0) as (r & Hr & Hsame)
  end.
  exists r. split; [exact Hr |].
  pose proof (rowFacts.mirrors_sameButFlag _ _ _ Hm0 Hsame) as Hm.
  split; [exact Hm |]. apply Hm.
Qed.

(** X11. When the fetched lists hold a story more than once, as they do
    when it changes its state between two fetches, the last entry that the
    store accepts decides what is stored: after a pass with a clock that
    casts, the row under its id carries the columns of the last entry with
    that id whose integers fit the 32-bit [INTEGER] columns, later entries
    of that id that do not fit being refused, while [is_mine] is true as
    soon as the configured user id is among the owners of any of the entries
    with that id. *)
Theorem syncProject_last_entry_wins
        (cfg : config.Config) (projectID : Z) (st : Store) (w : World)
        (pre post : list api.Story) (s : api.Story) :
  clockCasts ->
  fst (fetchStates projectID states w) = (pre ++ s :: post)%list ->
  storyFits (storyRow projectID false s) ->
  (forall s', In s' post -> api.Story_ID s' = api.Story_ID s ->
              ~ storyFits (storyRow projectID false s')) ->
  exists r : stories,
    storyAt (api.Story_ID s) (Store_stories (snd (fst (syncProject cfg projectID st w)))) = Some r /\
    mirrors (storyRow projectID (existsb (ownedEntry cfg (api.Story_ID s)) (pre ++ s :: post)) s) r /\
    stories_is_mine r = existsb (ownedEntry cfg (api.Story_ID s)) (pre ++ s :: post).
Proof.
  intros Hclock Hall Hfit Hlast. rewrite passFacts.syncProject_loops. cbv zeta. cbn [fst snd].
  rewrite Hall.
  set (w1 := snd (fetchStates projectID states w)).
  destruct (passFacts.upsertStories_last projectID (collectMine cfg (pre ++ s :: post)) pre post 0
              (Store_stories st) w1 s Hclock Hfit Hlast) as (r0 & Hr0 & Hm0).
  rewrite passFacts.lookupMine_collectMine in Hm0.
  match goal with |- context [syncStoryComments cfg projectID ?all 0 ?st1 ?w2] =>
    destruct (passFacts.syncStoryComments_storyAt cfg projectID all 0 st1 w2
                (api.Story_ID s) r0 Hr0) as (r & Hr & Hsame)
  end.
  exists r. split; [exact Hr |].
  pose proof (rowFacts.mirrors_sameButFlag _ _ _ Hm0 Hsame) as Hm.
  split; [exact Hm |]. apply Hm.
Qed.

End PassStatements.

(** ** The requests of the session client *)

Module sessionFacts.
Section SessionFacts.
Context `{L : GoLib} `{R : !remote.Remote}.
Import remote webclient webspec loginspec GoStr.

Lemma Do_eq (req : Request) (wc : WebClient) (w : World) :
  Do req wc w =
  (fst (webclient_Do req w),
   {| loggedIn := loggedIn wc; sent := (sent wc ++ [req])%list |},
   snd (webclient_Do req w)).
Proof. unfold Do. now destruct (webclient_Do req w). Qed.

Lemma sent_nil (wc : WebClient) : sent wc = (sent wc ++ [])%list.
Proof. now rewrite app_nil_r. Qed.

Lemma ensureLoggedIn_sent (cfg : config.Config) (wc : WebClient) (w : World) :
  exists l : list Request,
    sent (snd (fst (ensureLoggedIn cfg wc w))) = (sent wc ++ l)%list /\
    (l = [] \/ l = [loginGet cfg] \/ exists token, l = [loginGet cfg; loginPost cfg token]).
Proof.
  unfold ensureLoggedIn, Get.
  destruct (loggedIn wc); [exists []; split; [apply sent_nil | now left] |].
  destruct (String.eqb (config.Email cfg) "" || String.eqb (config.Password cfg) "");
    [exists []; split; [apply sent_nil | now left] |].
  destruct (http_NewRequest "GET" _); [exists []; split; [apply sent_nil | now left] |].
  rewrite Do_eq. fold (loginGet cfg).
  destruct (webclient_Do (loginGet cfg) w) as [[page | e] w1]; cbn [fst snd];
    [| exists [loginGet cfg]; split; [reflexivity | right; now left]].
  destruct (csrf_FindSubmatch (Resp_Body page)) as [token |];
    [| exists [loginGet cfg]; split; [reflexivity | right; now left]].
  destruct (http_NewRequest "POST" _);
    [exists [loginGet cfg]; split; [reflexivity | right; now left] |].
  rewrite Do_eq. fold (loginPost cfg token).
  exists [loginGet cfg; loginPost cfg token].
  split; [| right; right; now exists token].
  destruct (webclient_Do (loginPost cfg token) w1) as [[resp | e] w2]; cbn [fst snd];
    [destruct ((Resp_StatusCode resp =? 422) || (Resp_StatusCode resp =? 401)) |];
    cbn [fst snd sent setLoggedIn]; now rewrite <- app_assoc.
Qed.

Lemma ensureLoggedIn_flag (cfg : config.Config) (wc : WebClient) (w : World) :
  fst (fst (ensureLoggedIn cfg wc w)) = None <->
  loggedIn (snd (fst (ensureLoggedIn cfg wc w))) = true.
Proof.
  unfold ensureLoggedIn, Get. destruct (loggedIn wc) eqn:Ein; [cbn [fst snd]; now rewrite Ein |].
  destruct (String.eqb (config.Email cfg) "" || String.eqb (config.Password cfg) "");
    [cbn [fst snd]; rewrite Ein; split; discriminate |].
  destruct (http_NewRequest "GET" _); [cbn [fst snd]; rewrite Ein; split; discriminate |].
  rewrite Do_eq.
  destruct (webclient_Do _ w) as [[page | e] w1]; cbn [fst snd];
    [| rewrite Ein; split; discriminate].
  destruct (csrf_FindSubmatch (Resp_Body page)) as [token |];
    [| cbn [fst snd loggedIn]; rewrite Ein; split; discriminate].
  destruct (http_NewRequest "POST" _);
    [cbn [fst snd loggedIn]; rewrite Ein; split; discriminate |].
  rewrite Do_eq.
  destruct (webclient_Do _ w1) as [[resp | e] w2]; cbn [fst snd];
    [| cbn [loggedIn]; rewrite Ein; split; discriminate].
  destruct ((Resp_StatusCode resp =? 422) || (Resp_StatusCode resp =? 401));
    cbn [fst snd loggedIn setLoggedIn]; [rewrite Ein; split; discriminate | now split].
Qed.

Lemma ensureLoggedIn_sendsAtMost (cfg : config.Config) : sendsAtMost 2 (ensureLoggedIn cfg).
Proof.
  intros wc w. destruct (ensureLoggedIn_sent cfg wc w) as (l & Hl & Hcases).
  exists l. split; [exact Hl |].
  destruct Hcases as [-> | [-> | [token ->]]]; simpl; lia.
Qed.

Lemma postComment_sendsAtMost cfg storyID text : sendsAtMost 1 (postComment cfg storyID text).
Proof.
  intros wc w. unfold postComment.
  destruct (http_NewRequest "POST" _); [exists []; split; [apply sent_nil | simpl; lia] |].
  rewrite Do_eq. eexists [_]. split; [| simpl; lia].
  destruct (webclient_Do _ w) as [[resp | e] w1]; cbn [fst snd]; [| reflexivity].
  destruct (Resp_StatusCode resp >=? 400); [reflexivity |].
  now destruct (json_Unmarshal_comment (Resp_Body resp)) as [[[[id content] createdAt] userID] |].
Qed.

Lemma addLabel_sendsAtMost cfg storyID projectID name :
  sendsAtMost 1 (addLabel cfg storyID projectID name).
Proof.
  intros wc w. unfold addLabel.
  destruct (http_NewRequest "POST" _); [exists []; split; [apply sent_nil | simpl; lia] |].
  rewrite Do_eq. eexists [_]. split; [| simpl; lia].
  destruct (webclient_Do _ w) as [[resp | e] w1]; cbn [fst snd]; [| reflexivity].
  destruct (Resp_StatusCode resp >=? 400); [reflexivity |].
  now destruct (json_Unmarshal_label (Resp_Body resp)) as [[id labelName] |].
Qed.

Lemma addOwner_sendsAtMost cfg storyID projectID ownerID :
  sendsAtMost 1 (addOwner cfg storyID projectID ownerID).
Proof.
  intros wc w. unfold addOwner.
  destruct (GetStory projectID storyID w) as [[story | e] w1];
    [| exists []; split; [apply sent_nil | simpl; lia]].
  destruct (collectOwnerIDs (api.Story_Owners story) ownerID []) as [ids |];
    [| exists []; split; [apply sent_nil | simpl; lia]].
  destruct (http_NewRequest "PUT" _); [exists []; split; [apply sent_nil | simpl; lia] |].
  rewrite Do_eq. eexists [_]. split; [| simpl; lia].
  destruct (webclient_Do _ w1) as [[resp | e] w2]; cbn [fst snd]; [| reflexivity].
  now destruct (Resp_StatusCode resp >=? 400).
Qed.

Lemma withSession_sendsAtMost {A : Type} (cfg : config.Config) (k : nat)
      (op : WebClient -> World -> Result A * WebClient * World) :
  sendsAtMost k op -> sendsAtMost (2 + k + 2 + k) (withSession cfg op).
Proof.
  intros Hop wc w. unfold withSession.
  destruct (ensureLoggedIn_sendsAtMost cfg wc w) as (l1 & Hl1 & Hn1).
  destruct (ensureLoggedIn cfg wc w) as [[[e |] wc1] w1]; cbn [fst snd] in *;
    [exists l1; split; [exact Hl1 | lia] |].
  destruct (Hop wc1 w1) as (l2 & Hl2 & Hn2).
  destruct (op wc1 w1) as [[[a | e] wc2] w2]; cbn [fst snd] in *.
  - exists (l1 ++ l2)%list. rewrite Hl2, Hl1, <- app_assoc. split; [reflexivity |].
    rewrite List.length_app. lia.
  - destruct (sessionExpired e).
    + destruct (ensureLoggedIn_sendsAtMost cfg (setLoggedIn false wc2) w2) as (l3 & Hl3 & Hn3).
      cbn [sent setLoggedIn] in Hl3.
      destruct (ensureLoggedIn cfg (setLoggedIn false wc2) w2) as [[[e' |] wc4] w3];
        cbn [fst snd] in *.
      * exists (l1 ++ l2 ++ l3)%list. rewrite Hl3, Hl2, Hl1, <- !app_assoc.
        split; [reflexivity |]. rewrite !List.length_app. lia.
      * destruct (Hop wc4 w3) as (l4 & Hl4 & Hn4).
        exists (l1 ++ l2 ++ l3 ++ l4)%list. rewrite Hl4, Hl3, Hl2, Hl1, <- !app_assoc.
        split; [reflexivity |]. rewrite !List.length_app. lia.
    + exists (l1 ++ l2)%list. cbn [fst snd]. rewrite Hl2, Hl1, <- app_assoc.
      split; [reflexivity |]. rewrite List.length_app. lia.
Qed.

Lemma Contains_middle (pre u post : string) : Contains (pre +:+ u +:+ post) u = true.
Proof. apply GoStrFacts.Contains_spec. now exists pre, post. Qed.

Lemma Contains_append_r (pre s u : string) : Contains s u = true -> Contains (pre +:+ s) u = true.
Proof.
  rewrite !GoStrFacts.Contains_spec. intros (a & b & ->).
  exists (pre +:+ a), b. now rewrite GoStrFacts.append_assoc.
Qed.

Lemma sessionExpired_body (pre body : string) :
  Contains body "401" = true \/ Contains body "sign in" = true ->
  sessionExpired (pre +:+ body) = true.
Proof.
  unfold sessionExpired. intros [H | H]; apply (Contains_append_r pre) in H; rewrite H;
    [reflexivity | apply orb_true_r].
Qed.

Lemma sessionExpired_status_401 (what body : string) :
  sessionExpired (what +:+ " failed (status " +:+ Itoa 401 +:+ "): " +:+ body) = true.
Proof.
  unfold sessionExpired. change (Itoa 401) with "401".
  replace (Contains _ "401") with true; [reflexivity |]. symmetry.
  apply GoStrFacts.Contains_spec. exists (what +:+ " failed (status "), ("): " +:+ body).
  now rewrite GoStrFacts.append_assoc.
Qed.

End SessionFacts.
End sessionFacts.

Section SessionStatements.
Context `{L : GoLib} `{R : !remote.Remote}.
Import remote webclient webspec loginspec GoStr.

(** X12. What [ensureLoggedIn] does on every path: with the session
    already there, or with the e-mail address or the password not
    configured, it hands no request to the HTTP client and leaves the client
    and the world as they are; otherwise it makes the GET of the login page
    and at most one POST to it, in that order, and nothing else.  It returns
    no error exactly when it leaves [loggedIn] set. *)
Theorem ensureLoggedIn_outcome (cfg : config.Config) (wc : WebClient) (w : World) :
  (loggedIn wc = true -> ensureLoggedIn cfg wc w = (None, wc, w)) /\
  (loggedIn wc = false -> config.Email cfg = "" \/ config.Password cfg = "" ->
   exists e, ensureLoggedIn cfg wc w = (Some e, wc, w)) /\
  (fst (fst (ensureLoggedIn cfg wc w)) = None <->
   loggedIn (snd (fst (ensureLoggedIn cfg wc w))) = true) /\
  (exists l : list Request,
      sent (snd (fst (ensureLoggedIn cfg wc w))) = (sent wc ++ l)%list /\
      (l = [] \/ l = [loginGet cfg] \/ exists token, l = [loginGet cfg; loginPost cfg token])).
Proof.
  split; [| split; [| split]].
  - intros Hin. unfold ensureLoggedIn. now rewrite Hin.
  - intros Hout Hcred. unfold ensureLoggedIn. rewrite Hout.
    assert (Hempty : String.eqb (config.Email cfg) "" || String.eqb (config.Password cfg) "" = true).
    { apply orb_true_iff. destruct Hcred as [-> | ->]; [now left | now right]. }
    rewrite Hempty. eexists. reflexivity.
  - apply sessionFacts.ensureLoggedIn_flag.
  - apply sessionFacts.ensureLoggedIn_sent.
Qed.

(** X13. The only replies to the login POST that [ensureLoggedIn] takes
    for a failure are those with status 401 or 422: once the login page
    yielded a CSRF token and the POST got any other reply, whatever its
    status and body, the session counts as authenticated. *)
Theorem login_fails_only_on_401_or_422
        (cfg : config.Config) (wc : WebClient) (w w1 w2 : World)
        (page resp : Response) (token : string) :
  loggedIn wc = false ->
  config.Email cfg <> "" ->
  config.Password cfg <> "" ->
  http_NewRequest "GET" (config.WebURL cfg +:+ "/login") = None ->
  http_NewRequest "POST" (config.WebURL cfg +:+ "/login") = None ->
  webclient_Do (loginGet cfg) w = (Ok page, w1) ->
  csrf_FindSubmatch (Resp_Body page) = Some token ->
  webclient_Do (loginPost cfg token) w1 = (Ok resp, w2) ->
  snd (ensureLoggedIn cfg wc w) = w2 /\
  sent (snd (fst (ensureLoggedIn cfg wc w))) = (sent wc ++ [loginGet cfg; loginPost cfg token])%list /\
  (Resp_StatusCode resp <> 401 /\ Resp_StatusCode resp <> 422 <->
   fst (fst (ensureLoggedIn cfg wc w)) = None) /\
  (Resp_StatusCode resp <> 401 /\ Resp_StatusCode resp <> 422 <->
   loggedIn (snd (fst (ensureLoggedIn cfg wc w))) = true).
Proof.
  intros Hout Hemail Hpass Hget Hpost Hpage Htoken Hresp.
  assert (Hflag := sessionFacts.ensureLoggedIn_flag cfg wc w).
  revert Hflag. unfold ensureLoggedIn, Get. rewrite Hout.
  destruct (String.eqb_spec (config.Email cfg) ""); [contradiction |].
  destruct (String.eqb_spec (config.Password cfg) ""); [contradiction |].
  cbn [orb]. rewrite Hget, sessionFacts.Do_eq. fold (loginGet cfg). rewrite Hpage. cbn [fst snd].
  rewrite Htoken, Hpost, sessionFacts.Do_eq. fold (loginPost cfg token). rewrite Hresp.
  cbn [fst snd].
  destruct (Z.eqb_spec (Resp_StatusCode resp) 422) as [E422 | E422];
    destruct (Z.eqb_spec (Resp_StatusCode resp) 401) as [E401 | E401];
    cbn [orb fst snd sent setLoggedIn loggedIn]; rewrite <- app_assoc; intros Hflag;
    (split; [reflexivity |]); (split; [reflexivity |]); rewrite <- Hflag;
    split; split; try discriminate; try tauto; intros [? ?]; congruence.
Qed.

(** X14. No write call loops: [WebPostComment], [WebAddLabel] and
    [WebAddOwner] hand at most six requests each to the HTTP client of the
    session (two per login exchange, one per attempt of the operation, with
    at most one second attempt), and they only add to what was sent.  The
    reads of [addOwner] through the token API are not among them. *)
Theorem write_calls_send_at_most_six_requests
        (cfg : config.Config) (projectID storyID ownerID : Z) (text name : string) :
  sendsAtMost 6 (WebPostComment cfg projectID storyID text) /\
  sendsAtMost 6 (WebAddLabel cfg projectID storyID name) /\
  sendsAtMost 6 (WebAddOwner cfg projectID storyID ownerID).
Proof.
  split; [| split].
  - apply (sessionFacts.withSession_sendsAtMost cfg 1), sessionFacts.postComment_sendsAtMost.
  - apply (sessionFacts.withSession_sendsAtMost cfg 1), sessionFacts.addLabel_sendsAtMost.
  - apply (sessionFacts.withSession_sendsAtMost cfg 1), sessionFacts.addOwner_sendsAtMost.
Qed.

(** X15. The error texts and the test for an expired session fit
    together: when the web server answers the request of [postComment],
    [addLabel] or [addOwner] with the status 401, the error the operation
    returns is one that [sessionExpired] accepts, whatever the body; and so
    is the error of [addOwner] when the read of the story through the token
    API fails with a text that contains [401]. *)
Theorem status_401_is_taken_for_an_expired_session
        (cfg : config.Config) (storyID projectID ownerID : Z) (text name : string)
        (wc : WebClient) (w : World) :
  answers401 ->
  (http_NewRequest "POST" (config.WebURL cfg +:+ "/api/v1/stories/" +:+ Itoa storyID +:+ "/comments")
     = None ->
   exists e, fst (fst (postComment cfg storyID text wc w)) = Err e /\ sessionExpired e = true) /\
  (http_NewRequest "POST" (config.WebURL cfg +:+ "/api/v1/stories/" +:+ Itoa storyID +:+ "/labels")
     = None ->
   exists e, fst (fst (addLabel cfg storyID projectID name wc w)) = Err e /\
             sessionExpired e = true) /\
  (forall (story : api.Story) (w1 : World),
      GetStory projectID storyID w = (Ok story, w1) ->
      ~ In ownerID (map api.StoryOwner_UserID (api.Story_Owners story)) ->
      http_NewRequest "PUT" (config.WebURL cfg +:+ "/api/v1/stories/" +:+ Itoa storyID) = None ->
      exists e, fst (fst (addOwner cfg storyID projectID ownerID wc w)) = Err e /\
                sessionExpired e = true) /\
  (forall (e0 : string) (w1 : World),
      GetStory projectID storyID w = (Err e0, w1) ->
      Contains e0 "401" = true ->
      exists e, fst (fst (addOwner cfg storyID projectID ownerID wc w)) = Err e /\
                sessionExpired e = true).
Proof.
  intros H401. split; [| split; [| split]].
  - intros Hreq. unfold postComment. rewrite Hreq, sessionFacts.Do_eq.
    match goal with |- context [webclient_Do ?req w] =>
      destruct (H401 req w) as (body & w' & ->)
    end.
    cbn [fst snd Resp_StatusCode Resp_Body]. change (401 >=? 400) with true. cbv iota.
    eexists. split; [reflexivity |].
    exact (sessionFacts.sessionExpired_status_401 "post comment" body).
  - intros Hreq. unfold addLabel. rewrite Hreq, sessionFacts.Do_eq.
    match goal with |- context [webclient_Do ?req w] =>
      destruct (H401 req w) as (body & w' & ->)
    end.
    cbn [fst snd Resp_StatusCode Resp_Body]. change (401 >=? 400) with true. cbv iota.
    eexists. split; [reflexivity |].
    exact (sessionFacts.sessionExpired_status_401 "add label" body).
  - intros story w1 Hstory Hnew Hreq. unfold addOwner. rewrite Hstory.
    rewrite (proj2 (webFacts.collectOwnerIDs_spec _ _ _) Hnew), Hreq, sessionFacts.Do_eq.
    match goal with |- context [webclient_Do ?req w1] =>
      destruct (H401 req w1) as (body & w' & ->)
    end.
    cbn [fst snd Resp_StatusCode Resp_Body]. change (401 >=? 400) with true. cbv iota.
    eexists. split; [reflexivity |].
    exact (sessionFacts.sessionExpired_status_401 "add owner" body).
  - intros e0 w1 Hstory Hc. unfold addOwner. rewrite Hstory. cbn [fst].
    eexists. split; [reflexivity |]. apply sessionFacts.sessionExpired_body. now left.
Qed.

End SessionStatements.

(** ** The files around the snapshot *)

Module frameFacts.
Import GoStrFacts snapshot snapshotFacts.

Lemma pollStatePath_dbPath (cfg : config.Config) : main.pollStatePath cfg <> dbPath cfg.
Proof.
  unfold main.pollStatePath, dbPath, config.Join.
  destruct (String.eqb (config.DataDir cfg) ""); [discriminate |].
  intros E. apply append_inv_head in E. discriminate E.
Qed.

Lemma pollStatePath_snapPath (cfg : config.Config) : main.pollStatePath cfg <> snapPath cfg.
Proof.
  unfold main.pollStatePath, snapPath, config.Join.
  destruct (String.eqb (config.DataDir cfg) ""); [discriminate |].
  intros E. apply append_inv_head in E. discriminate E.
Qed.

Lemma pollStatePath_tmpPath (cfg : config.Config) : main.pollStatePath cfg <> tmpPath cfg.
Proof.
  unfold main.pollStatePath, tmpPath, snapPath, config.Join.
  destruct (String.eqb (config.DataDir cfg) ""); [discriminate |].
  rewrite !append_assoc. intros E. apply append_inv_head in E. discriminate E.
Qed.

Lemma lookup_Rename (fault : bool) (old new p : string) (fs : os.FS) :
  old <> p -> new <> p -> snd (os.Rename fault old new fs) !! p = fs !! p.
Proof.
  intros Hold Hnew. unfold os.Rename. destruct fault; [reflexivity |].
  destruct (fs !! old); [| reflexivity]. cbn [snd].
  rewrite lookup_insert_ne by exact Hnew. now apply lookup_delete_ne.
Qed.

Section Frame.
Context (cfg : config.Config) (run : Run) (fs : os.FS) (p : string).
Context (Hdb : dbPath cfg <> p) (Hsnap : snapPath cfg <> p) (Htmp : tmpPath cfg <> p).

Lemma states_frame (fs' : os.FS) : In fs' (states cfg run fs) -> fs' !! p = fs !! p.
Proof.
  unfold states, Checkpoint. cbn [snd].
  set (fs1 := os.Remove (stale_removed run) (tmpPath cfg) fs).
  set (fs2 := <[dbPath cfg := checkpointed run]> fs1).
  assert (H1 : fs1 !! p = fs !! p) by now apply lookup_Remove.
  assert (H2 : fs2 !! p = fs !! p) by (unfold fs2; now rewrite lookup_insert_ne).
  intros Hin. apply in_app_iff in Hin as [[<- | [<- | [<- | []]]] | Hin]; auto.
  destruct (checkpoint_error run); [contradiction |].
  destruct (os.ReadFile (read_fault run) (dbPath cfg) fs2) as [data | e]; [| contradiction].
  apply in_app_iff in Hin as [Hin | Hin].
  { now rewrite (lookup_writeProgress _ _ _ _ _ _ Htmp Hin). }
  pose proof (lookup_WriteFile (write run) (tmpPath cfg) p data fs2 Htmp) as H3.
  destruct (os.WriteFile (write run) (tmpPath cfg) data fs2) as [[e |] fs3]; cbn [snd] in H3.
  { destruct Hin as [<- | []]. rewrite lookup_Remove by exact Htmp. congruence. }
  pose proof (lookup_Rename (rename_fault run) (tmpPath cfg) (snapPath cfg) p fs3 Htmp Hsnap) as H4.
  destruct (os.Rename (rename_fault run) (tmpPath cfg) (snapPath cfg) fs3) as [[e |] fs4];
    cbn [snd] in H4; destruct Hin as [<- | []].
  - rewrite lookup_Remove by exact Htmp. congruence.
  - congruence.
Qed.

Lemma CreateSnapshot_frame : snd (CreateSnapshot cfg run fs) !! p = fs !! p.
Proof.
  unfold CreateSnapshot, Checkpoint.
  set (fs1 := os.Remove (stale_removed run) (tmpPath cfg) fs).
  set (fs2 := <[dbPath cfg := checkpointed run]> fs1).
  assert (H1 : fs1 !! p = fs !! p) by now apply lookup_Remove.
  assert (H2 : fs2 !! p = fs !! p) by (unfold fs2; now rewrite lookup_insert_ne).
  destruct (checkpoint_error run); [exact H2 |].
  destruct (os.ReadFile (read_fault run) (dbPath cfg) fs2) as [data | e]; [| exact H2].
  pose proof (lookup_WriteFile (write run) (tmpPath cfg) p data fs2 Htmp) as H3.
  destruct (os.WriteFile (write run) (tmpPath cfg) data fs2) as [[e |] fs3]; cbn [snd] in *.
  { rewrite lookup_Remove by exact Htmp. congruence. }
  pose proof (lookup_Rename (rename_fault run) (tmpPath cfg) (snapPath cfg) p fs3 Htmp Hsnap) as H4.
  destruct (os.Rename (rename_fault run) (tmpPath cfg) (snapPath cfg) fs3) as [[e |] fs4];
    cbn [snd] in *.
  - rewrite lookup_Remove by exact Htmp. congruence.
  - congruence.
Qed.

End Frame.

Lemma CreateSnapshot_no_tmp (cfg : config.Config) (run : Run) (fs : os.FS) :
  stale_removed run = true -> cleanup_removed run = true ->
  snd (CreateSnapshot cfg run fs) !! tmpPath cfg = None.
Proof.
  intros Hstale Hclean. unfold CreateSnapshot, Checkpoint. rewrite Hstale, Hclean.
  set (fs2 := <[dbPath cfg := checkpointed run]> (os.Remove true (tmpPath cfg) fs)).
  assert (H2 : fs2 !! tmpPath cfg = None).
  { unfold fs2. rewrite lookup_insert_ne by apply dbPath_tmpPath. apply lookup_delete_eq. }
  destruct (checkpoint_error run); [exact H2 |].
  destruct (os.ReadFile (read_fault run) (dbPath cfg) fs2) as [data | e]; [| exact H2].
  destruct (os.WriteFile (write run) (tmpPath cfg) data fs2) as [[e |] fs3]; cbn [snd].
  { apply lookup_delete_eq. }
  unfold os.Rename. destruct (rename_fault run); cbn [snd]; [apply lookup_delete_eq |].
  destruct (fs3 !! tmpPath cfg) eqn:E3; cbn [snd]; [| apply lookup_delete_eq].
  rewrite lookup_insert_ne by (intros E; now apply (tmpPath_snapPath cfg)).
  apply lookup_delete_eq.
Qed.

End frameFacts.

Section FrameStatement.
Import snapshot.

(** X16. [CreateSnapshot] works on three paths only, the database file,
    the published snapshot and the temporary file: every other file, the
    poll state file among them, holds in every state the call goes through
    and at its end what it held before.  When the two [os.Remove] calls take
    effect, no temporary file is left behind, whether the call succeeds or
    fails. *)
Theorem createSnapshot_leaves_other_files_alone
        (cfg : config.Config) (run : Run) (fs : os.FS) :
  (forall p : string,
      p <> dbPath cfg -> p <> snapPath cfg -> p <> tmpPath cfg ->
      (forall fs', In fs' (states cfg run fs) -> fs' !! p = fs !! p) /\
      snd (CreateSnapshot cfg run fs) !! p = fs !! p) /\
  (forall fs', In fs' (states cfg run fs) ->
               fs' !! main.pollStatePath cfg = fs !! main.pollStatePath cfg) /\
  snd (CreateSnapshot cfg run fs) !! main.pollStatePath cfg = fs !! main.pollStatePath cfg /\
  (stale_removed run = true -> cleanup_removed run = true ->
   snd (CreateSnapshot cfg run fs) !! tmpPath cfg = None).
Proof.
  pose proof (frameFacts.pollStatePath_dbPath cfg) as H1.
  pose proof (frameFacts.pollStatePath_snapPath cfg) as H2.
  pose proof (frameFacts.pollStatePath_tmpPath cfg) as H3.
  split; [| split; [| split]].
  - intros p Hdb Hsnap Htmp. split.
    + intros fs'. apply frameFacts.states_frame; congruence.
    + apply frameFacts.CreateSnapshot_frame; congruence.
  - intros fs'. apply frameFacts.states_frame; congruence.
  - apply frameFacts.CreateSnapshot_frame; congruence.
  - apply frameFacts.CreateSnapshot_no_tmp.
Qed.

End FrameStatement.

(** ** The hour of a parsed date *)

Module hourFacts.
Import GoStr GoStrFacts db dbspec.

Lemma hour_text (h : Z) :
  0 <= h <= 23 ->
  String.length (padZero 2 (Itoa h)) = 2%nat /\
  allb isDigit (padZero 2 (Itoa h)) = true /\
  digitsVal 0 (padZero 2 (Itoa h)) = h.
Proof.
  intros Hh.
  assert (Hall : forallb (fun n => let t := padZero 2 (Itoa (Z.of_nat n)) in
                                   (String.length t =? 2)%nat && allb isDigit t
                                   && (digitsVal 0 t =? Z.of_nat n))
                         (seq 0 24) = true) by (vm_compute; reflexivity).
  rewrite forallb_forall in Hall. specialize (Hall (Z.to_nat h)).
  rewrite Z2Nat.id in Hall by lia. cbv zeta in Hall.
  assert (Hin : In (Z.to_nat h) (seq 0 24)) by (apply in_seq; lia).
  apply Hall in Hin. apply andb_true_iff in Hin as [Hin H3].
  apply andb_true_iff in Hin as [H1 H2].
  apply Nat.eqb_eq in H1. apply Z.eqb_eq in H3. auto.
Qed.

(** For the hours of a 12-hour clock the two adjustments of [ParseApiDate]
    are the usual conversion. *)
Lemma hour24_conversion (ampm : string) (h : Z) :
  ampm = "AM" \/ ampm = "PM" -> 1 <= h <= 12 ->
  hour24 ampm h = h mod 12 + (if String.eqb ampm "PM" then 12 else 0).
Proof.
  intros [-> | ->] Hh; unfold hour24; cbn [String.eqb Ascii.eqb Bool.eqb andb negb];
    destruct (Z.eqb_spec h 12) as [-> | Hne]; cbn [negb andb]; try reflexivity.
  - rewrite Z.mod_small by lia. lia.
  - destruct (Z.eqb_spec (h + 12) 12); [lia |]. rewrite Z.mod_small by lia. reflexivity.
Qed.

Lemma lookupMonth_length (mon monthNum : string) :
  lookupMonth months mon = Some monthNum -> String.length monthNum = 2%nat.
Proof.
  unfold months. cbn [lookupMonth].
  repeat (match goal with
          | |- context [String.eqb ?k mon] => destruct (String.eqb k mon)
          end; [intros E; injection E as <-; reflexivity |]).
  discriminate.
Qed.

Lemma padZero_length (s : string) :
  (1 <= String.length s <= 2)%nat -> String.length (padZero 2 s) = 2%nat.
Proof.
  intros Hl. unfold padZero. rewrite length_append.
  destruct s as [|a [|b [|c r]]]; simpl in *; lia.
Qed.

End hourFacts.

Section HourStatement.
Context `{L : GoLib}.
Import GoStr db dbspec.

(** X17. For a date of the service whose hour group is an hour of the
    12-hour clock (1 to 12), [ParseApiDate] returns a text of 24 bytes,
    [YYYY-MM-DDTHH:MM:00.000Z] with the day padded to two digits, whose hour
    field is two digits and denotes the hour on the 24-hour clock: the given
    hour modulo 12, plus 12 for PM. *)
Theorem ParseApiDate_gives_the_24_hour_clock
        (s day mon year hh mm ampm monthNum : string) :
  apiDateFormat s day mon year hh mm ampm ->
  lookupMonth months mon = Some monthNum ->
  1 <= digitsVal 0 hh <= 12 ->
  exists HH : string,
    ParseApiDate s =
      Some (year +:+ "-" +:+ monthNum +:+ "-" +:+ padZero 2 day +:+ "T"
                 +:+ HH +:+ ":" +:+ mm +:+ ":00.000Z") /\
    String.length (year +:+ "-" +:+ monthNum +:+ "-" +:+ padZero 2 day +:+ "T"
                        +:+ HH +:+ ":" +:+ mm +:+ ":00.000Z") = 24%nat /\
    String.length HH = 2%nat /\
    allb isDigit HH = true /\
    digitsVal 0 HH = digitsVal 0 hh mod 12 + (if String.eqb ampm "PM" then 12 else 0) /\
    0 <= digitsVal 0 HH <= 23.
Proof.
  intros Hf Hmon Hh.
  pose proof (parseFacts.ParseApiDate_format _ _ _ _ _ _ _ _ Hf Hmon) as Hparse.
  destruct Hf as (ws1 & ws2 & ws3 & Hs & Hd & Hdl & Hw1 & Hw1l & Hmo & Hmol & Hw2 & Hw2l
                  & Hy & Hyl & Hw3 & Hw3l & Hhd & Hhl & Hmi & Hmil & Hap).
  pose proof (hourFacts.hour24_conversion ampm (digitsVal 0 hh) Hap Hh) as Hconv.
  assert (Hrange : 0 <= hour24 ampm (digitsVal 0 hh) <= 23).
  { rewrite Hconv. pose proof (Z.mod_pos_bound (digitsVal 0 hh) 12 ltac:(lia)).
    destruct (String.eqb ampm "PM"); lia. }
  destruct (hourFacts.hour_text _ Hrange) as (Hlen & Hdig & Hval).
  exists (padZero 2 (Itoa (hour24 ampm (digitsVal 0 hh)))).
  split; [exact Hparse |]. split.
  - rewrite !GoStrFacts.length_append, Hlen, Hyl, Hmil, (hourFacts.lookupMonth_length _ _ Hmon),
      (hourFacts.padZero_length day Hdl). reflexivity.
  - rewrite Hval. repeat split; try assumption; lia.
Qed.

End HourStatement.

(** ** The [.env] files *)

Module envFacts.
Section EnvFacts.
Context `{L : GoLib}.
Import environ dotenv envspec GoStr GoStrFacts.

Lemma substring_take (a r : string) : String.substring 0 (String.length a) (a +:+ r) = a.
Proof.
  induction a as [|c a IH]; [now destruct r |].
  rewrite append_cons. simpl. now rewrite IH.
Qed.

Lemma substring_after (a b : string) (c : ascii) :
  String.substring (String.length a + 1)
                   (String.length (a +:+ String c b) - (String.length a + 1))
                   (a +:+ String c b) = b.
Proof.
  replace (a +:+ String c b) with ((a +:+ String c "") +:+ b)
    by (now rewrite append_assoc).
  replace (String.length a + 1)%nat with (String.length (a +:+ String c ""))
    by (rewrite length_append; reflexivity).
  apply substring_drop.
Qed.

Lemma HasPrefix_byte (x c : ascii) (r : string) :
  HasPrefix (String x r) (String c "") = Ascii.eqb x c.
Proof. simpl. destruct r; apply andb_true_r. Qed.

Lemma Index_nonneg_or (s : string) (c : ascii) : Index s c = -1 \/ 0 <= Index s c.
Proof.
  induction s as [|a s IH]; [now left |].
  simpl. destruct (Ascii.eqb a c); [right; lia |].
  destruct (Z.ltb_spec (Index s c) 0); [now left | right; lia].
Qed.

(** The index of the first [c], where there is one. *)
Lemma Index_append (a b : string) (c : ascii) :
  hasByte c a = false -> Index (a +:+ String c b) c = Z.of_nat (String.length a).
Proof.
  induction a as [|x a IH]; intros Hno.
  - rewrite append_nil_l. simpl. now rewrite Ascii.eqb_refl.
  - simpl in Hno. apply orb_false_iff in Hno as [Hx Hno].
    rewrite append_cons. cbn [Index]. rewrite Hx, (IH Hno).
    destruct (Z.ltb_spec (Z.of_nat (String.length a)) 0); [lia |].
    simpl String.length. lia.
Qed.

Lemma Index_found (s : string) (c : ascii) :
  0 <= Index s c ->
  exists a b, s = a +:+ String c b /\ hasByte c a = false /\
              Index s c = Z.of_nat (String.length a).
Proof.
  induction s as [|x s IH]; [simpl; lia |].
  cbn [Index]. destruct (Ascii.eqb x c) eqn:Ex.
  - intros _. apply Ascii.eqb_eq in Ex. subst x. now exists "", s.
  - destruct (Z.ltb_spec (Index s c) 0) as [Hneg | Hpos]; [lia |].
    intros _. destruct (IH Hpos) as (a & b & -> & Hno & Hidx).
    exists (String x a), b. repeat split.
    + simpl. now rewrite Ex, Hno.
    + rewrite Hidx. simpl String.length. lia.
Qed.

Lemma LookupEnv_Setenv (key value k : string) (env : Env) :
  LookupEnv k (snd (Setenv key value env)) =
  if String.eqb k key
  then match fst (Setenv key value env) with
       | None => Some value
       | Some _ => LookupEnv k env
       end
  else LookupEnv k env.
Proof.
  unfold Setenv.
  destruct (String.eqb_spec key "") as [-> | Hkey]; cbn [orb fst snd].
  - now destruct (String.eqb k "").
  - destruct (hasByte "=" key || hasByte "000" key || hasByte "000" value); cbn [fst snd].
    + now destruct (String.eqb k key).
    + unfold LookupEnv. destruct (String.eqb_spec k key) as [-> | Hne].
      * destruct (String.eqb_spec key ""); [contradiction |]. apply lookup_insert_eq.
      * destruct (String.eqb k ""); [reflexivity |]. now apply lookup_insert_ne.
Qed.

Lemma Setenv_settable (key value : string) (env : Env) :
  settable key value -> fst (Setenv key value env) = None.
Proof.
  intros (Hk & H1 & H2 & H3). unfold Setenv.
  destruct (String.eqb_spec key ""); [contradiction |]. now rewrite H1, H2, H3.
Qed.

(** A variable that is set is not set again. *)
Lemma loadLine_keeps (line k v : string) (env : Env) :
  LookupEnv k env = Some v -> LookupEnv k (loadLine line env) = Some v.
Proof.
  intros Hset. unfold loadLine.
  destruct (String.eqb _ "" || HasPrefix _ "#"); [exact Hset |].
  destruct (Index _ "=" <? 1); [exact Hset |].
  match goal with |- context [LookupEnv ?key env] =>
    destruct (LookupEnv key env) eqn:Ekey; [exact Hset |];
    rewrite LookupEnv_Setenv; destruct (String.eqb_spec k key) as [-> | Hne]; [| exact Hset]
  end.
  congruence.
Qed.

(** What a line does, read off its trimmed text. *)
Lemma loadLine_cases (line : string) (env : Env) :
  loadLine line env = env \/
  exists key value,
    assigns line key value /\ LookupEnv key env = None /\
    loadLine line env = snd (Setenv key value env).
Proof.
  unfold loadLine. remember (strings_TrimSpace line) as t eqn:Et.
  destruct (String.eqb t "" || HasPrefix t "#") eqn:Eskip; [now left |].
  apply orb_false_iff in Eskip as [Hne Hhash].
  destruct (Z.ltb_spec (Index t "=") 1) as [Hlt | Hge]; [now left |].
  destruct (Index_found t "=" ltac:(lia)) as (a & b & Ht & Hno & Hidx).
  rewrite Hidx, Nat2Z.id. subst t. rewrite Ht.
  rewrite substring_take, substring_after.
  destruct (LookupEnv (strings_TrimSpace a) env) eqn:Ekey; [now left |].
  right. exists (strings_TrimSpace a), (strings_TrimSpace b).
  split; [| now split].
  exists a, b. assert (Ha : a <> "") by (intros ->; simpl in Hidx; lia).
  repeat split; try assumption.
  rewrite Ht in Hhash. destruct a as [|x a]; [contradiction |].
  rewrite append_cons, HasPrefix_byte in Hhash. now rewrite HasPrefix_byte.
Qed.

(** A line that assigns to [a], found while [a] is not set. *)
Lemma loadLine_assigns (line key value : string) (env : Env) :
  assigns line key value -> LookupEnv key env = None ->
  loadLine line env = snd (Setenv key value env).
Proof.
  intros (a & b & Ht & Ha & Hno & Hhash & <- & <-) Hunset. unfold loadLine.
  rewrite Ht. change (a +:+ "=" +:+ b) with (a +:+ String "=" b).
  assert (Hskip : String.eqb (a +:+ String "=" b) "" || HasPrefix (a +:+ String "=" b) "#"
                  = false).
  { destruct a as [|x a]; [contradiction |]. rewrite append_cons, HasPrefix_byte.
    now rewrite HasPrefix_byte in Hhash. }
  rewrite Hskip, (Index_append a b "=" Hno), Nat2Z.id.
  destruct (Z.ltb_spec (Z.of_nat (String.length a)) 1) as [Hlt | _].
  { destruct a; [contradiction | simpl in Hlt; lia]. }
  rewrite substring_take, substring_after. now rewrite Hunset.
Qed.

Lemma loadLine_other (line k : string) (env : Env) :
  (forall v, ~ assigns line k v) -> LookupEnv k (loadLine line env) = LookupEnv k env.
Proof.
  intros Hnot. destruct (loadLine_cases line env) as [-> | (key & value & Has & _ & ->)];
    [reflexivity |].
  rewrite LookupEnv_Setenv. destruct (String.eqb_spec k key) as [-> | _]; [| reflexivity].
  exfalso. exact (Hnot value Has).
Qed.

Lemma loadLines_keeps (lines : list string) (k v : string) (env : Env) :
  LookupEnv k env = Some v -> LookupEnv k (loadLines lines env) = Some v.
Proof.
  revert env. induction lines as [|l lines IH]; intros env Hset; [exact Hset |].
  apply IH. now apply loadLine_keeps.
Qed.

Lemma loadLines_other (lines : list string) (k : string) (env : Env) :
  (forall l v, In l lines -> ~ assigns l k v) ->
  LookupEnv k (loadLines lines env) = LookupEnv k env.
Proof.
  revert env. induction lines as [|l lines IH]; intros env Hnot; [reflexivity |].
  simpl. rewrite IH by (intros l' v Hin; apply Hnot; now right).
  apply loadLine_other. intros v. apply Hnot. now left.
Qed.

Lemma loadLines_source (lines : list string) (k v : string) (env : Env) :
  LookupEnv k (loadLines lines env) = Some v ->
  LookupEnv k env = Some v \/ exists l, In l lines /\ assigns l k v.
Proof.
  revert env. induction lines as [|l lines IH]; intros env Hv; [now left |].
  simpl in Hv. destruct (IH _ Hv) as [Hl | (l' & Hin & Has)];
    [| right; exists l'; split; [now right | exact Has]].
  destruct (loadLine_cases l env) as [E | (key & value & Has & Hunset & E)];
    rewrite E in Hl; [now left |].
  rewrite LookupEnv_Setenv in Hl. destruct (String.eqb_spec k key) as [-> | _]; [| now left].
  destruct (fst (Setenv key value env)); [now left |].
  injection Hl as <-. right. exists l. split; [now left | exact Has].
Qed.

Lemma loadEnvFile_keeps (fault : bool) (path : string) (fs : os.FS) (k v : string) (env : Env) :
  LookupEnv k env = Some v -> LookupEnv k (loadEnvFile fault path fs env) = Some v.
Proof.
  intros Hset. unfold loadEnvFile. destruct (os.ReadFile fault path fs); [| exact Hset].
  now apply loadLines_keeps.
Qed.

Lemma loadEnvFiles_keeps (faults : string -> bool) (fs : os.FS) (k v : string) (env : Env) :
  LookupEnv k env = Some v -> LookupEnv k (loadEnvFiles faults fs env) = Some v.
Proof.
  intros Hset. unfold loadEnvFiles.
  destruct (negb (String.eqb (Getenv env "LITETRACKER_ENV_FILE") ""));
    [now apply loadEnvFile_keeps |].
  destruct (UserHomeDir _); now repeat apply loadEnvFile_keeps.
Qed.

Lemma Getenv_keeps (faults : string -> bool) (fs : os.FS) (k v : string) (env : Env) :
  LookupEnv k env = Some v -> Getenv (loadEnvFiles faults fs env) k = v.
Proof. intros Hset. unfold Getenv. now rewrite (loadEnvFiles_keeps faults fs k v env Hset). Qed.

End EnvFacts.
End envFacts.

Section EnvStatements.
Context `{L : GoLib}.
Import environ dotenv envspec.

(** X18. The environment takes precedence over the [.env] files: a
    variable that is set when [loadEnvFile] is called, be it to the empty
    text, has the same value after the call, whatever the file holds; so it
    has after the files [Init] reads, and [Init] reads the settings from
    that value. *)
Theorem environment_takes_precedence
        (faults : string -> bool) (fault : bool) (path : string) (fs : os.FS) (env : Env)
        (k v : string) :
  LookupEnv k env = Some v ->
  LookupEnv k (loadEnvFile fault path fs env) = Some v /\
  LookupEnv k (loadEnvFiles faults fs env) = Some v /\
  Getenv (snd (Init faults fs env)) k = v.
Proof.
  intros Hset. split; [now apply envFacts.loadEnvFile_keeps |].
  split; [now apply envFacts.loadEnvFiles_keeps |].
  now apply envFacts.Getenv_keeps.
Qed.

(** X19. Within a file the first assignment wins: when a variable is not
    set in the environment, the first line of the file that assigns to it
    (a line that reads [name=value] once trimmed, is not a comment, and whose
    name and value [os.Setenv] accepts) gives its value after [loadEnvFile];
    later lines that assign to the same name have no effect. *)
Theorem first_assignment_wins
        (fault : bool) (path : string) (fs : os.FS) (env : Env) (data : string)
        (pre post : list string) (line key value : string) :
  os.ReadFile fault path fs = Ok data ->
  Split "010" "" data = (pre ++ line :: post)%list ->
  LookupEnv key env = None ->
  (forall l v, In l pre -> ~ assigns l key v) ->
  assigns line key value ->
  settable key value ->
  LookupEnv key (loadEnvFile fault path fs env) = Some value.
Proof.
  intros Hread Hlines Hunset Hpre Hline Hok. unfold loadEnvFile. rewrite Hread, Hlines.
  unfold loadLines. rewrite fold_left_app. cbn [fold_left].
  apply envFacts.loadLines_keeps.
  assert (Hstill : LookupEnv key (loadLines pre env) = None)
    by (rewrite envFacts.loadLines_other; assumption).
  fold (loadLines pre env).
  rewrite (envFacts.loadLine_assigns line key value _ Hline Hstill).
  rewrite envFacts.LookupEnv_Setenv, String.eqb_refl.
  now rewrite envFacts.Setenv_settable.
Qed.

(** X20. [loadEnvFile] takes nothing out of the air: a file that cannot
    be read leaves the environment as it is, and a variable that is set
    after the call either had that value before it or gets it from a line of
    the file that assigns it. *)
Theorem values_come_from_the_environment_or_a_line
        (fault : bool) (path : string) (fs : os.FS) (env : Env) :
  (forall e, os.ReadFile fault path fs = Err e -> loadEnvFile fault path fs env = env) /\
  (forall k v,
      LookupEnv k (loadEnvFile fault path fs env) = Some v ->
      LookupEnv k env = Some v \/
      exists data l, os.ReadFile fault path fs = Ok data /\
                     In l (Split "010" "" data) /\ assigns l k v).
Proof.
  unfold loadEnvFile. split.
  - intros e ->. reflexivity.
  - intros k v. destruct (os.ReadFile fault path fs) as [data | e]; [| now left].
    intros Hv. destruct (envFacts.loadLines_source _ _ _ _ Hv) as [H | (l & Hin & Has)];
      [now left |].
    right. now exists data, l.
Qed.

(** X21. A token in the environment decides alone: when
    [LITETRACKER_TOKEN] is set there, [Init] fails if it is empty or the
    placeholder, and succeeds with that token otherwise, whatever the [.env]
    files assign to it. *)
Theorem Init_takes_the_token_from_the_environment
        (faults : string -> bool) (fs : os.FS) (env : Env) (t : string) :
  LookupEnv "LITETRACKER_TOKEN" env = Some t ->
  (t = "" \/ t = "your_api_token_here" -> exists e, fst (Init faults fs env) = Err e) /\
  (t <> "" -> t <> "your_api_token_here" ->
   exists cfg, fst (Init faults fs env) = Ok cfg /\ config.Token cfg = t).
Proof.
  intros Hset. unfold Init. cbn [fst]. unfold config.Init.
  rewrite (envFacts.Getenv_keeps faults fs _ _ env Hset). split.
  - intros [-> | ->]; eexists; reflexivity.
  - intros H1 H2. destruct (String.eqb_spec t ""); [contradiction |].
    destruct (String.eqb_spec t "your_api_token_here"); [contradiction |].
    eexists. split; reflexivity.
Qed.

End EnvStatements.

Module initFacts.
Section InitFacts.
Context `{L : GoLib}.
Import GoStr.

Lemma Atoi_nil : Atoi "" = None.
Proof. reflexivity. Qed.

Lemma envInt_default (getenv : string -> string) (key : string) :
  config.envInt getenv key = default 0 (Atoi (getenv key)).
Proof.
  unfold config.envInt. destruct (String.eqb_spec (getenv key) "") as [-> | _]; reflexivity.
Qed.

Lemma envIntOrDefault_default (getenv : string -> string) (key : string) (def : Z) :
  config.envIntOrDefault getenv key def = default def (Atoi (getenv key)).
Proof.
  unfold config.envIntOrDefault.
  destruct (String.eqb_spec (getenv key) "") as [-> | _]; reflexivity.
Qed.

Lemma envOrDefault_nonempty (getenv : string -> string) (key def : string) :
  def <> "" -> config.envOrDefault getenv key def <> "".
Proof.
  intros Hdef. unfold config.envOrDefault.
  now destruct (String.eqb_spec (getenv key) "").
Qed.

Lemma parseProjectIDs_omap (parts : list string) :
  config.parseProjectIDs parts = omap (fun part => Atoi (strings_TrimSpace part)) parts.
Proof.
  induction parts as [|p parts IH]; [reflexivity |].
  cbn [config.parseProjectIDs omap list_omap]. rewrite IH.
  destruct (String.eqb_spec (strings_TrimSpace p) "") as [-> | _]; [reflexivity |].
  now destruct (Atoi (strings_TrimSpace p)).
Qed.

End InitFacts.
End initFacts.

Section InitStatement.
Context `{L : GoLib}.
Import GoStr.

(** X22. [Init] rejects nothing but a missing token.  It fails exactly
    when [LITETRACKER_TOKEN] is empty or the placeholder; otherwise the two
    URLs are never empty, a user id that is not a number becomes 0, a poll
    interval that is not a number becomes 300000 while any number, zero and
    negative ones included, is taken as it is, and the project ids are the
    comma-separated parts that [strconv.Atoi] accepts once trimmed, in
    order, the others being dropped. *)
Theorem Init_rejects_only_a_missing_token (getenv : string -> string) :
  ((exists e, config.Init getenv = Err e) <->
   getenv "LITETRACKER_TOKEN" = "" \/ getenv "LITETRACKER_TOKEN" = "your_api_token_here") /\
  (forall cfg : config.Config,
      config.Init getenv = Ok cfg ->
      config.Token cfg = getenv "LITETRACKER_TOKEN" /\
      config.BaseURL cfg <> "" /\
      config.WebURL cfg <> "" /\
      config.UserID cfg = default 0 (Atoi (getenv "LITETRACKER_USER_ID")) /\
      config.PollIntervalMs cfg = default 300000 (Atoi (getenv "POLL_INTERVAL_MS")) /\
      config.ProjectIDs cfg =
        omap (fun part => Atoi (strings_TrimSpace part))
             (config.splitComma "" (getenv "LITETRACKER_PROJECT_IDS"))).
Proof.
  unfold config.Init.
  destruct (String.eqb_spec (getenv "LITETRACKER_TOKEN") "") as [E1 | E1]; cbn [orb].
  { split; [split; [now left | intros _; eexists; reflexivity] | discriminate]. }
  destruct (String.eqb_spec (getenv "LITETRACKER_TOKEN") "your_api_token_here") as [E2 | E2].
  { split; [split; [now right | intros _; eexists; reflexivity] | discriminate]. }
  split.
  - split; [intros [e He]; discriminate He | intros [? | ?]; contradiction].
  - intros cfg E. injection E as <-. cbn.
    rewrite initFacts.envInt_default, initFacts.envIntOrDefault_default,
      initFacts.parseProjectIDs_omap.
    repeat split; apply initFacts.envOrDefault_nonempty; discriminate.
Qed.

End InitStatement.

(** ** The schema *)

Section SchemaStatement.
Context `{L : GoLib}.
Import schema.

(** X23. What [InitializeDatabase] does to the tables, once the database
    file is open and with an engine that fails a statement only when the
    catalog does not allow it: it returns no error and leaves both tables
    in place under a version that is current.  A database whose stored version is
    current keeps its rows and its version; one whose version is lower, or
    whose [schema_version] table is missing or empty, is emptied: both
    tables are dropped and created anew.  Running it a second time changes
    nothing. *)
Theorem InitializeDatabase_migrates_by_dropping (d : Database) :
  let d' := snd (InitializeDatabase None d) in
  fst (InitializeDatabase None d) = None /\
  tbl_stories d' <> None /\
  tbl_comments d' <> None /\
  schemaVersion <= getSchemaVersion d' /\
  (schemaVersion <= getSchemaVersion d ->
   storeOf d' = storeOf d /\ tbl_schema_version d' = tbl_schema_version d) /\
  (getSchemaVersion d < schemaVersion ->
   tbl_schema_version d' = Some [schemaVersion] /\
   tbl_stories d' = Some [] /\ tbl_comments d' = Some []) /\
  InitializeDatabase None d' = (None, d').
Proof.
  cbv zeta. unfold InitializeDatabase, migrateSchema.
  destruct (Z.geb_spec (getSchemaVersion d) schemaVersion) as [Hcur | Hold].
  - cbn [createTables createIndexes createViews fst snd tbl_stories tbl_comments
         tbl_schema_version].
    assert (Hcur' : getSchemaVersion
                      {| tbl_schema_version := tbl_schema_version d;
                         tbl_stories := Some match tbl_stories d with Some rows => rows | None => [] end;
                         tbl_comments := Some match tbl_comments d with Some rows => rows | None => [] end |}
                    = getSchemaVersion d) by reflexivity.
    rewrite Hcur'. destruct (Z.geb_spec (getSchemaVersion d) schemaVersion); [| lia].
    repeat split; try discriminate; try lia.
  - cbn. repeat split; try discriminate; try (unfold schemaVersion; lia).
Qed.

End SchemaStatement.

(** ** A pass over all projects, and the rounds of the daemon *)

Module roundFacts.
Section RoundFacts.
Context `{L : GoLib} `{R : !remote.Remote}.
Import remote sync syncspec storespec pollspec.

Lemma syncProjects_spec (cfg : config.Config) (pids : list Z) (st : Store) (w : World) :
  map fst (fst (fst (ltSync.syncProjects cfg pids st w))) = pids /\
  flagsKept st (snd (fst (ltSync.syncProjects cfg pids st w))) /\
  (keyed st -> keyed (snd (fst (ltSync.syncProjects cfg pids st w)))).
Proof.
  revert st w. induction pids as [|pid rest IH]; intros st w.
  - split; [reflexivity |]. split; [apply syncFacts.flagsKept_refl | now intros Hk].
  - cbn [ltSync.syncProjects].
    pose proof (passFacts.syncProject_kept cfg pid st w) as Hk.
    pose proof (passFacts.syncProject_keyed cfg pid st w) as Hpk.
    destruct (syncProject cfg pid st w) as [[stats st1] w1]. cbn [fst snd] in Hk, Hpk.
    destruct (IH st1 w1) as (Hids & Hk' & Hpk').
    destruct (ltSync.syncProjects cfg rest st1 w1) as [[more st2] w2]. cbn [fst snd] in *.
    split; [simpl; now f_equal |]. split; [| now auto].
    now apply (syncFacts.flagsKept_trans st st1 st2).
Qed.

Lemma SyncAllProjects_fields (cfg : config.Config) (run : snapshot.Run)
      (st : Store) (fs : os.FS) (w : World) :
  ltSync.SyncAllProjects cfg run st fs w =
  {| ltSync.logged := fst (fst (ltSync.syncProjects cfg (config.ProjectIDs cfg) st w));
     ltSync.snapshot_error := fst (snapshot.CreateSnapshot cfg run fs);
     ltSync.store := snd (fst (ltSync.syncProjects cfg (config.ProjectIDs cfg) st w));
     ltSync.files := snd (snapshot.CreateSnapshot cfg run fs);
     ltSync.world := snd (ltSync.syncProjects cfg (config.ProjectIDs cfg) st w) |}.
Proof.
  unfold ltSync.SyncAllProjects.
  destruct (ltSync.syncProjects cfg (config.ProjectIDs cfg) st w) as [[stats st'] w'].
  now destruct (snapshot.CreateSnapshot cfg run fs).
Qed.

Lemma fetches_app (xs ys : list main.Event) :
  fetches (xs ++ ys) = (fetches xs ++ fetches ys)%list.
Proof.
  induction xs as [|[pid since | title message] xs IH]; simpl; [reflexivity | | exact IH].
  now rewrite IH.
Qed.

Lemma poll_fields (cfg : config.Config) (o : os.WriteOutcome) (state : main.pollState)
      (fs : os.FS) (w : World) :
  main.LastPoll (main.after (main.poll cfg o state fs w)) = fst (time_Now w) /\
  fetches (main.events (main.poll cfg o state fs w)) =
    map (fun pid => (pid, main.LastPoll state)) (config.ProjectIDs cfg).
Proof.
  unfold main.poll. destruct (time_Now w) as [now w0]. cbn [fst].
  pose proof (pollFacts.pollProjects_fetches cfg (main.LastPoll state) (config.ProjectIDs cfg) w0)
    as Hf.
  destruct (main.pollProjects cfg (main.LastPoll state) (config.ProjectIDs cfg) w0) as [evs w1].
  now split.
Qed.

Lemma pollAndSync_fields (cfg : config.Config) (t : daemon.Tick) (p : daemon.Process) :
  main.LastPoll (daemon.state (daemon.pollAndSync cfg t p)) = fst (time_Now (daemon.world p)) /\
  fetches (daemon.seen (daemon.pollAndSync cfg t p)) =
    (fetches (daemon.seen p) ++
     map (fun pid => (pid, main.LastPoll (daemon.state p))) (config.ProjectIDs cfg))%list /\
  flagsKept (daemon.store p) (daemon.store (daemon.pollAndSync cfg t p)).
Proof.
  unfold daemon.pollAndSync. cbv zeta. cbn [daemon.state daemon.seen daemon.store].
  destruct (poll_fields cfg (daemon.state_write t) (daemon.state p) (daemon.files p)
              (daemon.world p)) as [Hnow Hf].
  split; [exact Hnow |]. split; [now rewrite fetches_app, Hf |].
  rewrite SyncAllProjects_fields. cbn [ltSync.store]. apply syncProjects_spec.
Qed.

Lemma rounds_snoc (cfg : config.Config) (ticks : list daemon.Tick) (t : daemon.Tick)
      (p : daemon.Process) :
  daemon.rounds cfg (ticks ++ [t]) p = daemon.pollAndSync cfg t (daemon.rounds cfg ticks p).
Proof. unfold daemon.rounds. now rewrite fold_left_app. Qed.

Lemma rounds_spec (cfg : config.Config) (ticks : list daemon.Tick) (p : daemon.Process) :
  length (fetches (daemon.seen (daemon.rounds cfg ticks p))) =
    (length (fetches (daemon.seen p)) + length ticks * length (config.ProjectIDs cfg))%nat /\
  flagsKept (daemon.store p) (daemon.store (daemon.rounds cfg ticks p)).
Proof.
  revert p. induction ticks as [|t ticks IH]; intros p.
  - split; [simpl; lia | apply syncFacts.flagsKept_refl].
  - change (daemon.rounds cfg (t :: ticks) p)
      with (daemon.rounds cfg ticks (daemon.pollAndSync cfg t p)).
    destruct (IH (daemon.pollAndSync cfg t p)) as [Hlen Hk].
    destruct (pollAndSync_fields cfg t p) as (_ & Hf & Hk1).
    split.
    + rewrite Hlen, Hf, List.length_app, List.length_map. simpl length. lia.
    + now apply (syncFacts.flagsKept_trans _ _ _ Hk1).
Qed.

Lemma wrap64_small (z : Z) : - 2 ^ 63 <= z < 2 ^ 63 -> daemon.wrap64 z = z.
Proof. intros Hz. unfold daemon.wrap64. rewrite Z.mod_small; lia. Qed.

Lemma wrap64_over (z : Z) : 2 ^ 63 <= z < 2 ^ 64 -> daemon.wrap64 z = z - 2 ^ 64.
Proof.
  intros Hz. unfold daemon.wrap64.
  replace (z + 2 ^ 63) with ((z - 2 ^ 63) + 1 * 2 ^ 64) by lia.
  rewrite Z.mod_add by lia. rewrite Z.mod_small; lia.
Qed.

End RoundFacts.
End roundFacts.

Section RoundStatements.
Context `{L : GoLib} `{R : !remote.Remote}.
Import remote sync syncspec storespec pollspec.

(** X24. [SyncAllProjects] passes over every configured project, in the
    order of the configuration, and then makes the snapshot, whatever the
    passes did and also when no project is configured.  Over the whole call
    no stored story is lost and no [mentions_me] flag is reset, the primary
    keys are kept, and the poll state file is not touched. *)
Theorem SyncAllProjects_visits_every_project
        (cfg : config.Config) (run : snapshot.Run) (st : Store) (fs : os.FS) (w : World) :
  let pass := ltSync.SyncAllProjects cfg run st fs w in
  map fst (ltSync.logged pass) = config.ProjectIDs cfg /\
  flagsKept st (ltSync.store pass) /\
  (keyed st -> keyed (ltSync.store pass)) /\
  (ltSync.snapshot_error pass, ltSync.files pass) = snapshot.CreateSnapshot cfg run fs /\
  ltSync.files pass !! main.pollStatePath cfg = fs !! main.pollStatePath cfg.
Proof.
  cbv zeta. rewrite roundFacts.SyncAllProjects_fields.
  cbn [ltSync.logged ltSync.store ltSync.snapshot_error ltSync.files].
  destruct (roundFacts.syncProjects_spec cfg (config.ProjectIDs cfg) st w) as (H1 & H2 & H3).
  split; [exact H1 |]. split; [exact H2 |]. split; [exact H3 |]. split.
  - now destruct (snapshot.CreateSnapshot cfg run fs).
  - apply frameFacts.CreateSnapshot_frame.
    + intros E. now apply (frameFacts.pollStatePath_dbPath cfg).
    + intros E. now apply (frameFacts.pollStatePath_snapPath cfg).
    + intros E. now apply (frameFacts.pollStatePath_tmpPath cfg).
Qed.

(** X25. The rounds of the daemon leave no gap between their windows:
    a round fetches every configured project once, with the cursor the
    process holds in memory, and leaves as the cursor the clock text it read
    at its start, so the next round starts where this one ended; neither the
    outcome of the write of the state file nor the sync pass in between
    changes that.  After [n] rounds [n] fetches per project have been made,
    and the store still holds every story it held. *)
Theorem daemon_windows_are_contiguous
        (cfg : config.Config) (t t' : daemon.Tick) (ticks : list daemon.Tick)
        (p : daemon.Process) :
  let p1 := daemon.pollAndSync cfg t p in
  main.LastPoll (daemon.state p1) = fst (time_Now (daemon.world p)) /\
  fetches (daemon.seen p1) =
    (fetches (daemon.seen p) ++
     map (fun pid => (pid, main.LastPoll (daemon.state p))) (config.ProjectIDs cfg))%list /\
  fetches (daemon.seen (daemon.pollAndSync cfg t' p1)) =
    (fetches (daemon.seen p) ++
     map (fun pid => (pid, main.LastPoll (daemon.state p))) (config.ProjectIDs cfg) ++
     map (fun pid => (pid, fst (time_Now (daemon.world p)))) (config.ProjectIDs cfg))%list /\
  length (fetches (daemon.seen (daemon.rounds cfg ticks p))) =
    (length (fetches (daemon.seen p)) + length ticks * length (config.ProjectIDs cfg))%nat /\
  flagsKept (daemon.store p) (daemon.store (daemon.rounds cfg ticks p)).
Proof.
  cbv zeta.
  destruct (roundFacts.pollAndSync_fields cfg t p) as (Hnow & Hf & _).
  destruct (roundFacts.pollAndSync_fields cfg t' (daemon.pollAndSync cfg t p)) as (_ & Hf' & _).
  destruct (roundFacts.rounds_spec cfg ticks p) as [Hlen Hk].
  split; [exact Hnow |]. split; [exact Hf |]. split; [| now split].
  now rewrite Hf', Hf, Hnow, <- app_assoc.
Qed.

(** X26. The interval of the ticker is the configured number of
    milliseconds times a million, in a 64-bit integer.  It is positive for
    1 to 9223372036854 milliseconds; for zero, for a negative number down to
    -9223372036854 and for 9223372036855 to 18446744073709 milliseconds,
    where the product overflows, it is not, and then [runDaemon] never
    enters its loop: it ends in the panic of [time.NewTicker] after the
    initial poll and sync, if it gets that far. *)
Theorem runDaemon_needs_a_positive_interval
        (cfg : config.Config) (log_error open_error : option string) (d : schema.Database)
        (fault : bool) (first : daemon.Tick) (ticks : list daemon.Tick) (fs : os.FS) (w : World) :
  (0 < config.PollIntervalMs cfg <= 9223372036854 -> 0 < daemon.tickerInterval cfg) /\
  (- 9223372036854 <= config.PollIntervalMs cfg <= 0 \/
   9223372036855 <= config.PollIntervalMs cfg <= 18446744073709 ->
   daemon.tickerInterval cfg <= 0) /\
  (daemon.tickerInterval cfg <= 0 ->
   daemon.runDaemon cfg log_error open_error d fault first ticks fs w =
     daemon.runDaemon cfg log_error open_error d fault first [] fs w /\
   forall p, daemon.runDaemon cfg log_error open_error d fault first ticks fs w
             <> daemon.Shutdown p).
Proof.
  unfold daemon.tickerInterval. split; [| split].
  - intros Hms. rewrite roundFacts.wrap64_small; [lia |].
    change (2 ^ 63) with 9223372036854775808. lia.
  - intros [Hms | Hms].
    + rewrite roundFacts.wrap64_small; [lia |].
      change (2 ^ 63) with 9223372036854775808. lia.
    + rewrite roundFacts.wrap64_over.
      * change (2 ^ 64) with 18446744073709551616. lia.
      * change (2 ^ 63) with 9223372036854775808.
        change (2 ^ 64) with 18446744073709551616. lia.
  - intros Hneg. unfold daemon.runDaemon, daemon.tickerInterval.
    destruct log_error; [split; [reflexivity | discriminate] |].
    destruct (length (config.ProjectIDs cfg) =? 0)%nat; [split; [reflexivity | discriminate] |].
    destruct (schema.InitializeDatabase open_error d) as [[e |] d'];
      [split; [reflexivity | discriminate] |].
    destruct (main.loadPollState cfg fault fs w) as [st w1].
    destruct (Z.leb_spec (daemon.wrap64 (config.PollIntervalMs cfg * 1000000)) 0); [| lia].
    split; [reflexivity | discriminate].
Qed.

End RoundStatements.

(** ** The handlers of the write tools *)

Section HandlerStatements.
Context `{L : GoLib} `{R : !remote.Remote}.
Import remote webclient mcpserver.

(** X27. The handlers of the three write tools check their arguments
    before anything else: when an id is missing, is zero or is not given as
    a number, or when the text or the label is missing, is empty or is not
    given as a string, the handler returns the error result that names the
    required arguments, sends no request and leaves the session and the
    world as they are. *)
Theorem write_tools_check_their_arguments_first
        (cfg : config.Config) (args : ToolArguments) (wc : WebClient) (w : World) :
  (getInt args "project_id" = 0 \/ getInt args "story_id" = 0 \/ getString args "text" = "" ->
   handlePostComment cfg args wc w =
     (ToolError "Error: project_id, story_id, and text are required", wc, w)) /\
  (getInt args "project_id" = 0 \/ getInt args "story_id" = 0 \/ getString args "label" = "" ->
   handleAddLabel cfg args wc w =
     (ToolError "Error: project_id, story_id, and label are required", wc, w)) /\
  (getInt args "project_id" = 0 \/ getInt args "story_id" = 0 \/ getInt args "user_id" = 0 ->
   handleAddOwner cfg args wc w =
     (ToolError "Error: project_id, story_id, and user_id are required", wc, w)) /\
  (forall key, getInt args key <> 0 ->
               args !! key = Some (ArgFloat64 (getInt args key)) \/
               args !! key = Some (ArgInt (getInt args key))) /\
  (forall key, getString args key <> "" -> args !! key = Some (ArgString (getString args key))).
Proof.
  split; [| split; [| split; [| split]]].
  - intros H. unfold handlePostComment.
    replace ((getInt args "project_id" =? 0) || (getInt args "story_id" =? 0)
             || String.eqb (getString args "text") "") with true; [reflexivity |].
    symmetry. destruct H as [-> | [-> | ->]]; rewrite ?orb_true_r; reflexivity.
  - intros H. unfold handleAddLabel.
    replace ((getInt args "project_id" =? 0) || (getInt args "story_id" =? 0)
             || String.eqb (getString args "label") "") with true; [reflexivity |].
    symmetry. destruct H as [-> | [-> | ->]]; rewrite ?orb_true_r; reflexivity.
  - intros H. unfold handleAddOwner.
    replace ((getInt args "project_id" =? 0) || (getInt args "story_id" =? 0)
             || (getInt args "user_id" =? 0)) with true; [reflexivity |].
    symmetry. destruct H as [-> | [-> | ->]]; rewrite ?orb_true_r; reflexivity.
  - intros key. unfold getInt. destruct (args !! key) as [[n | n | s |] |]; auto; congruence.
  - intros key. unfold getString. destruct (args !! key) as [[n | n | s |] |]; auto; congruence.
Qed.

(** X28. The [project_id] of [post_comment] has to be there and nothing
    more: [postComment] addresses the story by its id alone, so two calls
    that differ only in the non-zero project id they give send the same
    requests and return the same result. *)
Theorem post_comment_ignores_the_project_id
        (cfg : config.Config) (args args' : ToolArguments) (wc : WebClient) (w : World) :
  getInt args "project_id" <> 0 ->
  getInt args' "project_id" <> 0 ->
  getInt args "story_id" = getInt args' "story_id" ->
  getString args "text" = getString args' "text" ->
  handlePostComment cfg args wc w = handlePostComment cfg args' wc w.
Proof.
  intros Hp Hp' Hs Ht. unfold handlePostComment. rewrite Hs, Ht.
  destruct (Z.eqb_spec (getInt args "project_id") 0); [contradiction |].
  destruct (Z.eqb_spec (getInt args' "project_id") 0); [contradiction |].
  reflexivity.
Qed.

End HandlerStatements.

(** ** The notification text *)

Module escapeFacts.
Import GoStr GoStrFacts environ.

Lemma byteAt_0 (a : ascii) (s : string) : byteAt (String a s) 0 = a.
Proof. reflexivity. Qed.

Lemma byteAt_S (a : ascii) (s : string) (i : nat) : byteAt (String a s) (S i) = byteAt s i.
Proof. reflexivity. Qed.

Lemma replace_line_feeds (s : string) (fuel : nat) :
  (String.length s <= fuel)%nat ->
  String.length (replaceFrom fuel s (String "010" "") " ") = String.length s /\
  hasByte "010" (replaceFrom fuel s (String "010" "") " ") = false /\
  forall i, byteAt (replaceFrom fuel s (String "010" "") " ") i =
            if Ascii.eqb (byteAt s i) "010" then " "%char else byteAt s i.
Proof.
  revert fuel. induction s as [|a s IH]; intros fuel Hfuel.
  - destruct fuel; simpl; repeat split; intros i; now destruct i.
  - destruct fuel as [|fuel]; [simpl in Hfuel; lia |].
    simpl in Hfuel. destruct (IH fuel ltac:(lia)) as (Hlen & Hno & Hat).
    destruct (Ascii.eqb a "010") eqn:Ea.
    + rewrite parseFacts.replaceFrom_hit by (now rewrite envFacts.HasPrefix_byte).
      assert (Hrest : String.substring (String.length (String "010" ""))
                        (String.length (String a s) - String.length (String "010" ""))
                        (String a s) = s).
      { simpl. rewrite Nat.sub_0_r. apply substring_all. }
      rewrite Hrest. change (" " +:+ ?x) with (String " " x).
      repeat split.
      * simpl. now rewrite Hlen.
      * simpl. exact Hno.
      * intros [|i]; [now rewrite !byteAt_0, Ea |]. rewrite !byteAt_S. apply Hat.
    + cbn [replaceFrom]. rewrite envFacts.HasPrefix_byte, Ea.
      repeat split.
      * simpl. now rewrite Hlen.
      * simpl. now rewrite Ea, Hno.
      * intros [|i]; [now rewrite !byteAt_0, Ea |]. rewrite !byteAt_S. apply Hat.
Qed.

End escapeFacts.

Section EscapeStatement.
Import GoStr environ.

(** X29. [escapeForAppleScript] hands to [json.Marshal] a text without
    line feeds: the text has the length of the input and its bytes, with a
    space in the place of every line feed. *)
Theorem escapeForAppleScript_takes_out_the_line_feeds
        (json_Marshal_string : string -> string) (s : string) :
  exists t : string,
    notify.escapeForAppleScript json_Marshal_string s = json_Marshal_string t /\
    String.length t = String.length s /\
    hasByte "010" t = false /\
    forall i, byteAt t i = if Ascii.eqb (byteAt s i) "010" then " "%char else byteAt s i.
Proof.
  exists (ReplaceAll s (String "010" "") " "). split; [reflexivity |].
  apply escapeFacts.replace_line_feeds. lia.
Qed.

End EscapeStatement.

(** ** The read client under the session client *)

Section ClientStatement.
Context `{L : GoLib} `{R : !remote.Remote}.
Import remote webclient GoStr.

(** X30. A failure of the token API reaches the session: when
    [GetStory] is the read client over a transport that answers the read of
    the story with the status 401, [addOwner] fails with an error that
    [sessionExpired] accepts, and [WebAddOwner], called with the session in
    place, drops the session, logs in again and then runs [addOwner] a
    second time, although the web session was not what failed. *)
Theorem token_failure_makes_WebAddOwner_log_in_again
        (client_Do : string -> string -> string -> option string -> World
                     -> Result client.HTTPResponse * World)
        (decode_Story : string -> Result api.Story)
        (cfg : config.Config) (projectID storyID ownerID : Z)
        (wc : WebClient) (w w1 : World) (resp : client.HTTPResponse) :
  GetStory projectID storyID w = client.GetStory client_Do decode_Story cfg projectID storyID w ->
  http_NewRequest "GET" (config.BaseURL cfg +:+ client.storyPath projectID storyID) = None ->
  client_Do "GET" (config.BaseURL cfg +:+ client.storyPath projectID storyID)
            (config.Token cfg) None w = (Ok resp, w1) ->
  client.StatusCode resp = 401 ->
  loggedIn wc = true ->
  addOwner cfg storyID projectID ownerID wc w =
    (Err ("fetch story owners: " +:+ client.statusError resp), wc, w1) /\
  sessionExpired ("fetch story owners: " +:+ client.statusError resp) = true /\
  WebAddOwner cfg projectID storyID ownerID wc w =
    match ensureLoggedIn cfg (setLoggedIn false wc) w1 with
    | (Some e, wc', w') => (Err e, wc', w')
    | (None, wc', w') => addOwner cfg storyID projectID ownerID wc' w'
    end.
Proof.
  intros Hread Hreq Hdo Hstatus Hin.
  assert (Hstory : GetStory projectID storyID w = (Err (client.statusError resp), w1)).
  { rewrite Hread. unfold client.GetStory, client.request. rewrite Hreq, Hdo, Hstatus.
    reflexivity. }
  assert (Hadd : addOwner cfg storyID projectID ownerID wc w =
                 (Err ("fetch story owners: " +:+ client.statusError resp), wc, w1)).
  { unfold addOwner. now rewrite Hstory. }
  assert (Hexp : sessionExpired ("fetch story owners: " +:+ client.statusError resp) = true).
  { unfold sessionExpired, client.statusError. rewrite Hstatus. change (Itoa 401) with "401".
    replace (Contains _ "401") with true; [reflexivity |]. symmetry.
    apply GoStrFacts.Contains_spec.
    exists "fetch story owners: LiteTracker API ",
           (": " +:+ client.Status resp +:+ " " +:+ client.emDash +:+ " " +:+ client.Body resp).
    reflexivity. }
  split; [exact Hadd |]. split; [exact Hexp |].
  unfold WebAddOwner, withSession, ensureLoggedIn at 1. rewrite Hin, Hadd, Hexp. reflexivity.
Qed.

End ClientStatement.

(** ** The further statements at concrete inputs *)

Section MoreWitnesses.
Import standin example.

(** The payload of story 2 goes into a table that holds story 1. *)
Lemma upsert_new_id_witness :
  exists r : db.stories,
    db.UpsertStory "2026-02-13T10:00:00Z" (storyPayload 2 7 "new" false)
                   [storedStory 1 1 "old" true]
    = (None, [storedStory 1 1 "old" true; r]) /\
    db.stories_project_id r = 7.
Proof.
  assert (Hs : ~ In 2 (map db.stories_id [storedStory 1 1 "old" true]))
    by (simpl; intros [H | []]; discriminate H).
  assert (Hc : ~ In 51 (map db.comments_id [storedComment 50 1 1 "old" true]))
    by (simpl; intros [H | []]; discriminate H).
  destruct (@upsert_new_id lib "2026-02-13T10:00:00Z" "2026-02-13T10:00:00Z"
              (storyPayload 2 7 "new" false) [storedStory 1 1 "old" true]
              (commentPayload 51 1 7 "hi" false) [storedComment 50 1 1 "old" true]
              eq_refl ltac:(fits) ltac:(fits) Hs Hc)
    as (_ & _ & (r & Hr & _ & Hp & _) & _).
  exists r. split; [exact Hr | exact Hp].
Defined.

(** A pass over the project of [twoStories], from an empty store. *)
Lemma syncProject_keeps_primary_keys_witness :
  storespec.keyed
    (snd (fst (sync.syncProject (R := scripted (twoStories "hey @alice")) (cfg "alice") 1
                 {| sync.Store_stories := []; sync.Store_comments := [] |} []))).
Proof.
  apply (@syncProject_keeps_primary_keys lib (scripted (twoStories "hey @alice"))).
  split; apply List.NoDup_nil.
Defined.

Lemma syncProject_stores_what_was_fetched_witness :
  exists r : db.stories,
    storespec.storyAt 1
      (sync.Store_stories
         (snd (fst (sync.syncProject (R := scripted (twoStories "")) (cfg "alice") 1
                      {| sync.Store_stories := []; sync.Store_comments := [] |} []))))
    = Some r /\
    db.stories_title r = "story" /\
    db.stories_current_state r = Some "started" /\
    db.stories_is_mine r = true.
Proof.
  assert (Hclock : syncspec.clockCasts (R := scripted (twoStories "")))
    by (apply clockCasts_scripted; vm_compute; discriminate).
  destruct (@syncProject_stores_what_was_fetched lib (scripted (twoStories "")) (cfg "alice") 1
              {| sync.Store_stories := []; sync.Store_comments := [] |} []
              (aStory 1 "started" [owner 7 "Alice"]) Hclock ltac:(fits))
    as (r & Hr & Hm & Hmine).
  - simpl. repeat constructor; simpl; intuition discriminate.
  - simpl. now left.
  - exists r. split; [exact Hr |].
    destruct Hm as (_ & Htitle & _ & _ & Hstate & _).
    split; [exact Htitle |]. split; [exact Hstate | exact Hmine].
Defined.

(** Story 1 is listed as started, owned by the user, then as delivered,
    owned by somebody else, and then as rejected with an estimate the store
    refuses. *)
Lemma syncProject_last_entry_wins_witness :
  exists r : db.stories,
    storespec.storyAt 1
      (sync.Store_stories
         (snd (fst (sync.syncProject (R := scripted movingStory) (cfg "alice") 1
                      {| sync.Store_stories := []; sync.Store_comments := [] |} []))))
    = Some r /\
    db.stories_current_state r = Some "delivered" /\
    db.stories_owner_names r = Some "Bob" /\
    db.stories_is_mine r = true.
Proof.
  assert (Hclock : syncspec.clockCasts (R := scripted movingStory))
    by (apply clockCasts_scripted; vm_compute; discriminate).
  destruct (@syncProject_last_entry_wins lib (scripted movingStory) (cfg "alice") 1
              {| sync.Store_stories := []; sync.Store_comments := [] |} []
              [aStory 1 "started" [owner 7 "Alice"]] [oversized]
              (aStory 1 "delivered" [owner 8 "Bob"]) Hclock eq_refl ltac:(fits))
    as (r & Hr & Hm & Hmine).
  - intros s' [<- | []] _ (_ & _ & He & _).
    unfold dbspec.optFits, dbspec.fitsInt32 in He. simpl in He. lia.
  - exists r. split; [exact Hr |].
    destruct Hm as (_ & _ & _ & _ & Hstate & _ & _ & _ & _ & Howners & _).
    split; [exact Hstate |]. split; [exact Howners | exact Hmine].
Defined.

(** The login POST is answered with the status 500: the session counts as
    authenticated. *)
Lemma login_fails_only_on_401_or_422_witness :
  webclient.loggedIn
    (snd (fst (webclient.ensureLoggedIn (R := scripted (twoStories "")) (cfg "alice")
                 {| webclient.loggedIn := false; webclient.sent := [] |}
                 [reply 200 "<meta name=csrf-token content=x>";
                  reply 500 "Internal Server Error"]))) = true.
Proof.
  assert (Hemail : config.Email (cfg "alice") <> "") by discriminate.
  assert (Hpass : config.Password (cfg "alice") <> "") by discriminate.
  pose proof (@login_fails_only_on_401_or_422 lib (scripted (twoStories "")) (cfg "alice")
                {| webclient.loggedIn := false; webclient.sent := [] |}
                [reply 200 "<meta name=csrf-token content=x>"; reply 500 "Internal Server Error"]
                [reply 500 "Internal Server Error"] []
                {| remote.Resp_StatusCode := 200;
                   remote.Resp_Body := "<meta name=csrf-token content=x>" |}
                {| remote.Resp_StatusCode := 500; remote.Resp_Body := "Internal Server Error" |}
                "token" eq_refl Hemail Hpass eq_refl eq_refl eq_refl eq_refl eq_refl)
    as (_ & _ & _ & Hflag).
  apply Hflag. split; discriminate.
Defined.

(** A web server that answers 401 to the post of a comment. *)
Lemma status_401_is_taken_for_an_expired_session_witness :
  exists e : string,
    fst (fst (webclient.postComment (R := unauthorized (twoStories "")) (cfg "alice") 1 "hello"
                {| webclient.loggedIn := true; webclient.sent := [] |} tt)) = Err e /\
    webclient.sessionExpired e = true.
Proof.
  destruct (@status_401_is_taken_for_an_expired_session lib (unauthorized (twoStories ""))
              (cfg "alice") 1 1 7 "hello" "urgent"
              {| webclient.loggedIn := true; webclient.sent := [] |} tt)
    as (Hpost & _).
  - intros req w. exists "Unauthorized", w. reflexivity.
  - apply Hpost. reflexivity.
Defined.

(** Half past four in the afternoon. *)
Lemma ParseApiDate_gives_the_24_hour_clock_witness :
  exists HH : string,
    db.ParseApiDate "12 Feb 2026, 4:30PM" = Some ("2026-02-12T" +:+ HH +:+ ":30:00.000Z") /\
    GoStr.digitsVal 0 HH = 16.
Proof.
  destruct (ParseApiDate_gives_the_24_hour_clock
              "12 Feb 2026, 4:30PM" "12" "Feb" "2026" "4" "30" "PM" "02")
    as (HH & Hparse & _ & _ & _ & Hval & _).
  - exists " ", " ", " ". repeat split; simpl; try lia; auto.
  - reflexivity.
  - change (GoStr.digitsVal 0 "4") with 4. lia.
  - exists HH. split; [exact Hparse | exact Hval].
Defined.

(** [LITETRACKER_TOKEN] is set in the environment and assigned in [.env]. *)
Lemma environment_takes_precedence_witness :
  environ.LookupEnv "LITETRACKER_TOKEN"
    (dotenv.loadEnvFile false ".env" {[ ".env" := dotEnvFile ]}
                        {[ "LITETRACKER_TOKEN" := "from-environment" ]})
  = Some "from-environment".
Proof.
  refine (proj1 (@environment_takes_precedence lib (fun _ => false) false ".env"
                   {[ ".env" := dotEnvFile ]} {[ "LITETRACKER_TOKEN" := "from-environment" ]}
                   "LITETRACKER_TOKEN" "from-environment" _)).
  reflexivity.
Defined.

(** The token is assigned twice in [.env] and not set in the environment. *)
Lemma first_assignment_wins_witness :
  environ.LookupEnv "LITETRACKER_TOKEN"
    (dotenv.loadEnvFile false ".env" {[ ".env" := dotEnvFile ]} ∅)
  = Some "from-file".
Proof.
  apply (@first_assignment_wins lib false ".env" {[ ".env" := dotEnvFile ]} ∅ dotEnvFile
           [] ["LITETRACKER_TOKEN=second"] "LITETRACKER_TOKEN=from-file").
  - reflexivity.
  - reflexivity.
  - reflexivity.
  - intros l v [].
  - exists "LITETRACKER_TOKEN", "from-file". repeat split. discriminate.
  - repeat split. discriminate.
Defined.

(** An empty token in the environment, a token in [.env]. *)
Lemma Init_takes_the_token_from_the_environment_witness :
  exists e : string,
    fst (dotenv.Init (fun _ => false) {[ ".env" := dotEnvFile ]}
                     {[ "LITETRACKER_TOKEN" := "" ]}) = Err e.
Proof.
  refine (proj1 (@Init_takes_the_token_from_the_environment lib (fun _ => false)
                   {[ ".env" := dotEnvFile ]} {[ "LITETRACKER_TOKEN" := "" ]} "" _) _).
  - reflexivity.
  - now left.
Defined.

(** The same comment, posted under two project ids. *)
Lemma post_comment_ignores_the_project_id_witness :
  mcpserver.handlePostComment (R := scripted (twoStories "")) (cfg "alice")
    {[ "project_id" := mcpserver.ArgFloat64 1; "story_id" := mcpserver.ArgFloat64 5;
       "text" := mcpserver.ArgString "hello" ]}
    {| webclient.loggedIn := true; webclient.sent := [] |} [reply 201 "{}"]
  = mcpserver.handlePostComment (R := scripted (twoStories "")) (cfg "alice")
      {[ "project_id" := mcpserver.ArgInt 99; "story_id" := mcpserver.ArgFloat64 5;
         "text" := mcpserver.ArgString "hello" ]}
      {| webclient.loggedIn := true; webclient.sent := [] |} [reply 201 "{}"].
Proof.
  apply (@post_comment_ignores_the_project_id lib (scripted (twoStories ""))).
  - vm_compute. discriminate.
  - vm_compute. discriminate.
  - reflexivity.
  - reflexivity.
Defined.

(** The token API rejects the token while the session is in place. *)
Lemma token_failure_makes_WebAddOwner_log_in_again_witness :
  webclient.sessionExpired ("fetch story owners: " +:+ client.statusError rejected) = true /\
  webclient.addOwner (R := scripted tokenRejected) (cfg "alice") 1 1 7
                     {| webclient.loggedIn := true; webclient.sent := [] |} []
  = (Err ("fetch story owners: " +:+ client.statusError rejected),
     {| webclient.loggedIn := true; webclient.sent := [] |}, []).
Proof.
  destruct (@token_failure_makes_WebAddOwner_log_in_again lib (scripted tokenRejected)
              rejecting (fun _ => Err "unexpected end of JSON input")
              (cfg "alice") 1 1 7 {| webclient.loggedIn := true; webclient.sent := [] |}
              [] [] rejected)
    as (Hadd & Hexp & _); try reflexivity.
  split; [exact Hexp | exact Hadd].
Defined.

(** Where [strings.ToLower] folds the ASCII letters the two searches agree. *)
Lemma mentionsUser_agrees_with_containsIgnoreCase_witness :
  sync.mentionsUser (cfg "Alice") "ping @ALICE please" =
  main.containsIgnoreCase "ping @ALICE please" (config.Username (cfg "Alice")).
Proof.
  apply (@mentionsUser_agrees_with_containsIgnoreCase lib).
  - reflexivity.
  - reflexivity.
  - discriminate.
Defined.

End MoreWitnesses.
